(** * nik utility library: cooperative thread coordinator and buffered logger

    A shallow embedding of [Util/ThreadObj.h], [Util/ThreadObj.cpp],
    [Util/Event.cpp], [Util/Mutex.cpp], [Util/ScopeLock.h], [Util/Logger.h]
    and [Util/Logger.cpp], and of the smaller parts of the library:
    [Utility.h], [CmdLine.cpp], [MultiArray.h], [Timer.cpp],
    [GenericFactory.h] and [observer.h].

    Sequential methods are functions in a small result-and-state monad whose
    lines follow the C++ statements.  Code that runs on its own thread
    ([ThreadCoord::Run], [LogImpl::LogThreadFunc], [LogImpl::~LogImpl],
    [LogImpl::Write]) is a program-counter machine with one step per shared
    memory access, so that several threads can be interleaved by an explicit
    schedule. *)

From Stdlib Require Import String Ascii List Bool Arith ZArith Lia.
From stdpp Require Import base option list gmap strings.

Set Default Proof Using "Type".

(* ===================================================================== *)
(** * Part I: definitions                                                  *)
(* ===================================================================== *)

(** ** Build configuration

    [assert] is compiled out under NDEBUG; [ScopeLock] changes its constructor
    under NIK_DEBUG. *)
Record Build := mkBuild {
  asserts : bool;     (* NDEBUG is not defined *)
  nik_debug : bool    (* NIK_DEBUG is defined *)
}.

Definition release : Build := mkBuild false false.
Definition debug : Build := mkBuild true true.

(** ** Results of a call *)

(** Ways a call can end without returning or throwing. *)
Inductive Fault :=
| AssertionFailed      (* assert(e) with e false: abort() *)
| NullPointer.         (* a member call through a null pointer *)

(** [nik::Error] carries its message. *)
Definition Error := string.

Inductive Result (A : Type) :=
| Val (a : A)
| Raised (e : Error)
| Crashed (f : Fault)
| Blocked.             (* a wait without timeout that nothing will end *)
Arguments Val {A} a.
Arguments Raised {A} e.
Arguments Crashed {A} f.
Arguments Blocked {A}.

(** State is threaded through every call and survives an exception: what a
    method wrote before it threw stays written. *)
Definition M (S A : Type) := S -> Result A * S.

Definition ret {S A} (a : A) : M S A := fun s => (Val a, s).

Definition bind {S A B} (m : M S A) (k : A -> M S B) : M S B :=
  fun s =>
    match m s with
    | (Val a, s') => k a s'
    | (Raised e, s') => (Raised e, s')
    | (Crashed f, s') => (Crashed f, s')
    | (Blocked, s') => (Blocked, s')
    end.

Definition throw {S A} (e : Error) : M S A := fun s => (Raised e, s).
Definition crash {S A} (f : Fault) : M S A := fun s => (Crashed f, s).
Definition block {S A} : M S A := fun s => (Blocked, s).
Definition get {S} : M S S := fun s => (Val s, s).
Definition gets {S A} (f : S -> A) : M S A := fun s => (Val (f s), s).
Definition modify {S} (f : S -> S) : M S unit := fun s => (Val tt, f s).

(** [try { m } catch (nik::Error&) { h }] *)
Definition try_catch {S A} (m : M S A) (h : Error -> M S A) : M S A :=
  fun s =>
    match m s with
    | (Raised e, s') => h e s'
    | r => r
    end.

(** [assert(e)] *)
Definition assert_ {S} (b : Build) (e : bool) : M S unit :=
  if asserts b && negb e then crash AssertionFailed else ret tt.

(** Run a computation on a component of the state. *)
Definition zoom {S T A} (proj : S -> T) (upd : T -> S -> S) (m : M T A) : M S A :=
  fun s => let '(r, t) := m (proj s) in (r, upd t s).

Declare Scope monad_scope.
Delimit Scope monad_scope with monad.
Notation "x <- m ;; k" := (bind m (fun x => k))
  (at level 100, m at next level, right associativity) : monad_scope.
Notation "m ;; k" := (bind m (fun _ => k))
  (at level 100, right associativity) : monad_scope.

(** ** Util/Event.cpp: manual-reset events *)

Module Event.

(** An [Event*]: null, or the index of the event object. *)
Abbreviation handle := nat.

(** The kernel's event objects.  [CreateEvent] succeeds while [quota] lasts;
    a new event is manual-reset and starts not signaled. *)
Record Pool := mkPool {
  signaled : list bool;
  quota : nat
}.

Inductive WaitResult := WAIT_SIGNALED | WAIT_TIMEDOUT | WAIT_OTHER.

(** [EventImpl::Init]: [CreateEvent(0, true, false, 0)], [assert(m_Event)],
    [return 0 != m_Event]. *)
Definition Init (b : Build) : M Pool (option handle) :=
  (p <- get ;;
   match quota p with
   | O => assert_ b false ;; ret None
   | Datatypes.S q =>
       modify (fun p => mkPool (signaled p ++ [false]) q) ;;
       ret (Some (length (signaled p)))
   end)%monad.

(** [Event::Event]: throws when [Init] fails. *)
Definition ctor (b : Build) : M Pool handle :=
  (r <- Init b ;;
   match r with
   | None => throw "nik::Event initialization failed"
   | Some h => ret h
   end)%monad.

(** [Event::Create]: [try { return new Event; } catch(nik::Error&)
    { return 0; }] *)
Definition Create (b : Build) : M Pool (option handle) :=
  try_catch (h <- ctor b ;; ret (Some h))%monad (fun _ => ret None).

(** [::SetEvent(m_Event) != 0] *)
Definition SetEvent (h : handle) : M Pool bool :=
  (p <- get ;;
   if decide (h < length (signaled p)) then
     modify (fun p => mkPool (<[h := true]> (signaled p)) (quota p)) ;; ret true
   else ret false)%monad.

(** [::ResetEvent(m_Event) != 0] *)
Definition ClearEvent (h : handle) : M Pool bool :=
  (p <- get ;;
   if decide (h < length (signaled p)) then
     modify (fun p => mkPool (<[h := false]> (signaled p)) (quota p)) ;; ret true
   else ret false)%monad.

Definition is_signaled (p : Pool) (h : handle) : bool :=
  default false (signaled p !! h).

(** [WaitForEvent(0)]: a poll. *)
Definition Poll (h : handle) : M Pool WaitResult :=
  (p <- get ;;
   match signaled p !! h with
   | Some true => ret WAIT_SIGNALED
   | Some false => ret WAIT_TIMEDOUT
   | None => ret WAIT_OTHER
   end)%monad.

End Event.

(** A member call through a pointer that may be null. *)
Definition deref {S A} (p : option A) : M S A :=
  match p with
  | Some a => ret a
  | None => crash NullPointer
  end.

(** ** Util/ThreadObj.h: [ThreadCoord<CLIENT_FUNC>] *)

Module Coord.

(** [CLIENT_FUNC]: an object with [bool Run(bool&)].  The client is impure,
    so its answer may depend on how often it has been invoked; it returns
    its result and the value it leaves in the flag (a client that takes the
    flag by value leaves it unchanged). *)
Definition ClientFunc := nat -> bool -> bool * bool.

Record ThreadCoord := mkThreadCoord {
  m_StopEvent : option Event.handle;
  m_ThreadStoppedEvent : option Event.handle;
  m_UserFunc : ClientFunc;
  m_IsRunning : bool
}.

(** [ThreadCoord(CLIENT_FUNC userFunc)] *)
Definition ctor (userFunc : ClientFunc) : ThreadCoord :=
  mkThreadCoord None None userFunc false.

(** [ThreadCoord()]: [m_UserFunc] is default-constructed. *)
Definition ctor_default (default_func : ClientFunc) : ThreadCoord :=
  mkThreadCoord None None default_func false.

(** [ThreadCoord(const ThreadCoord& orig)] *)
Definition ctor_copy (orig : ThreadCoord) : ThreadCoord :=
  mkThreadCoord None None (m_UserFunc orig) false.

(** [operator=]: [m_UserFunc = rhs.m_UserFunc; return *this;] *)
Definition assign (this rhs : ThreadCoord) : ThreadCoord :=
  mkThreadCoord (m_StopEvent this) (m_ThreadStoppedEvent this)
                (m_UserFunc rhs) (m_IsRunning this).

(** Where the thread executing [Run] stands; one point per access to
    memory that other threads read or write. *)
Inductive RunPc :=
| R_idle              (* no thread is inside Run *)
| R_entry             (* if (m_IsRunning) ... *)
| R_set_running       (* m_IsRunning = true; *)
| R_check_events      (* if (!m_StopEvent) *)
| R_create_stop       (* m_StopEvent = Event::Create(); assert *)
| R_create_stopped    (* m_ThreadStoppedEvent = Event::Create(); assert *)
| R_reset_stop        (* Reset: m_StopEvent->ClearEvent(); *)
| R_reset_stopped     (* Reset: m_ThreadStoppedEvent->ClearEvent(); *)
| R_loop_start        (* log; bool continueThread = true; *)
| R_call_user         (* while (m_UserFunc.Run(continueThread) && continueThread) *)
| R_poll_stop         (* m_StopEvent->WaitForEvent(0); if signaled ... *)
| R_clear_running     (* m_IsRunning = false; *)
| R_set_stopped       (* m_ThreadStoppedEvent->SetEvent(); *)
| R_returned          (* Run has returned *)
| R_threw (e : Error).

(** Where a thread that called [WaitForStop] stands. *)
Inductive WaitPc :=
| W_idle              (* no thread is inside WaitForStop *)
| W_waiting           (* in m_ThreadStoppedEvent->WaitForEvent(FOREVER) *)
| W_returned.         (* WaitForStop has returned *)

Record Sys := mkSys {
  self : ThreadCoord;        (* the coordinator object *)
  pool : Event.Pool;         (* the kernel's events *)
  log : list string;         (* text streamed into nik::log, oldest first *)
  pc : RunPc;                (* the thread inside Run *)
  continueThread : bool;     (* its local flag *)
  waiter : WaitPc;           (* the thread inside WaitForStop *)
  calls : nat;               (* history: invocations of the client so far *)
  exits : nat;               (* history: exits of the work loop so far *)
  fault : option Fault       (* the process has died *)
}.

Definition set_self (f : ThreadCoord -> ThreadCoord) (s : Sys) : Sys :=
  mkSys (f (self s)) (pool s) (log s) (pc s) (continueThread s) (waiter s)
        (calls s) (exits s) (fault s).
Definition set_pool (p : Event.Pool) (s : Sys) : Sys :=
  mkSys (self s) p (log s) (pc s) (continueThread s) (waiter s)
        (calls s) (exits s) (fault s).
Definition set_pc (c : RunPc) (s : Sys) : Sys :=
  mkSys (self s) (pool s) (log s) c (continueThread s) (waiter s)
        (calls s) (exits s) (fault s).
Definition set_continueThread (c : bool) (s : Sys) : Sys :=
  mkSys (self s) (pool s) (log s) (pc s) c (waiter s)
        (calls s) (exits s) (fault s).
Definition set_waiter (w : WaitPc) (s : Sys) : Sys :=
  mkSys (self s) (pool s) (log s) (pc s) (continueThread s) w
        (calls s) (exits s) (fault s).
Definition set_fault (f : Fault) (s : Sys) : Sys :=
  mkSys (self s) (pool s) (log s) (pc s) (continueThread s) (waiter s)
        (calls s) (exits s) (Some f).
Definition count_call (s : Sys) : Sys :=
  mkSys (self s) (pool s) (log s) (pc s) (continueThread s) (waiter s)
        (Datatypes.S (calls s)) (exits s) (fault s).
Definition count_exit (s : Sys) : Sys :=
  mkSys (self s) (pool s) (log s) (pc s) (continueThread s) (waiter s)
        (calls s) (Datatypes.S (exits s)) (fault s).

(** [nik::log << msg] *)
Definition add_log (msg : string) (s : Sys) : Sys :=
  mkSys (self s) (pool s) (log s ++ [msg]) (pc s) (continueThread s)
        (waiter s) (calls s) (exits s) (fault s).
Definition log_ (msg : string) : M Sys unit := modify (add_log msg).

Definition warn_already_running : string :=
  "Warning: Thread already running, attempted to call ThreadCoord::Run()
".
Definition warn_SignalStop_not_running : string :=
  "[ThreadCoord::SignalStop] Thread is not running, cannot signal stop
".
Definition warn_WaitForStop_not_running : string :=
  "[ThreadCoord::WaitForStop] Thread is not running, skipping wait.
".

Definition set_m_StopEvent (h : option Event.handle) : M Sys unit :=
  modify (set_self (fun c => mkThreadCoord h (m_ThreadStoppedEvent c)
                                           (m_UserFunc c) (m_IsRunning c))).
Definition set_m_ThreadStoppedEvent (h : option Event.handle) : M Sys unit :=
  modify (set_self (fun c => mkThreadCoord (m_StopEvent c) h
                                           (m_UserFunc c) (m_IsRunning c))).
Definition set_m_IsRunning (r : bool) : M Sys unit :=
  modify (set_self (fun c => mkThreadCoord (m_StopEvent c)
                                           (m_ThreadStoppedEvent c)
                                           (m_UserFunc c) r)).

(** A call on the kernel's events. *)
Definition os {A} (m : M Event.Pool A) : M Sys A := zoom pool set_pool m.

(** [IsRunning] *)
Definition IsRunning (s : Sys) : bool := m_IsRunning (self s).

(** The statement of [Run] at each point; the value is the next point. *)
Definition Run_at (b : Build) (at_ : RunPc) : M Sys RunPc :=
  (match at_ with
   | R_idle => ret R_idle
   | R_entry =>
       running <- gets IsRunning ;;
       if running then
         log_ warn_already_running ;;
         ret R_returned
       else
         assert_ b (negb running) ;;
         ret R_set_running
   | R_set_running =>
       set_m_IsRunning true ;;
       ret R_check_events
   | R_check_events =>
       stop <- gets (fun s => m_StopEvent (self s)) ;;
       match stop with
       | Some _ => ret R_reset_stop
       | None => ret R_create_stop
       end
   | R_create_stop =>
       h <- os (Event.Create b) ;;
       set_m_StopEvent h ;;
       assert_ b (bool_decide (is_Some h)) ;;
       ret R_create_stopped
   | R_create_stopped =>
       h <- os (Event.Create b) ;;
       set_m_ThreadStoppedEvent h ;;
       assert_ b (bool_decide (is_Some h)) ;;
       ret R_reset_stop
   | R_reset_stop =>
       stop <- gets (fun s => m_StopEvent (self s)) ;;
       h <- deref stop ;;
       os (Event.ClearEvent h) ;;
       ret R_reset_stopped
   | R_reset_stopped =>
       stopped <- gets (fun s => m_ThreadStoppedEvent (self s)) ;;
       h <- deref stopped ;;
       os (Event.ClearEvent h) ;;
       ret R_loop_start
   | R_loop_start =>
       log_ "Run-> Loop start...
" ;;
       modify (set_continueThread true) ;;
       ret R_call_user
   | R_call_user =>
       s <- get ;;
       let '(keep, flag) := m_UserFunc (self s) (calls s) (continueThread s) in
       modify count_call ;;
       modify (set_continueThread flag) ;;
       if keep && flag then ret R_poll_stop else ret R_clear_running
   | R_poll_stop =>
       stop <- gets (fun s => m_StopEvent (self s)) ;;
       h <- deref stop ;;
       waitResult <- os (Event.Poll h) ;;
       match waitResult with
       | Event.WAIT_SIGNALED =>
           log_ "Received stop event
" ;;
           modify (set_continueThread false) ;;
           ret R_call_user
       | _ => ret R_call_user
       end
   | R_clear_running =>
       set_m_IsRunning false ;;
       modify count_exit ;;
       ret R_set_stopped
   | R_set_stopped =>
       stopped <- gets (fun s => m_ThreadStoppedEvent (self s)) ;;
       h <- deref stopped ;;
       os (Event.SetEvent h) ;;
       ret R_returned
   | R_returned => ret R_returned
   | R_threw e => ret (R_threw e)
   end)%monad.

(** One statement of the thread inside [Run]. *)
Definition run_step (b : Build) (s : Sys) : Sys :=
  match fault s with
  | Some _ => s
  | None =>
      match Run_at b (pc s) s with
      | (Val next, s') => set_pc next s'
      | (Raised e, s') => set_pc (R_threw e) s'
      | (Crashed f, s') => set_fault f s'
      | (Blocked, _) => s
      end
  end.

Fixpoint run_steps (b : Build) (n : nat) (s : Sys) : Sys :=
  match n with
  | O => s
  | Datatypes.S n' => run_steps b n' (run_step b s)
  end.

(** No thread is inside [Run]. *)
Definition idle (c : RunPc) : bool :=
  match c with
  | R_idle | R_returned | R_threw _ => true
  | _ => false
  end.

(** A thread enters [Run].  A thread that enters while another is still
    inside is not followed: the state keeps the one thread. *)
Definition enter_Run (s : Sys) : Sys :=
  if idle (pc s) then set_pc R_entry s else s.

(** [SignalStop] *)
Definition SignalStop (b : Build) : M Sys unit :=
  (running <- gets IsRunning ;;
   if negb running then
     log_ warn_SignalStop_not_running
   else
     stop <- gets (fun s => m_StopEvent (self s)) ;;
     assert_ b (bool_decide (is_Some stop)) ;;
     h <- deref stop ;;
     os (Event.SetEvent h) ;;
     ret tt)%monad.

(** [WaitForStop] up to its wait; the value tells whether the caller now
    waits on the stopped event. *)
Definition WaitForStop_enter (b : Build) : M Sys bool :=
  (running <- gets IsRunning ;;
   if negb running then
     log_ warn_WaitForStop_not_running ;;
     ret false
   else
     stop <- gets (fun s => m_StopEvent (self s)) ;;
     assert_ b (bool_decide (is_Some stop)) ;;
     h <- deref stop ;;
     result <- os (Event.SetEvent h) ;;
     assert_ b result ;;
     stopped <- gets (fun s => m_ThreadStoppedEvent (self s)) ;;
     assert_ b (bool_decide (is_Some stopped)) ;;
     deref stopped ;;
     ret true)%monad.

(** Whether the stopped event is signaled. *)
Definition stopped_signaled (s : Sys) : bool :=
  match m_ThreadStoppedEvent (self s) with
  | Some h => Event.is_signaled (pool s) h
  | None => false
  end.


(** [m_ThreadStoppedEvent->WaitForEvent(Event::FOREVER)]: returns once the
    event is signaled. *)
Definition WaitForStop_wait : M Sys unit :=
  (signaled <- gets stopped_signaled ;;
   if signaled then ret tt else block)%monad.

(** [WaitForStop] called where no other thread moves. *)
Definition WaitForStop (b : Build) : M Sys unit :=
  (wait <- WaitForStop_enter b ;;
   if wait then WaitForStop_wait else ret tt)%monad.

End Coord.

(** ** Threads around one coordinator

    What the threads of a process do to one [ThreadCoord], one action at a
    time.  An action that is not enabled leaves the state as it is.
    [SignalStop], and [WaitForStop] up to its wait, are taken whole: after
    their guard they touch nothing but the stop signal. *)

Module Sched.
Import Coord.

Inductive Action :=
| Call_Run            (* a thread enters Run while no other is inside it *)
| Step_Run            (* the thread inside Run executes its next statement *)
| Call_SignalStop     (* a thread calls SignalStop *)
| Call_WaitForStop    (* a thread enters WaitForStop and runs up to its wait *)
| Wake_WaitForStop.   (* that thread finds the stopped event signaled *)

(** The outcome of a call made by a thread other than the one in [Run]. *)
Definition settle {A} (r : Result A * Sys) : Sys :=
  match r with
  | (Crashed f, s') => set_fault f s'
  | (_, s') => s'
  end.

Definition act (b : Build) (a : Action) (s : Sys) : Sys :=
  match fault s with
  | Some _ => s
  | None =>
      match a with
      | Call_Run => enter_Run s
      | Step_Run => run_step b s
      | Call_SignalStop => settle (SignalStop b s)
      | Call_WaitForStop =>
          match waiter s with
          | W_waiting => s
          | _ =>
              match WaitForStop_enter b s with
              | (Val true, s') => set_waiter W_waiting s'
              | (Val false, s') => set_waiter W_returned s'
              | r => settle r
              end
          end
      | Wake_WaitForStop =>
          match waiter s with
          | W_waiting =>
              match WaitForStop_wait s with
              | (Val _, s') => set_waiter W_returned s'
              | (_, s') => s'
              end
          | _ => s
          end
      end
  end.

Definition exec (b : Build) (sch : list Action) (s : Sys) : Sys :=
  fold_left (fun s a => act b a s) sch s.

(** A process that has constructed a coordinator for [userFunc] and done
    nothing else; the kernel can still create [quota] events. *)
Definition init (userFunc : ClientFunc) (quota : nat) : Sys :=
  mkSys (ctor userFunc) (Event.mkPool [] quota) [] R_idle true W_idle 0 0 None.

End Sched.

(** ** Util/ThreadObj.cpp: [SimpleThreadCoord], the one-shot coordinator *)

Module Simple.

(** [UserFunc_t]: a pointer to a function from [bool] to [bool]; the flag
    is passed by value. *)
Definition UserFunc_t := nat -> bool -> bool.

Record SimpleThreadCoord := mkSimpleThreadCoord {
  m_StopEvent : option Event.handle;
  m_ThreadStoppedEvent : option Event.handle;
  m_UserFunc : option UserFunc_t       (* a function pointer, 0 by default *)
}.

(** [SimpleThreadCoord(UserFunc_t userFunc)] *)
Definition ctor (userFunc : option UserFunc_t) : SimpleThreadCoord :=
  mkSimpleThreadCoord None None userFunc.

(** [SimpleThreadCoord()] *)
Definition ctor_default : SimpleThreadCoord :=
  mkSimpleThreadCoord None None None.

(** The copy constructor is the compiler's ("Use default copy
    construction"): every member is copied. *)
Definition ctor_copy (orig : SimpleThreadCoord) : SimpleThreadCoord :=
  mkSimpleThreadCoord (m_StopEvent orig) (m_ThreadStoppedEvent orig)
                      (m_UserFunc orig).

(** [operator=]: [m_UserFunc = rhs.m_UserFunc; return *this;] *)
Definition assign (this rhs : SimpleThreadCoord) : SimpleThreadCoord :=
  mkSimpleThreadCoord (m_StopEvent this) (m_ThreadStoppedEvent this)
                      (m_UserFunc rhs).

Record State := mkState {
  self : SimpleThreadCoord;
  pool : Event.Pool;
  log : list string;
  calls : nat
}.

Definition set_pool (p : Event.Pool) (s : State) : State :=
  mkState (self s) p (log s) (calls s).
Definition os {A} (m : M Event.Pool A) : M State A := zoom pool set_pool m.
Definition log_ (msg : string) : M State unit :=
  modify (fun s => mkState (self s) (pool s) (log s ++ [msg]) (calls s)).
Definition count_call : M State unit :=
  modify (fun s => mkState (self s) (pool s) (log s) (Datatypes.S (calls s))).
Definition set_m_StopEvent (h : option Event.handle) : M State unit :=
  modify (fun s => mkState
    (mkSimpleThreadCoord h (m_ThreadStoppedEvent (self s)) (m_UserFunc (self s)))
    (pool s) (log s) (calls s)).
Definition set_m_ThreadStoppedEvent (h : option Event.handle) : M State unit :=
  modify (fun s => mkState
    (mkSimpleThreadCoord (m_StopEvent (self s)) h (m_UserFunc (self s)))
    (pool s) (log s) (calls s)).

(** The [while] loop of [Run], where no other thread moves; [fuel] bounds
    the iterations, and a loop that outlives it has not returned.  The line
    "Received stop event" ends in [nik::endl], whose flush of the logger is
    not followed here. *)
Fixpoint loop (fuel : nat) (continueThread : bool) : M State unit :=
  match fuel with
  | O => block
  | Datatypes.S fuel' =>
      (s <- get ;;
       userFunc <- deref (m_UserFunc (self s)) ;;
       count_call ;;
       if userFunc (calls s) continueThread && continueThread then
         h <- deref (m_StopEvent (self s)) ;;
         waitResult <- os (Event.Poll h) ;;
         match waitResult with
         | Event.WAIT_SIGNALED =>
             log_ "Received stop event" ;;
             log_ "
" ;;
             loop fuel' false
         | _ => loop fuel' continueThread
         end
       else ret tt)%monad
  end.

(** [SimpleThreadCoord::Run] *)
Definition Run (b : Build) (fuel : nat) : M State unit :=
  (s <- get ;;
   assert_ b (bool_decide (m_StopEvent (self s) = None)) ;;
   assert_ b (bool_decide (m_ThreadStoppedEvent (self s) = None)) ;;
   if bool_decide (is_Some (m_StopEvent (self s)))
      || bool_decide (is_Some (m_ThreadStoppedEvent (self s)))
   then throw "SimpleThreadCoord::Run->Events have already been created"
   else
     h <- os (Event.Create b) ;;
     set_m_StopEvent h ;;
     assert_ b (bool_decide (is_Some h)) ;;
     h' <- os (Event.Create b) ;;
     set_m_ThreadStoppedEvent h' ;;
     assert_ b (bool_decide (is_Some h')) ;;
     log_ "Run-> Loop start...
" ;;
     loop fuel true ;;
     stopped <- deref h' ;;
     os (Event.SetEvent stopped) ;;
     ret tt)%monad.

(** [SimpleThreadCoord::SignalStop] *)
Definition SignalStop (b : Build) : M State unit :=
  (stop <- gets (fun s => m_StopEvent (self s)) ;;
   assert_ b (bool_decide (is_Some stop)) ;;
   h <- deref stop ;;
   os (Event.SetEvent h) ;;
   ret tt)%monad.

(** [SimpleThreadCoord::WaitForStop], where no other thread moves. *)
Definition WaitForStop (b : Build) : M State unit :=
  (stop <- gets (fun s => m_StopEvent (self s)) ;;
   assert_ b (bool_decide (is_Some stop)) ;;
   h <- deref stop ;;
   os (Event.SetEvent h) ;;
   stopped <- gets (fun s => m_ThreadStoppedEvent (self s)) ;;
   assert_ b (bool_decide (is_Some stopped)) ;;
   h' <- deref stopped ;;
   p <- gets pool ;;
   if Event.is_signaled p h' then ret tt else block)%monad.

End Simple.

(** ** Util/ThreadObj.h: [ThreadObj<ThreadCoord<CLIENT_FUNC>>] *)

Module ThreadObj.

Record ThreadObj := mkThreadObj {
  m_ThreadCoord : Coord.Sys;   (* the coordinator, with the thread inside its Run *)
  m_Thread : option bool;      (* Thread*: null, or a Thread that has (not) started *)
  thread_quota : nat           (* the kernel: how many CreateThread calls still succeed *)
}.

(** [ThreadObj()]: [m_Thread(0)], [m_ThreadCoord] default-constructed. *)
Definition ctor (default_func : Coord.ClientFunc) (event_quota thread_quota : nat)
  : ThreadObj :=
  mkThreadObj (Sched.init default_func event_quota) None thread_quota.

Definition coord_ {A} (m : M Coord.Sys A) : M ThreadObj A :=
  zoom m_ThreadCoord
       (fun c t => mkThreadObj c (m_Thread t) (thread_quota t)) m.

Definition set_m_Thread (t : option bool) : M ThreadObj unit :=
  modify (fun o => mkThreadObj (m_ThreadCoord o) t (thread_quota o)).

(** [Thread::StartThread(MyThreadFunction, this)]: a thread that exists is
    left alone; else [CreateThread], [assert(m_Thread)], [return m_Thread !=
    0].  The new thread begins [MyThreadFunction], whose first statement is
    [m_ThreadCoord.Run()]. *)
Definition StartThread (b : Build) : M ThreadObj bool :=
  (o <- get ;;
   match m_Thread o with
   | None => crash NullPointer
   | Some true => ret true
   | Some false =>
       match thread_quota o with
       | O => assert_ b false ;; ret false
       | Datatypes.S q =>
           modify (fun o => mkThreadObj (Coord.enter_Run (m_ThreadCoord o))
                                        (Some true) q) ;;
           ret true
       end
   end)%monad.

(** [bool Run(THREAD_COORD userObj)]; the argument is passed by value. *)
Definition Run (b : Build) (arg : Coord.ThreadCoord) : M ThreadObj bool :=
  (let userObj := Coord.ctor_copy arg in
   t <- gets m_Thread ;;
   assert_ b (negb (bool_decide (is_Some t))) ;;
   coord_ (modify (Coord.set_self (fun this => Coord.assign this userObj))) ;;
   set_m_Thread (Some false) ;;
   t <- gets m_Thread ;;
   assert_ b (bool_decide (is_Some t)) ;;
   if negb (bool_decide (is_Some t)) then ret false
   else
     success <- StartThread b ;;
     assert_ b success ;;
     ret success)%monad.

(** The thread inside [Run] runs alone until [Run] returns. *)
Fixpoint run_to_return (b : Build) (fuel : nat) : M Coord.Sys unit :=
  match fuel with
  | O => block
  | Datatypes.S fuel' =>
      (s <- get ;;
       match Coord.fault s, Coord.pc s with
       | Some f, _ => crash f
       | None, Coord.R_returned => ret tt
       | None, Coord.R_threw e => throw e
       | None, _ => modify (Coord.run_step b) ;; run_to_return b fuel'
       end)%monad
  end.

(** [MyThreadFunction]: [threadObj->m_ThreadCoord.Run(); delete
    threadObj->m_Thread; threadObj->m_Thread = 0; return 0;] *)
Definition MyThreadFunction (b : Build) (fuel : nat) : M ThreadObj unit :=
  (coord_ (run_to_return b fuel) ;;
   set_m_Thread None)%monad.

(** [Stop], [WaitForStop], [IsRunning] *)
Definition Stop (b : Build) : M ThreadObj unit := coord_ (Coord.SignalStop b).
Definition WaitForStop (b : Build) : M ThreadObj unit := coord_ (Coord.WaitForStop b).
Definition IsRunning (o : ThreadObj) : bool := Coord.IsRunning (m_ThreadCoord o).

End ThreadObj.

(** ** Util/Mutex.cpp: mutexes *)

Module Mutex.

Abbreviation handle := nat.
Abbreviation tid := nat.

(** A kernel mutex. *)
Inductive Obj :=
| Free
| Held (owner : tid)
| Abandoned          (* its owner ended without releasing it *)
| Closed.            (* CloseHandle has been called *)

Record Pool := mkPool {
  objs : list Obj;
  quota : nat        (* how many further CreateMutex calls succeed *)
}.

(** [size_t Mutex::FOREVER = INFINITE;] *)
Definition FOREVER : Z := 4294967295.

Inductive Wait := WAIT_OBJECT_0 | WAIT_TIMEOUT | WAIT_ABANDONED | WAIT_FAILED.

Definition put (h : handle) (o : Obj) : M Pool unit :=
  modify (fun p => mkPool (<[h := o]> (objs p)) (quota p)).

(** [WaitForSingleObject(m_Mutex, timeOut)] called at a moment where the
    mutex stays as it is for the length of the wait: a mutex held by another
    thread times the caller out, or, without timeout, keeps it waiting. *)
Definition WaitForSingleObject (me : tid) (h : handle) (timeOut : Z)
  : M Pool Wait :=
  (p <- get ;;
   match objs p !! h with
   | None | Some Closed => ret WAIT_FAILED
   | Some Free => put h (Held me) ;; ret WAIT_OBJECT_0
   | Some Abandoned => put h (Held me) ;; ret WAIT_ABANDONED
   | Some (Held t) =>
       if decide (t = me) then ret WAIT_OBJECT_0
       else if decide (timeOut = FOREVER) then block
       else ret WAIT_TIMEOUT
   end)%monad.

(** [MutexImpl::MutexImpl]: [CreateMutex(NULL, FALSE, NULL)]; on failure
    [assert(0)] and [throw Error(msg)], the message ending in the code of
    [GetLastError]. *)
Definition ctor (b : Build) : M Pool handle :=
  (p <- get ;;
   match quota p with
   | O =>
       assert_ b false ;;
       throw "Mutex::Mutex - Create mutex failed with code: "
   | Datatypes.S q =>
       modify (fun p => mkPool (objs p ++ [Free]) q) ;;
       ret (length (objs p))
   end)%monad.

(** [Mutex::Create]: [return new Mutex();] *)
Definition Create (b : Build) : M Pool (option handle) :=
  (h <- ctor b ;; ret (Some h))%monad.

(** [MutexImpl::Lock] *)
Definition Lock (b : Build) (me : tid) (h : handle) (timeOut : Z)
  : M Pool bool :=
  (result <- WaitForSingleObject me h timeOut ;;
   match result with
   | WAIT_TIMEOUT => ret false
   | WAIT_OBJECT_0 => ret true
   | _ =>
       assert_ b false ;;
       throw "Mutex::Lock - Wait failed with code: "
   end)%monad.

(** [MutexImpl::Unlock]: [ReleaseMutex(m_Mutex) != 0] *)
Definition Unlock (me : tid) (h : handle) : M Pool bool :=
  (p <- get ;;
   match objs p !! h with
   | Some (Held t) =>
       if decide (t = me) then put h Free ;; ret true else ret false
   | _ => ret false
   end)%monad.

(** [MutexImpl::~MutexImpl]: [CloseHandle(m_Mutex)] *)
Definition dtor (h : handle) : M Pool unit :=
  (p <- get ;;
   if decide (h < length (objs p)) then put h Closed else ret tt)%monad.

Definition owner (p : Pool) (h : handle) : option tid :=
  match objs p !! h with
  | Some (Held t) => Some t
  | _ => None
  end.

End Mutex.

(** ** Util/ScopeLock.h *)

Module ScopeLock.

(** [ScopeLock(Mutex* mutex)] *)
Definition ctor (b : Build) (me : Mutex.tid) (mutex : option Mutex.handle)
  : M Mutex.Pool unit :=
  (m_Mutex <- deref mutex ;;
   if nik_debug b then
     result <- Mutex.Lock b me m_Mutex 500 ;;
     if negb result then assert_ b result else ret tt
   else
     Mutex.Lock b me m_Mutex Mutex.FOREVER ;;
     ret tt)%monad.

(** [~ScopeLock]: [m_Mutex->Unlock();] *)
Definition dtor (me : Mutex.tid) (mutex : option Mutex.handle)
  : M Mutex.Pool unit :=
  (m_Mutex <- deref mutex ;;
   Mutex.Unlock me m_Mutex ;;
   ret tt)%monad.

End ScopeLock.

(** ** [std::ofstream] over a file system *)

Module OFStream.

(** Files by name, and the names that cannot be opened for writing. *)
Record FS := mkFS {
  files : gmap string string;
  denied : gset string
}.

Record ofstream := mkOfstream {
  file : option string;    (* the name of the file the stream is open on *)
  failed : bool            (* failbit or badbit *)
}.

Definition closed : ofstream := mkOfstream None false.

Definition St : Type := ofstream * FS.

Definition is_open (o : ofstream) : bool := bool_decide (is_Some (file o)).

(** [open(fileName)]: the mode is the default [ios_base::out], which creates
    the file or cuts it to length zero.  Failure sets failbit, success
    clears the state. *)
Definition open (fileName : string) : M St unit :=
  modify (fun '(o, fs) =>
    if is_open o then (mkOfstream (file o) true, fs)
    else if bool_decide (fileName ∈ denied fs) then (mkOfstream None true, fs)
    else (mkOfstream (Some fileName) false,
          mkFS (<[fileName := EmptyString]> (files fs)) (denied fs))).

(** [close()]: failbit when no file is open. *)
Definition close : M St unit :=
  modify (fun '(o, fs) =>
    match file o with
    | Some _ => (mkOfstream None (failed o), fs)
    | None => (mkOfstream None true, fs)
    end).

(** [stream << text]: nothing is written through a failed stream; a write
    with no file open fails.  The text is counted as in the file at once
    (the stream's own buffer, emptied by [flush] and [close], is not kept
    apart). *)
Definition write (text : string) : M St unit :=
  modify (fun '(o, fs) =>
    if failed o then (o, fs)
    else
      match file o with
      | Some name =>
          (o, mkFS (<[name := default EmptyString (files fs !! name) +:+ text]>
                      (files fs)) (denied fs))
      | None =>
          match text with
          | EmptyString => (o, fs)
          | _ => (mkOfstream None true, fs)
          end
      end).

(** [flush()] *)
Definition flush : M St unit := ret tt.

Definition content (fs : FS) (name : string) : string :=
  default EmptyString (files fs !! name).

End OFStream.

(** ** Util/Logger.h, Util/Logger.cpp: [Logger] and [Logger::LogImpl] *)

Module Logger.

(** [const size_t Wait_Time_glob = 10; // ms] *)
Definition Wait_Time_glob : Z := 10.

Record LogImpl := mkLogImpl {
  m_Of : OFStream.ofstream;
  m_Buffer : string;
  m_ThreadHandle : option bool;       (* Thread*: null, or a Thread and whether it started *)
  m_BuffMutex : option Mutex.handle;
  m_Continue : bool;
  m_ThreadStarted : bool
}.

Record Logger := mkLogger {
  m_Os : string;
  m_LogImpl : LogImpl;                (* the object m_LogImpl points to; its m_Log is this Logger *)
  m_Lock : option Mutex.handle
}.

(** Where the thread executing [LogThreadFunc] stands. *)
Inductive LogPc :=
| L_none              (* the thread has not been created *)
| L_test              (* while (log->m_Continue) *)
| L_lock              (* ScopeLock al(log->m_BuffMutex); *)
| L_copy              (* outBuffer << log->m_Buffer.str(); *)
| L_clear             (* log->m_Buffer.str(empty); *)
| L_unlock            (* } *)
| L_write             (* log->m_Of << outBuffer.str(); *)
| L_reset             (* outBuffer.str(empty); *)
| L_flush             (* log->m_Of.flush(); *)
| L_sleep             (* Sleep(25); *)
| L_returned          (* return 0; *)
| L_threw (e : Error).

(** Where the thread executing [~LogImpl] stands. *)
Inductive DtorPc :=
| D_none              (* no thread has entered the destructor *)
| D_entry             (* if (!m_ThreadStarted) return; *)
| D_stop              (* m_Continue = false; *)
| D_sleep             (* Sleep(50); *)
| D_lock              (* ScopeLock al(m_BuffMutex); *)
| D_gather            (* ForceWrite: m_Buffer << m_Log->m_Os.str(); *)
| D_clear_os          (* ForceWrite: m_Log->m_Os.str(empty); *)
| D_write             (* ForceWrite: m_Of << m_Buffer.str(); *)
| D_clear_buffer      (* ForceWrite: m_Buffer.str(empty); *)
| D_unlock            (* } *)
| D_delete_thread     (* delete m_ThreadHandle; *)
| D_delete_mutex      (* delete m_BuffMutex; *)
| D_close             (* CloseFile(); *)
| D_returned
| D_threw (e : Error).

(** What the threads did to the sink, the buffer's mutex and the clock, in
    the order they did it. *)
Inductive Ev :=
| E_open (fileName : string)
| E_close
| E_write (text : string)
| E_flush
| E_lock (t : Mutex.tid)
| E_unlock (t : Mutex.tid)
| E_continue (v : bool)
| E_sleep (t : Mutex.tid) (ms : nat)
| E_mutex
| E_thread.

Record Proc := mkProc {
  this : Logger;
  mutexes : Mutex.Pool;               (* the kernel's mutexes *)
  fs : OFStream.FS;                   (* the file system *)
  thread_quota : nat;                 (* how many CreateThread calls still succeed *)
  bg : LogPc;                         (* the thread in LogThreadFunc *)
  outBuffer : string;                 (* its local stream *)
  td : DtorPc;                        (* the thread in ~LogImpl *)
  history : list Ev;
  fault : option Fault                (* the process has died *)
}.

(** The background thread's id; every other thread has another. *)
Definition bg_tid : Mutex.tid := 0.

Definition set_this (f : Logger -> Logger) (s : Proc) : Proc :=
  mkProc (f (this s)) (mutexes s) (fs s) (thread_quota s) (bg s) (outBuffer s)
         (td s) (history s) (fault s).
Definition set_impl (f : LogImpl -> LogImpl) : Proc -> Proc :=
  set_this (fun l => mkLogger (m_Os l) (f (m_LogImpl l)) (m_Lock l)).
Definition set_mutexes (p : Mutex.Pool) (s : Proc) : Proc :=
  mkProc (this s) p (fs s) (thread_quota s) (bg s) (outBuffer s)
         (td s) (history s) (fault s).
Definition set_bg (c : LogPc) (s : Proc) : Proc :=
  mkProc (this s) (mutexes s) (fs s) (thread_quota s) c (outBuffer s)
         (td s) (history s) (fault s).
Definition set_outBuffer (o : string) (s : Proc) : Proc :=
  mkProc (this s) (mutexes s) (fs s) (thread_quota s) (bg s) o
         (td s) (history s) (fault s).
Definition set_td (c : DtorPc) (s : Proc) : Proc :=
  mkProc (this s) (mutexes s) (fs s) (thread_quota s) (bg s) (outBuffer s)
         c (history s) (fault s).
Definition set_fault (f : Fault) (s : Proc) : Proc :=
  mkProc (this s) (mutexes s) (fs s) (thread_quota s) (bg s) (outBuffer s)
         (td s) (history s) (Some f).
Definition set_thread_quota (q : nat) (s : Proc) : Proc :=
  mkProc (this s) (mutexes s) (fs s) q (bg s) (outBuffer s)
         (td s) (history s) (fault s).

Definition impl (s : Proc) : LogImpl := m_LogImpl (this s).

Definition record (e : Ev) : M Proc unit :=
  modify (fun s => mkProc (this s) (mutexes s) (fs s) (thread_quota s) (bg s)
                          (outBuffer s) (td s) (history s ++ [e]) (fault s)).

Definition set_m_Os (t : string) : M Proc unit :=
  modify (set_this (fun l => mkLogger t (m_LogImpl l) (m_Lock l))).
Definition set_m_Lock (h : option Mutex.handle) : M Proc unit :=
  modify (set_this (fun l => mkLogger (m_Os l) (m_LogImpl l) h)).
Definition set_m_Buffer (t : string) : M Proc unit :=
  modify (set_impl (fun i => mkLogImpl (m_Of i) t (m_ThreadHandle i)
                                       (m_BuffMutex i) (m_Continue i)
                                       (m_ThreadStarted i))).
Definition set_m_ThreadHandle (t : option bool) : M Proc unit :=
  modify (set_impl (fun i => mkLogImpl (m_Of i) (m_Buffer i) t
                                       (m_BuffMutex i) (m_Continue i)
                                       (m_ThreadStarted i))).
Definition set_m_BuffMutex (h : option Mutex.handle) : M Proc unit :=
  modify (set_impl (fun i => mkLogImpl (m_Of i) (m_Buffer i) (m_ThreadHandle i)
                                       h (m_Continue i) (m_ThreadStarted i))).
Definition set_m_Continue (v : bool) : M Proc unit :=
  (modify (set_impl (fun i => mkLogImpl (m_Of i) (m_Buffer i) (m_ThreadHandle i)
                                        (m_BuffMutex i) v (m_ThreadStarted i))) ;;
   record (E_continue v))%monad.
Definition set_m_ThreadStarted (v : bool) : M Proc unit :=
  modify (set_impl (fun i => mkLogImpl (m_Of i) (m_Buffer i) (m_ThreadHandle i)
                                       (m_BuffMutex i) (m_Continue i) v)).

(** A call on [m_Of]. *)
Definition of_ {A} (m : M OFStream.St A) : M Proc A :=
  zoom (fun s => (m_Of (impl s), fs s))
       (fun '(o, f) s =>
          mkProc (mkLogger (m_Os (this s))
                           (mkLogImpl o (m_Buffer (impl s)) (m_ThreadHandle (impl s))
                                      (m_BuffMutex (impl s)) (m_Continue (impl s))
                                      (m_ThreadStarted (impl s)))
                           (m_Lock (this s)))
                 (mutexes s) f (thread_quota s) (bg s) (outBuffer s) (td s)
                 (history s) (fault s))
       m.

(** A call on the kernel's mutexes. *)
Definition mx {A} (m : M Mutex.Pool A) : M Proc A := zoom mutexes set_mutexes m.

(** [Sleep(ms)] *)
Definition Sleep (me : Mutex.tid) (ms : nat) : M Proc unit := record (E_sleep me ms).

(** [{ ScopeLock al(mutex); body }]: the lock is released when the block is
    left, by its end or by an exception. *)
Definition scoped {A} (b : Build) (me : Mutex.tid) (mutex : option Mutex.handle)
           (body : M Proc A) : M Proc A :=
  (mx (ScopeLock.ctor b me mutex) ;;
   fun s =>
     match body s with
     | (Val a, s') => (mx (ScopeLock.dtor me mutex) ;; ret a) s'
     | (Raised e, s') => (mx (ScopeLock.dtor me mutex) ;; throw e) s'
     | r => r
     end)%monad.

(** [LogImpl::CloseFile] *)
Definition CloseFile : M Proc bool :=
  (o <- gets (fun s => m_Of (impl s)) ;;
   if negb (OFStream.is_open o) then ret false
   else
     record E_close ;;
     of_ OFStream.close ;;
     o <- gets (fun s => m_Of (impl s)) ;;
     ret (OFStream.failed o))%monad.

(** [LogImpl::OpenFile] *)
Definition OpenFile (fileName : string) : M Proc bool :=
  (o <- gets (fun s => m_Of (impl s)) ;;
   (if OFStream.is_open o then CloseFile ;; ret tt else ret tt) ;;
   record (E_open fileName) ;;
   of_ (OFStream.open fileName) ;;
   o <- gets (fun s => m_Of (impl s)) ;;
   if OFStream.failed o then ret false else ret true)%monad.


(** [LogImpl::Write] *)
Definition Write (b : Build) (me : Mutex.tid) (os : string) : M Proc bool :=
  (mutex <- gets (fun s => m_BuffMutex (impl s)) ;;
   m_BuffMutex <- deref mutex ;;
   locked <- mx (Mutex.Lock b me m_BuffMutex Wait_Time_glob) ;;
   if negb locked then ret false
   else
     record (E_lock me) ;;
     s <- get ;;
     set_m_Buffer (m_Buffer (impl s) +:+ os) ;;
     unlocked <- mx (Mutex.Unlock me m_BuffMutex) ;;
     (if unlocked then record (E_unlock me) else ret tt) ;;
     ret true)%monad.

(** [Thread::StartThread(LogThreadFunc, this)] on [m_ThreadHandle] *)
Definition Thread_StartThread (b : Build) : M Proc bool :=
  (s <- get ;;
   match m_ThreadHandle (impl s) with
   | None => crash NullPointer
   | Some true => ret true
   | Some false =>
       match thread_quota s with
       | O => assert_ b false ;; ret false
       | Datatypes.S q =>
           modify (set_thread_quota q) ;;
           set_m_ThreadHandle (Some true) ;;
           modify (set_bg L_test) ;;
           record E_thread ;;
           ret true
       end
   end)%monad.

(** [LogImpl::StartThread] *)
Definition StartThread (b : Build) : M Proc unit :=
  (started <- gets (fun s => m_ThreadStarted (impl s)) ;;
   if started then ret tt
   else
     set_m_ThreadStarted true ;;
     mutex <- mx (Mutex.Create b) ;;
     set_m_BuffMutex mutex ;;
     match mutex with
     | None =>
         assert_ b false ;;
         throw "Error: StartThread->CreateMutex failed with code: "
     | Some _ =>
         record E_mutex ;;
         set_m_Continue true ;;
         set_m_ThreadHandle (Some false) ;;
         assert_ b true ;;
         Thread_StartThread b ;;
         ret tt
     end)%monad.

(** [Logger::SetFile] *)
Definition SetFile (b : Build) (fileName : string) : M Proc bool :=
  (opened <- OpenFile fileName ;;
   if negb opened then
     assert_ b false ;;
     ret false
   else
     StartThread b ;;
     ret true)%monad.

(** [Logger::operator<<(const T& val)] *)
Definition stream (b : Build) (me : Mutex.tid) (val : string) : M Proc unit :=
  (lock <- gets (fun s => m_Lock (this s)) ;;
   scoped b me lock
     (s <- get ;;
      set_m_Os (m_Os (this s) +:+ val)))%monad.

(** [Logger::Flush] *)
Definition Flush (b : Build) (me : Mutex.tid) : M Proc unit :=
  (lock <- gets (fun s => m_Lock (this s)) ;;
   scoped b me lock
     (s <- get ;;
      written <- Write b me (m_Os (this s)) ;;
      if written then set_m_Os EmptyString else ret tt))%monad.

(** [nik::endl]: a line feed, then [logger.Flush()] *)
Definition endl (b : Build) (me : Mutex.tid) : M Proc unit :=
  (stream b me "
" ;;
   Flush b me)%monad.

(** [Logger::Logger] and [LogImpl::LogImpl], in a process whose kernel can
    create [mutex_quota] mutexes and [thread_quota] threads. *)
Definition ctor (b : Build) (files : OFStream.FS) (mutex_quota thread_quota : nat)
  : Result unit * Proc :=
  (lock <- mx (Mutex.Create b) ;;
   set_m_Lock lock ;;
   assert_ b (bool_decide (is_Some lock)))%monad
    (mkProc (mkLogger EmptyString
                      (mkLogImpl OFStream.closed EmptyString None None false false)
                      None)
            (Mutex.mkPool [] mutex_quota) files thread_quota
            L_none EmptyString D_none [] None).

(** [ScopeLock al(m_BuffMutex);] and the end of its block. *)
Definition lock_buffer (b : Build) (me : Mutex.tid) : M Proc unit :=
  (mutex <- gets (fun s => m_BuffMutex (impl s)) ;;
   mx (ScopeLock.ctor b me mutex) ;;
   p <- gets mutexes ;;
   if bool_decide (mutex ≫= Mutex.owner p = Some me) then record (E_lock me)
   else ret tt)%monad.

Definition unlock_buffer (me : Mutex.tid) : M Proc unit :=
  (mutex <- gets (fun s => m_BuffMutex (impl s)) ;;
   p <- gets mutexes ;;
   mx (ScopeLock.dtor me mutex) ;;
   if bool_decide (mutex ≫= Mutex.owner p = Some me) then record (E_unlock me)
   else ret tt)%monad.

(** The statement of [LogThreadFunc] at each point. *)
Definition LogThreadFunc_at (b : Build) (at_ : LogPc) : M Proc LogPc :=
  (match at_ with
   | L_none => ret L_none
   | L_test =>
       continue <- gets (fun s => m_Continue (impl s)) ;;
       if continue then ret L_lock else ret L_returned
   | L_lock =>
       lock_buffer b bg_tid ;;
       ret L_copy
   | L_copy =>
       s <- get ;;
       modify (set_outBuffer (outBuffer s +:+ m_Buffer (impl s))) ;;
       ret L_clear
   | L_clear =>
       set_m_Buffer EmptyString ;;
       ret L_unlock
   | L_unlock =>
       unlock_buffer bg_tid ;;
       ret L_write
   | L_write =>
       s <- get ;;
       record (E_write (outBuffer s)) ;;
       of_ (OFStream.write (outBuffer s)) ;;
       ret L_reset
   | L_reset =>
       modify (set_outBuffer EmptyString) ;;
       ret L_flush
   | L_flush =>
       record E_flush ;;
       of_ OFStream.flush ;;
       ret L_sleep
   | L_sleep =>
       Sleep bg_tid 25 ;;
       ret L_test
   | L_returned => ret L_returned
   | L_threw e => ret (L_threw e)
   end)%monad.

(** The statement of [~LogImpl] at each point, executed by thread [me]. *)
Definition dtor_at (b : Build) (me : Mutex.tid) (at_ : DtorPc) : M Proc DtorPc :=
  (match at_ with
   | D_none => ret D_none
   | D_entry =>
       started <- gets (fun s => m_ThreadStarted (impl s)) ;;
       if negb started then ret D_returned else ret D_stop
   | D_stop =>
       set_m_Continue false ;;
       ret D_sleep
   | D_sleep =>
       Sleep me 50 ;;
       ret D_lock
   | D_lock =>
       lock_buffer b me ;;
       ret D_gather
   | D_gather =>
       s <- get ;;
       set_m_Buffer (m_Buffer (impl s) +:+ m_Os (this s)) ;;
       ret D_clear_os
   | D_clear_os =>
       set_m_Os EmptyString ;;
       ret D_write
   | D_write =>
       s <- get ;;
       record (E_write (m_Buffer (impl s))) ;;
       of_ (OFStream.write (m_Buffer (impl s))) ;;
       ret D_clear_buffer
   | D_clear_buffer =>
       set_m_Buffer EmptyString ;;
       ret D_unlock
   | D_unlock =>
       unlock_buffer me ;;
       ret D_delete_thread
   | D_delete_thread =>
       ret D_delete_mutex
   | D_delete_mutex =>
       mutex <- gets (fun s => m_BuffMutex (impl s)) ;;
       match mutex with
       | Some h => mx (Mutex.dtor h)
       | None => ret tt
       end ;;
       ret D_close
   | D_close =>
       CloseFile ;;
       ret D_returned
   | D_returned => ret D_returned
   | D_threw e => ret (D_threw e)
   end)%monad.

Definition bg_step (b : Build) (s : Proc) : Proc :=
  match fault s with
  | Some _ => s
  | None =>
      match LogThreadFunc_at b (bg s) s with
      | (Val next, s') => set_bg next s'
      | (Raised e, s') => set_bg (L_threw e) s'
      | (Crashed f, s') => set_fault f s'
      | (Blocked, _) => s
      end
  end.

Definition dtor_step (b : Build) (me : Mutex.tid) (s : Proc) : Proc :=
  match fault s with
  | Some _ => s
  | None =>
      match dtor_at b me (td s) s with
      | (Val next, s') => set_td next s'
      | (Raised e, s') => set_td (D_threw e) s'
      | (Crashed f, s') => set_fault f s'
      | (Blocked, _) => s
      end
  end.

Fixpoint dtor_steps (b : Build) (me : Mutex.tid) (n : nat) (s : Proc) : Proc :=
  match n with
  | O => s
  | Datatypes.S n' => dtor_steps b me n' (dtor_step b me s)
  end.

(** [~LogImpl] run by [me] from entry, while no other thread moves: its
    twelve statements. *)
Definition dtor (b : Build) (me : Mutex.tid) (s : Proc) : Proc :=
  dtor_steps b me 12 (set_td D_entry s).

(** What the threads of the process do to the logger, one action at a
    time.  A producer's [Write], [Flush], [operator<<] and [SetFile] are
    taken whole: each works on the buffer only inside the mutex. *)
Inductive Action :=
| Step_bg                                   (* next statement of LogThreadFunc *)
| Call_dtor                                 (* a thread enters ~LogImpl *)
| Step_dtor (me : Mutex.tid)                (* its next statement *)
| Call_SetFile (fileName : string)
| Call_stream (me : Mutex.tid) (val : string)
| Call_Flush (me : Mutex.tid)
| Call_Write (me : Mutex.tid) (os : string).

Definition settle {A} (r : Result A * Proc) : Proc :=
  match r with
  | (Crashed f, s') => set_fault f s'
  | (_, s') => s'
  end.

Definition act (b : Build) (a : Action) (s : Proc) : Proc :=
  match fault s with
  | Some _ => s
  | None =>
      match a with
      | Step_bg => bg_step b s
      | Call_dtor =>
          match td s with
          | D_none => set_td D_entry s
          | _ => s
          end
      | Step_dtor me => dtor_step b me s
      | Call_SetFile fileName => settle (SetFile b fileName s)
      | Call_stream me val => settle (stream b me val s)
      | Call_Flush me => settle (Flush b me s)
      | Call_Write me os => settle (Write b me os s)
      end
  end.

Definition exec (b : Build) (sch : list Action) (s : Proc) : Proc :=
  fold_left (fun s a => act b a s) sch s.

(** The text in the sink [fileName]. *)
Definition destination (s : Proc) (fileName : string) : string :=
  OFStream.content (fs s) fileName.

End Logger.

(** ** Vocabulary of the properties

    Predicates on the states of the machines above, and the processes and
    schedules used as examples. *)

Section Vocabulary.
Import Coord Sched.

(** Clients used in examples. *)
Definition stop_at_once : Coord.ClientFunc := fun _ flag => (false, flag).
Definition keep_going : Coord.ClientFunc := fun _ flag => (true, flag).


(** The pool once [me] has acquired [h]. *)
Definition lock_pool (me : Mutex.tid) (h : Mutex.handle) (p : Mutex.Pool)
  : Mutex.Pool :=
  Mutex.mkPool (<[h := Mutex.Held me]> (Mutex.objs p)) (Mutex.quota p).

(** A file system with an older log and a path that cannot be opened; a
    logger just constructed on it; the same once [SetFile] has succeeded; and
    the same while the background thread holds the buffer's mutex. *)
Definition demo_fs : OFStream.FS :=
  OFStream.mkFS (<["log.txt" := "old"]> ∅) {["/locked"]}.
Definition fresh_logger : Logger.Proc := snd (Logger.ctor release demo_fs 5 5).
Definition active_logger : Logger.Proc :=
  Logger.exec release [Logger.Call_SetFile "log.txt"] fresh_logger.
Definition draining_logger : Logger.Proc :=
  Logger.exec release [Logger.Step_bg; Logger.Step_bg] active_logger.

(** The logger with "a" in its buffer and "b" still in its stream. *)
Definition buffered_logger : Logger.Proc :=
  Logger.exec release
    [Logger.Call_stream 7 "a"; Logger.Call_Flush 7; Logger.Call_stream 7 "b"]
    active_logger.

(** One successful [Write] of "a"; the background thread takes the text out
    of the buffer and releases the mutex; before it writes, thread 7 runs the
    whole destructor. *)
Definition racing_schedule : list Logger.Action :=
  [Logger.Call_Write 7 "a"] ++ repeat Logger.Step_bg 5 ++
  [Logger.Call_dtor] ++ repeat (Logger.Step_dtor 7) 12.

(** Between the store that sets the flag and the store that clears it. *)
Definition flag_set_pc (c : RunPc) : bool :=
  match c with
  | R_check_events | R_create_stop | R_create_stopped | R_reset_stop
  | R_reset_stopped | R_loop_start | R_call_user | R_poll_stop
  | R_clear_running => true
  | _ => false
  end.

(** From the end of [Reset] to the setting of the stopped signal. *)
Definition in_loop_pc (c : RunPc) : bool :=
  match c with
  | R_loop_start | R_call_user | R_poll_stop | R_clear_running
  | R_set_stopped => true
  | _ => false
  end.

(** Where [Run] has called through [m_StopEvent], and through
    [m_ThreadStoppedEvent]. *)
Definition stop_made_pc (c : RunPc) : bool :=
  match c with
  | R_reset_stopped | R_loop_start | R_call_user | R_poll_stop
  | R_clear_running | R_set_stopped | R_returned => true
  | _ => false
  end.

Definition stopped_made_pc (c : RunPc) : bool :=
  match c with
  | R_loop_start | R_call_user | R_poll_stop | R_clear_running
  | R_set_stopped | R_returned => true
  | _ => false
  end.

(** What holds in every state the threads of a process can reach. *)
Record Inv (s : Sys) : Prop := mkInv {
  inv_flag : m_IsRunning (self s) = flag_set_pc (pc s);
  inv_stop : forall h, m_StopEvent (self s) = Some h ->
                       h < length (Event.signaled (pool s));
  inv_stopped : forall h, m_ThreadStoppedEvent (self s) = Some h ->
                          h < length (Event.signaled (pool s));
  inv_distinct : forall h1 h2, m_StopEvent (self s) = Some h1 ->
                               m_ThreadStoppedEvent (self s) = Some h2 ->
                               h1 <> h2;
  inv_quiet : stopped_signaled s = true -> in_loop_pc (pc s) = false;
  inv_made_stop : stop_made_pc (pc s) = true -> is_Some (m_StopEvent (self s));
  inv_made_stopped : stopped_made_pc (pc s) = true ->
                     is_Some (m_ThreadStoppedEvent (self s));
  inv_no_throw : forall e, pc s <> R_threw e
}.

(** Between the store that sets the flag and the end of [Reset]. *)
Definition resetting_pc (c : Coord.RunPc) : bool :=
  match c with
  | Coord.R_check_events | Coord.R_create_stop | Coord.R_create_stopped
  | Coord.R_reset_stop | Coord.R_reset_stopped => true
  | _ => false
  end.

(** One whole cycle of a coordinator whose client stops at its first call:
    a thread enters [Run] and runs it to its return. *)
Definition one_cycle : list Sched.Action :=
  Sched.Call_Run :: repeat Sched.Step_Run 11.










End Vocabulary.

(** ** Utility.h: [LessThanStr] *)

Module Utility.

Fixpoint c_str (s : string) : string :=
  match s with
  | EmptyString => EmptyString
  | String c s' =>
      if Ascii.eqb c Ascii.zero then EmptyString else String c (c_str s')
  end.
Definition strcmp_lt (lhs rhs : string) : bool := String.ltb lhs rhs.
Definition LessThanStr (lhs rhs : string) : bool :=
  strcmp_lt (c_str lhs) (c_str rhs).
End Utility.

(** ** CmdLine.cpp: the command line as flags and their data *)

Module CmdLine.

(** [std::map<std::string, std::string, nik::LessThanStr>]: two keys are the
    same key when neither is less than the other, that is when their C
    strings are equal; the map holds one entry for each such class. *)
Abbreviation ArgMap_t := (gmap string string).

(** [find(key)]: the data of the entry, or [end()]. *)
Definition find (key : string) (m : ArgMap_t) : option string :=
  m !! Utility.c_str key.

(** [insert(make_pair(key, data))]: an entry that is there is kept. *)
Definition insert (key data : string) (m : ArgMap_t) : ArgMap_t :=
  match find key m with
  | Some _ => m
  | None => <[Utility.c_str key := data]> m
  end.

Record CmdLine := mkCmdLine { m_Args : ArgMap_t }.

(** [IsFlag]: [arg.size() > 1 && arg[0] == '-'] *)
Definition IsFlag (arg : string) : bool :=
  (1 <? String.length arg) &&
  match arg with
  | String c _ => Ascii.eqb c "-"%char
  | EmptyString => false
  end.

Definition empty (s : string) : bool :=
  match s with EmptyString => true | _ => false end.

(** [argv[i] + 1] *)
Definition skip1 (arg : string) : string :=
  match arg with
  | String _ rest => rest
  | EmptyString => EmptyString
  end.

(** The variables of the loop in [ParseCmdArg]. *)
Record Parse := mkParse {
  args : ArgMap_t;
  flag : string;
  data : string
}.

(** "Append spaces in between args" *)
Definition append_word (data arg : string) : string :=
  (if negb (empty data) then data +:+ " " else data) +:+ arg.

(** The body of the loop, at [argv[i] = arg]. *)
Definition parse_arg (st : Parse) (arg : string) : Parse :=
  if IsFlag arg then
    let st :=
      if negb (empty (flag st))
      then mkParse (insert (flag st) (data st) (args st)) EmptyString EmptyString
      else st in
    mkParse (args st) (skip1 arg) (data st)
  else
    mkParse (args st) (flag st) (append_word (data st) arg).

(** [for(int i = 1; i < argc; ++i)], with [n] iterations to go.  Reading
    [argv] past its end is undefined: [None]. *)
Fixpoint parse_from (argv : list string) (n i : nat) (st : Parse)
  : option Parse :=
  match n with
  | O => Some st
  | S n' =>
      match argv !! i with
      | None => None
      | Some arg => parse_from argv n' (S i) (parse_arg st arg)
      end
  end.

(** "Save the last flag/data pair" *)
Definition save_last (st : Parse) : ArgMap_t :=
  if negb (empty (flag st)) then insert (flag st) (data st) (args st)
  else args st.

(** [CmdLine::ParseCmdArg]: [m_Args.clear()], the loop, the last pair. *)
Definition ParseCmdArg (argc : Z) (argv : list string) (this : CmdLine)
  : option CmdLine :=
  match parse_from argv (Z.to_nat (argc - 1)) 1
                   (mkParse ∅ EmptyString EmptyString) with
  | None => None
  | Some st => Some (mkCmdLine (save_last st))
  end.

(** [CmdLine::CmdLine()] and [CmdLine::CmdLine(int argc, char** argv)] *)
Definition ctor : CmdLine := mkCmdLine ∅.
Definition ctor_args (argc : Z) (argv : list string) : option CmdLine :=
  ParseCmdArg argc argv ctor.

(** [GetArg(const char* flag)]: null, or the data. *)
Definition GetArg (flag : string) (this : CmdLine) : option string :=
  find flag (m_Args this).

(** [GetArg(char flag)]: the key is [string(1, flag)]. *)
Definition GetArg_char (flag : Ascii.ascii) (this : CmdLine) : option string :=
  find (String flag EmptyString) (m_Args this).

(** [IsFlagSet]: [GetArg(flag) != 0] *)
Definition IsFlagSet (flag : string) (this : CmdLine) : bool :=
  bool_decide (is_Some (GetArg flag this)).
Definition IsFlagSet_char (flag : Ascii.ascii) (this : CmdLine) : bool :=
  bool_decide (is_Some (GetArg_char flag this)).

End CmdLine.

Section CmdLineVocabulary.
Import CmdLine.

(** The arguments [ParseCmdArg] reads: [argv[1]] to [argv[argc - 1]]. *)
Definition read_args (argc : Z) (argv : list string) : list string :=
  take (Z.to_nat (argc - 1)) (drop 1 argv).

(** The variables of the loop before its first turn. *)
Definition parse_start : Parse := mkParse ∅ EmptyString EmptyString.

(** The flag an argument names, as a key of the map. *)
Definition names_flag (arg key : string) : Prop :=
  IsFlag arg = true /\ Utility.c_str (skip1 arg) = Utility.c_str key.

End CmdLineVocabulary.

(** ** MultiArray.h: a two-dimensional array *)

Module MultiArray.
Section WithType.
Context {TYPE : Type}.

(** [m_Array], a [std::vector< std::vector<TYPE> >]: the outer vector holds
    one inner vector for each value of the first index. *)
Record MultiArray := mkMultiArray { m_Array : list (list TYPE) }.

(** [MultiArray()] *)
Definition ctor_default : MultiArray := mkMultiArray [].

(** An [int] given where the vector takes a [size_t]: below zero it is a size
    no vector can have. *)
Definition size_of_int (n : Z) : option nat :=
  if decide (0 <= n)%Z then Some (Z.to_nat n) else None.

(** [MultiArray(int x, int y, TYPE val)]:
    [m_Array(x, std::vector<TYPE>(y, val))].  The inner vector is built
    first; a size below zero makes the vector's constructor throw
    ([None]).  Memory is taken to suffice. *)
Definition ctor_val (x y : Z) (val : TYPE) : option MultiArray :=
  match size_of_int y with
  | None => None
  | Some ny =>
      match size_of_int x with
      | None => None
      | Some nx => Some (mkMultiArray (replicate nx (replicate ny val)))
      end
  end.

(** [MultiArray(int x, int y)]: the elements are value-initialised, to
    [TYPE()]. *)
Definition ctor (TYPE_default : TYPE) (x y : Z) : option MultiArray :=
  ctor_val x y TYPE_default.

(** [operator()(int x, int y) const]: [m_Array[x][y]], unchecked.  An index
    outside the vector is undefined ([None]). *)
Definition at_ (this : MultiArray) (x y : Z) : option TYPE :=
  match size_of_int x, size_of_int y with
  | Some i, Some j =>
      match m_Array this !! i with
      | Some inner => inner !! j
      | None => None
      end
  | _, _ => None
  end.

(** [array(x, y) = val] through the reference [operator()(int x, int y)]
    returns. *)
Definition assign (this : MultiArray) (x y : Z) (val : TYPE)
  : option MultiArray :=
  match size_of_int x, size_of_int y with
  | Some i, Some j =>
      match m_Array this !! i with
      | Some inner =>
          match inner !! j with
          | Some _ => Some (mkMultiArray (<[i := <[j := val]> inner]> (m_Array this)))
          | None => None
          end
      | None => None
      end
  | _, _ => None
  end.

(** [SizeCol]: [m_Array.size()] *)
Definition SizeCol (this : MultiArray) : nat := length (m_Array this).

(** [SizeRow]: [(m_Array.size() > 0) ? m_Array[0].size() : 0] *)
Definition SizeRow (this : MultiArray) : nat :=
  match m_Array this with
  | [] => 0
  | inner :: _ => length inner
  end.

(** The inner loop of [SetAll]: every element of one inner vector. *)
Fixpoint SetAll_inner (value : TYPE) (inner : list TYPE) : list TYPE :=
  match inner with
  | [] => []
  | _ :: rest => value :: SetAll_inner value rest
  end.

(** The outer loop. *)
Fixpoint SetAll_outer (value : TYPE) (outer : list (list TYPE))
  : list (list TYPE) :=
  match outer with
  | [] => []
  | inner :: rest => SetAll_inner value inner :: SetAll_outer value rest
  end.

(** [SetAll] *)
Definition SetAll (value : TYPE) (this : MultiArray) : MultiArray :=
  mkMultiArray (SetAll_outer value (m_Array this)).

End WithType.
Arguments MultiArray : clear implicits.
End MultiArray.

Section MultiArrayVocabulary.
Import MultiArray.

(** Both indices are inside an array of the given sizes. *)
Definition in_array (cols rows : nat) (x y : Z) : Prop :=
  (0 <= x < Z.of_nat cols)%Z /\ (0 <= y < Z.of_nat rows)%Z.

(** Every inner vector has the length of the first. *)
Definition rectangular {TYPE} (a : MultiArray TYPE) : Prop :=
  Forall (fun inner => length inner = SizeRow a) (m_Array a).

End MultiArrayVocabulary.

(** ** Timer.cpp: a stopwatch over [clock()] *)

Module Timer.

Record Timer := mkTimer {
  m_IsRunning : bool;
  m_TicksStart : Z;      (* clock_t *)
  m_StoredTicks : Z      (* clock_t *)
}.

(** A method that calls [clock()] is given the value the call returns.
    Arithmetic on [clock_t] is exact: the tick counts are taken to stay
    inside the type. *)

(** [Timer::Start] *)
Definition Start (clock : Z) (this : Timer) : Timer :=
  if negb (m_IsRunning this) then mkTimer true clock (m_StoredTicks this)
  else this.

(** [Timer::Timer(bool start)] *)
Definition ctor (start : bool) (clock : Z) : Timer :=
  let this := mkTimer false 0 0 in
  if start then Start clock this else this.

(** [Timer::Stop] *)
Definition Stop (clock : Z) (this : Timer) : Timer :=
  if m_IsRunning this then
    mkTimer false (m_TicksStart this)
            (m_StoredTicks this + (clock - m_TicksStart this))
  else this.

(** [Timer::Reset] *)
Definition Reset (this : Timer) : Timer :=
  mkTimer false (m_TicksStart this) 0.

(** [runningTicks] in [GetTimeMs] *)
Definition runningTicks (clock : Z) (this : Timer) : Z :=
  if m_IsRunning this then m_StoredTicks this + (clock - m_TicksStart this)
  else m_StoredTicks this.

(** [Timer::GetTimeMs]: [(1000*runningTicks) / CLOCKS_PER_SEC], a division
    of [clock_t] that rounds toward zero, returned as [unsigned] (32 bits). *)
Definition GetTimeMs (CLOCKS_PER_SEC : Z) (clock : Z) (this : Timer) : Z :=
  Z.quot (1000 * runningTicks clock this) CLOCKS_PER_SEC mod 2 ^ 32.

End Timer.

(** ** GenericFactory.h: creation functions by type ID *)

Module GenericFactory.
Section WithTypes.
Context {IDType : Type} `{Countable IDType}.
Context {ProductCreator Product : Type}.

(** [creator()]: the [Product*] a creation function returns, null or a
    product. *)
Variable call : ProductCreator -> option Product.

(** [m_Creator], a [std::map<IDType, ProductCreator, IDTypeCompare>] under
    the default comparison [std::less<IDType>]. *)
Record GenericFactory := mkGenericFactory {
  m_Creator : gmap IDType ProductCreator
}.

Definition ctor : GenericFactory := mkGenericFactory ∅.

(** [Register] *)
Definition Register (id : IDType) (creator : ProductCreator)
           (this : GenericFactory) : bool * GenericFactory :=
  match m_Creator this !! id with
  | Some _ => (false, this)
  | None => (true, mkGenericFactory (<[id := creator]> (m_Creator this)))
  end.

(** [Create] *)
Definition Create (id : IDType) (this : GenericFactory) : option Product :=
  match m_Creator this !! id with
  | None => None
  | Some creator => call creator
  end.

End WithTypes.
Arguments GenericFactory IDType {_ _} ProductCreator.
End GenericFactory.

Section TimerVocabulary.




(** Registrations made one after the other, and the results returned. *)
Fixpoint register_all {IDType} `{Countable IDType} {ProductCreator}
         (regs : list (IDType * ProductCreator))
         (f : GenericFactory.GenericFactory IDType ProductCreator)
  : list bool * GenericFactory.GenericFactory IDType ProductCreator :=
  match regs with
  | [] => ([], f)
  | (id, creator) :: rest =>
      let '(ok, f') := GenericFactory.Register id creator f in
      let '(oks, f'') := register_all rest f' in
      (ok :: oks, f'')
  end.

(** The creator of the first registration made under [id]. *)
Fixpoint first_creator {IDType} `{EqDecision IDType} {ProductCreator}
         (id : IDType) (regs : list (IDType * ProductCreator))
  : option ProductCreator :=
  match regs with
  | [] => None
  | (id', creator) :: rest =>
      if decide (id' = id) then Some creator else first_creator id rest
  end.

End TimerVocabulary.

(** ** observer.h: [Observer<T>] and [Observable<T>] *)

Module Observer.

(** [ObserverID], an [unsigned int] of 32 bits. *)
Definition ObserverID := Z.
Definition InvalidID : ObserverID := 0%Z.

Record Observer := mkObserver {
  m_ID : ObserverID;
  m_Observable : bool      (* ObservableType*: null, or the Observable *)
}.

(** What an observer is told: [signal()], or [notify(data)].  Both are
    virtual and empty unless a client overrides them; a call is recorded,
    and is taken to leave the Observable and the observers as they are. *)
Inductive Call (T : Type) :=
| Signal
| Notify (data : T).
Arguments Signal {T}.
Arguments Notify {T} data.

(** One [Observable<T>] and the observers of the program. *)
Record World (T : Type) := mkWorld {
  observers : gmap nat Observer;      (* the observers alive, by address *)
  m_FreeIDs : list ObserverID;        (* a vector: its back is the last *)
  m_ObserverList : list nat;          (* a vector of Observer* *)
  calls : list (nat * Call T)
}.
Arguments mkWorld {T}.
Arguments observers {T}.
Arguments m_FreeIDs {T}.
Arguments m_ObserverList {T}.
Arguments calls {T}.

(** How a call ends. *)
Inductive Outcome (A : Type) :=
| Returns (a : A)
| Throws (what : string)    (* [RAISE_EXCEPTION(what)]: an [Exception] whose text ends in [what] *)
| Aborts                    (* a failed [assert] *)
| Undefined.                (* a dead observer is used, or [back()] of an empty vector *)
Arguments Returns {A} a.
Arguments Throws {A} what.
Arguments Aborts {A}.
Arguments Undefined {A}.

Section WithData.
Context {T : Type}.
Implicit Types w : World T.

(** [Observer()] at the address [obs]. *)
Definition Observer_ctor (obs : nat) w : World T :=
  mkWorld (<[obs := mkObserver InvalidID false]> (observers w))
          (m_FreeIDs w) (m_ObserverList w) (calls w).

(** [Observable()] *)
Definition ctor (observers : gmap nat Observer) : World T :=
  mkWorld observers [InvalidID + 1]%Z [] [].

Definition set_m_ID (obs : nat) (id : ObserverID) w : World T :=
  mkWorld (alter (fun o => mkObserver id (m_Observable o)) obs (observers w))
          (m_FreeIDs w) (m_ObserverList w) (calls w).

(** [generateID] *)
Definition generateID (b : Build) w : Outcome ObserverID * World T :=
  match last (m_FreeIDs w) with
  | None => (if asserts b then Aborts else Undefined, w)
  | Some id =>
      let free := removelast (m_FreeIDs w) in
      let free :=
        match free with
        | [] => free ++ [((id + 1) mod 2 ^ 32)%Z]
        | _ => free
        end in
      (Returns id, mkWorld (observers w) free (m_ObserverList w) (calls w))
  end.

(** [freeID] *)
Definition freeID (id : ObserverID) w : World T :=
  mkWorld (observers w) (m_FreeIDs w ++ [id]) (m_ObserverList w) (calls w).

(** [std::find_if(first, end, EqualPred)] with [m_TargetID = target], from
    position [i]: the position of the first observer with that ID, or the
    end ([None]); outside, [None] when a dead observer is read first. *)
Fixpoint find_if (observers : gmap nat Observer) (target : ObserverID)
         (l : list nat) (i : nat) : option (option nat) :=
  match l with
  | [] => Some None
  | p :: rest =>
      match observers !! p with
      | None => None
      | Some o =>
          if decide (target = m_ID o) then Some (Some i)
          else find_if observers target rest (S i)
      end
  end.

(** [registerObs] *)
Definition registerObs (b : Build) (obs : nat) w : Outcome unit * World T :=
  match observers w !! obs with
  | None => (Undefined, w)
  | Some o =>
      let register w :=
        match generateID b w with
        | (Returns id, w) =>
            let w := set_m_ID obs id w in
            (Returns tt,
             mkWorld (observers w) (m_FreeIDs w) (m_ObserverList w ++ [obs])
                     (calls w))
        | (Throws e, w) => (Throws e, w)
        | (Aborts, w) => (Aborts, w)
        | (Undefined, w) => (Undefined, w)
        end in
      if decide (m_ID o <> InvalidID) then
        match find_if (observers w) (m_ID o) (m_ObserverList w) 0 with
        | None => (Undefined, w)
        | Some None => (Returns tt, w)  (* "it has already been registered" *)
        | Some (Some _) => register w
        end
      else register w
  end.

(** [unregisterObs] *)
Definition unregisterObs (obs : nat) w : Outcome unit * World T :=
  match observers w !! obs with
  | None => (Undefined, w)
  | Some o =>
      match find_if (observers w) (m_ID o) (m_ObserverList w) 0 with
      | None => (Undefined, w)
      | Some None =>
          (Throws "Observer has not been registered with this Observable.", w)
      | Some (Some i) =>
          match m_ObserverList w !! i with
          | None => (Undefined, w)
          | Some p =>
              let w := set_m_ID p InvalidID w in
              (Returns tt,
               mkWorld (observers w) (m_FreeIDs w)
                       (delete i (m_ObserverList w)) (calls w))
          end
      end
  end.

(** [std::for_each] over the list, calling each observer. *)
Fixpoint for_each (c : Call T) (l : list nat) w : Outcome unit * World T :=
  match l with
  | [] => (Returns tt, w)
  | p :: rest =>
      match observers w !! p with
      | None => (Undefined, w)
      | Some _ =>
          for_each c rest
            (mkWorld (observers w) (m_FreeIDs w) (m_ObserverList w)
                     (calls w ++ [(p, c)]))
      end
  end.

(** [notifyAll()] and [notifyAll(data)] *)
Definition notifyAll_signal w : Outcome unit * World T :=
  for_each Signal (m_ObserverList w) w.
Definition notifyAll (data : T) w : Outcome unit * World T :=
  for_each (Notify data) (m_ObserverList w) w.

(** [~Observer], after which the observer is gone. *)
Definition Observer_dtor (obs : nat) w : Outcome unit * World T :=
  match observers w !! obs with
  | None => (Undefined, w)
  | Some o =>
      let gone w :=
        mkWorld (delete obs (observers w)) (m_FreeIDs w) (m_ObserverList w)
                (calls w) in
      if m_Observable o then
        match unregisterObs obs w with
        | (Returns _, w) => (Returns tt, gone w)
        | r => r
        end
      else (Returns tt, gone w)
  end.

End WithData.
End Observer.

Section ObserverVocabulary.
Import Observer.
Context {T : Type}.
Implicit Types w : World T.

(** The ID an observer carries, if it is alive. *)
Definition ID_of w (p : nat) : option ObserverID :=
  m_ID <$> observers w !! p.

(** No observer in the list has been destroyed. *)
Definition listed_alive w : Prop :=
  Forall (fun p => is_Some (observers w !! p)) (m_ObserverList w).

(** An Observable with one registered observer, at address 7. *)
Definition one_observer : World nat :=
  mkWorld (<[7 := mkObserver 1%Z false]> ∅) [2%Z] [7] [].

(** Observers registered one after the other. *)
Fixpoint register_each (b : Build) (ps : list nat) w : Outcome unit * World T :=
  match ps with
  | [] => (Returns tt, w)
  | p :: rest =>
      match registerObs b p w with
      | (Returns _, w') => register_each b rest w'
      | r => r
      end
  end.


(** What a client does to the Observable: it registers or unregisters the
    observer at an address, one call after the other.  The client catches
    an exception and goes on. *)
Inductive ObsOp :=
| Reg (p : nat)
| Unreg (p : nat).

Definition obs_target (op : ObsOp) : nat :=
  match op with Reg p | Unreg p => p end.

Definition obs_call (b : Build) (op : ObsOp) w : Outcome unit * World T :=
  match op with
  | Reg p => registerObs b p w
  | Unreg p => unregisterObs p w
  end.

Fixpoint obs_run (b : Build) (ops : list ObsOp) w : Outcome unit * World T :=
  match ops with
  | [] => (Returns tt, w)
  | op :: rest =>
      match obs_call b op w with
      | (Returns _, w') | (Throws _, w') => obs_run b rest w'
      | r => r
      end
  end.

(** The same on a list of addresses without repetition: a registration
    appends, an unregistration removes. *)
Definition list_op (l : list nat) (op : ObsOp) : list nat :=
  match op with
  | Reg p => l ++ [p]
  | Unreg p => filter (fun q => q <> p) l
  end.

(** No call registers an observer that is in the list [l] by then. *)
Fixpoint registers_anew (ops : list ObsOp) (l : list nat) : Prop :=
  match ops with
  | [] => True
  | op :: rest =>
      match op with
      | Reg p => p ∉ l
      | Unreg _ => True
      end /\ registers_anew rest (list_op l op)
  end.

(** The state of an Observable that has been used properly: one free ID,
    above every ID in use; the observers in the list alive, without
    repetition, each with an ID of its own; every other observer without
    ID. *)
Record Kept (n : Z) w : Prop := mkKept {
  kept_free : m_FreeIDs w = [n];
  kept_next : (1 <= n)%Z;
  kept_nodup : NoDup (m_ObserverList w);
  kept_listed :
    forall p, p ∈ m_ObserverList w ->
              exists id, ID_of w p = Some id /\ (0 < id < n)%Z;
  kept_unlisted :
    forall p o, observers w !! p = Some o -> p ∉ m_ObserverList w ->
                m_ID o = InvalidID;
  kept_apart :
    forall p q, p ∈ m_ObserverList w -> q ∈ m_ObserverList w ->
                ID_of w p = ID_of w q -> p = q
}.

End ObserverVocabulary.

(** ** Vocabulary of the active logger *)

Section LoggerVocabulary.
Import Logger.

(** The statements of [LogThreadFunc] inside its [ScopeLock]. *)
Definition holds_buffer_pc (c : LogPc) : bool :=
  match c with
  | L_copy | L_clear | L_unlock => true
  | _ => false
  end.

(** An activated logger between two actions of its threads: the sink
    [fileName] open and healthy, no teardown begun, the logger's lock free
    and the buffer's mutex with the background thread exactly inside its
    [ScopeLock], whose local stream is empty outside a drain. *)
Record Steady (fileName : string) (hl hb : Mutex.handle) (s : Proc) : Prop :=
  mkSteady {
  steady_fault : fault s = None;
  steady_td : td s = D_none;
  steady_of : m_Of (impl s) = OFStream.mkOfstream (Some fileName) false;
  steady_lock : m_Lock (this s) = Some hl;
  steady_buff : m_BuffMutex (impl s) = Some hb;
  steady_ne : hl <> hb;
  steady_lock_free : Mutex.objs (mutexes s) !! hl = Some Mutex.Free;
  steady_mutex :
    Mutex.objs (mutexes s) !! hb =
      Some (if holds_buffer_pc (bg s) then Mutex.Held bg_tid else Mutex.Free);
  steady_out :
    match bg s with
    | L_clear => outBuffer s = m_Buffer (impl s)
    | L_unlock | L_write | L_reset => True
    | L_threw _ => False
    | _ => outBuffer s = EmptyString
    end
}.

(** The text the background thread has taken out of the buffer and not yet
    written. *)
Definition in_flight (s : Proc) : string :=
  match bg s with
  | L_unlock | L_write => outBuffer s
  | _ => EmptyString
  end.

(** Everything the logger holds, from the oldest text to the newest: the
    sink, the text in flight, the buffer, the logger's stream. *)
Definition accounted (fileName : string) (s : Proc) : string :=
  destination s fileName +:+ in_flight s +:+ m_Buffer (impl s) +:+
  m_Os (this s).

(** The texts a schedule streams, in its order. *)
Fixpoint streamed (sch : list Action) : string :=
  match sch with
  | [] => EmptyString
  | Call_stream _ val :: rest => val +:+ streamed rest
  | _ :: rest => streamed rest
  end.

(** Statements of the background thread, and [operator<<] and [Flush] called
    by other threads. *)
Definition producing (a : Action) : bool :=
  match a with
  | Step_bg => true
  | Call_stream me _ | Call_Flush me => negb (me =? bg_tid)
  | _ => false
  end.

End LoggerVocabulary.

(* ===================================================================== *)
(** * Part II: properties                                                  *)
(* ===================================================================== *)

(** ** Copying coordinators *)

Section Copying.
Import Coord.

Lemma assign_frame (this rhs : ThreadCoord) :
  m_UserFunc (assign this rhs) = m_UserFunc rhs /\
  m_StopEvent (assign this rhs) = m_StopEvent this /\
  m_ThreadStoppedEvent (assign this rhs) = m_ThreadStoppedEvent this /\
  m_IsRunning (assign this rhs) = m_IsRunning this.
Proof. unfold assign; simpl; auto. Qed.

Lemma ctor_copy_inert (orig : ThreadCoord) :
  ctor_copy orig = ctor (m_UserFunc orig).
Proof. reflexivity. Qed.

Lemma Simple_assign_frame (this rhs : Simple.SimpleThreadCoord) :
  Simple.m_UserFunc (Simple.assign this rhs) = Simple.m_UserFunc rhs /\
  Simple.m_StopEvent (Simple.assign this rhs) = Simple.m_StopEvent this /\
  Simple.m_ThreadStoppedEvent (Simple.assign this rhs) =
    Simple.m_ThreadStoppedEvent this.
Proof. unfold Simple.assign; simpl; auto. Qed.

(** [ThreadObj::Run] leaves the signals, the flag and the kernel's events
    of its coordinator as they were. *)
Lemma ThreadObj_Run_frame b arg o :
  let o' := snd (ThreadObj.Run b arg o) in
  m_StopEvent (self (ThreadObj.m_ThreadCoord o')) =
    m_StopEvent (self (ThreadObj.m_ThreadCoord o)) /\
  m_ThreadStoppedEvent (self (ThreadObj.m_ThreadCoord o')) =
    m_ThreadStoppedEvent (self (ThreadObj.m_ThreadCoord o)) /\
  m_IsRunning (self (ThreadObj.m_ThreadCoord o')) =
    m_IsRunning (self (ThreadObj.m_ThreadCoord o)) /\
  pool (ThreadObj.m_ThreadCoord o') = pool (ThreadObj.m_ThreadCoord o).
Proof.
  destruct o as [c t q], b as [a d].
  unfold ThreadObj.Run, ThreadObj.StartThread, ThreadObj.coord_,
    ThreadObj.set_m_Thread, bind, gets, get, modify, zoom, assert_, ret,
    crash, enter_Run.
  cbn.
  destruct t as [t|], a; cbn; auto; destruct q; cbn; auto;
    destruct (idle (pc c)); cbn; auto.
Qed.

(** On a [ThreadObj] whose thread slot is empty, [Run] installs the work
    function of its argument. *)
Lemma ThreadObj_Run_installs b arg o :
  ThreadObj.m_Thread o = None ->
  m_UserFunc (self (ThreadObj.m_ThreadCoord (snd (ThreadObj.Run b arg o)))) =
    m_UserFunc arg.
Proof.
  destruct o as [c t q], b as [a d]. cbn. intros ->.
  unfold ThreadObj.Run, ThreadObj.StartThread, ThreadObj.coord_,
    ThreadObj.set_m_Thread, bind, gets, get, modify, zoom, assert_, ret,
    crash, enter_Run.
  cbn. destruct a; cbn; destruct q; cbn; auto;
    destruct (idle (pc c)); cbn; auto.
Qed.

(** The first [Run] of a [ThreadObj] starts its coordinator from absent
    signals, and the coordinator's [Run] then creates two fresh ones. *)
Lemma ThreadObj_first_Run b default_func arg q t :
  let o' := snd (ThreadObj.Run b arg
                   (ThreadObj.ctor default_func (S (S q)) (S t))) in
  let c := run_steps b 5 (ThreadObj.m_ThreadCoord o') in
  m_StopEvent (self (ThreadObj.m_ThreadCoord o')) = None /\
  m_ThreadStoppedEvent (self (ThreadObj.m_ThreadCoord o')) = None /\
  m_StopEvent (self c) = Some 0 /\
  m_ThreadStoppedEvent (self c) = Some 1 /\
  Event.signaled (pool c) = [false; false] /\
  fault c = None.
Proof. destruct b as [[] d]; cbn; auto 10. Qed.

End Copying.

(** C10 (as amended): copy-assigning a coordinator of either variant
    transfers only the work function and leaves the destination's stop and
    stopped handles and its running flag unchanged; copy-constructing a
    [ThreadCoord] gives absent signals and a clear flag.  So the assignment
    inside [ThreadObj::Run] keeps whatever signals the [ThreadObj]'s
    coordinator has: absent ones on the first [Run] of a [ThreadObj], which
    the coordinator's [Run] then creates fresh. *)
Theorem copy_transfers_only_the_work_function :
  (forall this rhs : Coord.ThreadCoord,
      Coord.m_UserFunc (Coord.assign this rhs) = Coord.m_UserFunc rhs /\
      Coord.m_StopEvent (Coord.assign this rhs) = Coord.m_StopEvent this /\
      Coord.m_ThreadStoppedEvent (Coord.assign this rhs) =
        Coord.m_ThreadStoppedEvent this /\
      Coord.m_IsRunning (Coord.assign this rhs) = Coord.m_IsRunning this) /\
  (forall orig : Coord.ThreadCoord,
      Coord.ctor_copy orig =
        Coord.mkThreadCoord None None (Coord.m_UserFunc orig) false) /\
  (forall this rhs : Simple.SimpleThreadCoord,
      Simple.m_UserFunc (Simple.assign this rhs) = Simple.m_UserFunc rhs /\
      Simple.m_StopEvent (Simple.assign this rhs) = Simple.m_StopEvent this /\
      Simple.m_ThreadStoppedEvent (Simple.assign this rhs) =
        Simple.m_ThreadStoppedEvent this) /\
  (forall b arg o,
      let o' := snd (ThreadObj.Run b arg o) in
      Coord.m_StopEvent (Coord.self (ThreadObj.m_ThreadCoord o')) =
        Coord.m_StopEvent (Coord.self (ThreadObj.m_ThreadCoord o)) /\
      Coord.m_ThreadStoppedEvent (Coord.self (ThreadObj.m_ThreadCoord o')) =
        Coord.m_ThreadStoppedEvent (Coord.self (ThreadObj.m_ThreadCoord o)) /\
      Coord.m_IsRunning (Coord.self (ThreadObj.m_ThreadCoord o')) =
        Coord.m_IsRunning (Coord.self (ThreadObj.m_ThreadCoord o)) /\
      Coord.pool (ThreadObj.m_ThreadCoord o') =
        Coord.pool (ThreadObj.m_ThreadCoord o)) /\
  (forall b default_func arg q t,
      let o' := snd (ThreadObj.Run b arg
                       (ThreadObj.ctor default_func (S (S q)) (S t))) in
      let c := Coord.run_steps b 5 (ThreadObj.m_ThreadCoord o') in
      Coord.m_UserFunc (Coord.self (ThreadObj.m_ThreadCoord o')) =
        Coord.m_UserFunc arg /\
      Coord.m_StopEvent (Coord.self (ThreadObj.m_ThreadCoord o')) = None /\
      Coord.m_ThreadStoppedEvent (Coord.self (ThreadObj.m_ThreadCoord o')) = None /\
      Coord.m_StopEvent (Coord.self c) = Some 0 /\
      Coord.m_ThreadStoppedEvent (Coord.self c) = Some 1 /\
      Event.signaled (Coord.pool c) = [false; false] /\
      Coord.fault c = None).
Proof.
  split; [exact assign_frame|].
  split; [reflexivity|].
  split; [exact Simple_assign_frame|].
  split; [exact ThreadObj_Run_frame|].
  intros b default_func arg q t o' c.
  split; [apply ThreadObj_Run_installs; reflexivity|].
  apply ThreadObj_first_Run.
Qed.

(** C10 (as stated) fails: a [ThreadObj] whose thread has finished accepts
    [Run] again, and the assignment in that second [Run] starts from the two
    signals of the first cycle, which the coordinator's [Run] clears and
    uses again: the kernel still has two events afterwards.  And the copy
    constructor of [SimpleThreadCoord] copies both handles. *)
Lemma second_ThreadObj_Run_starts_from_present_signals :
  let o0 := ThreadObj.ctor stop_at_once 2 2 in
  let o1 := snd (ThreadObj.Run debug (Coord.ctor stop_at_once) o0) in
  let o2 := snd (ThreadObj.MyThreadFunction debug 20 o1) in
  let r3 := ThreadObj.Run debug (Coord.ctor stop_at_once) o2 in
  let r4 := ThreadObj.MyThreadFunction debug 20 (snd r3) in
  fst r3 = Val true /\
  Coord.m_StopEvent (Coord.self (ThreadObj.m_ThreadCoord (snd r3))) = Some 0 /\
  Coord.m_ThreadStoppedEvent (Coord.self (ThreadObj.m_ThreadCoord (snd r3))) = Some 1 /\
  fst r4 = Val tt /\
  Coord.m_StopEvent (Coord.self (ThreadObj.m_ThreadCoord (snd r4))) = Some 0 /\
  Coord.m_ThreadStoppedEvent (Coord.self (ThreadObj.m_ThreadCoord (snd r4))) = Some 1 /\
  length (Event.signaled (Coord.pool (ThreadObj.m_ThreadCoord (snd r4)))) = 2 /\
  Coord.calls (ThreadObj.m_ThreadCoord (snd r4)) = 2 /\
  Simple.m_StopEvent (Simple.ctor_copy (Simple.mkSimpleThreadCoord (Some 0) (Some 1) None))
    = Some 0.
Proof. vm_compute. repeat split; reflexivity. Qed.

(** ** Misuse of the coordinators *)

Section Misuse.
Import Coord.





End Misuse.




(** ** Failure to allocate a signal *)

Section SignalAllocation.
Import Coord.

Lemma run_steps_faulted b n s f : fault s = Some f -> run_steps b n s = s.
Proof.
  intros H. induction n as [|n IH]; [reflexivity|].
  cbn. unfold run_step at 1. rewrite H. exact IH.
Qed.

Lemma run_steps_add b n m s :
  run_steps b (n + m) s = run_steps b m (run_steps b n s).
Proof. revert s. induction n as [|n IH]; intros s; cbn; auto. Qed.

(** [Event::Create] catches the constructor's error: it never throws. *)
Lemma Event_Create_never_raises b p e : fst (Event.Create b p) <> Raised e.
Proof.
  destruct p as [l [|q]], b as [[] d]; cbn; discriminate.
Qed.

End SignalAllocation.

(** C7 (the code at the failing input): when the kernel cannot create the
    stop signal, or can create it but not the stopped signal, the first [Run]
    of a coordinator never throws and never returns: with assertions
    compiled in the process stops at an [assert], without them [Reset] calls
    through the null handle.  The work function is not invoked, and the
    running flag is left set.  [Event::Create], whatever the kernel's state,
    raises nothing for [Run] to pass on. *)
Theorem Run_raises_nothing_when_a_signal_is_missing :
  forall b userFunc (stop_created : bool) n,
    let quota := if stop_created then 1 else 0 in
    let s := Coord.run_steps b (7 + n)
               (Coord.enter_Run (Sched.init userFunc quota)) in
    Coord.fault s = Some (if asserts b then AssertionFailed else NullPointer) /\
    (forall e, Coord.pc s <> Coord.R_threw e) /\
    Coord.pc s <> Coord.R_returned /\
    Coord.calls s = 0 /\
    Coord.IsRunning s = true /\
    (forall p e, fst (Event.Create b p) <> Raised e).
Proof.
  intros b userFunc stop_created n quota s. subst s quota.
  split; [|split; [|split; [|split; [|split]]]];
    [..|intros p e; apply Event_Create_never_raises];
    rewrite run_steps_add;
    destruct b as [[] d], stop_created;
    (erewrite run_steps_faulted; [|vm_compute; reflexivity]);
    vm_compute; try reflexivity; intros; discriminate.
Qed.

(** ** Mutexes *)

Section MutexFacts.
Import Mutex.


Lemma Lock_held b me h t p owner :
  objs p !! h = Some (Held owner) -> owner <> me -> t <> FOREVER ->
  Lock b me h t p = (Val false, p).
Proof.
  intros H Hne Ht. unfold Lock, WaitForSingleObject, bind, get. cbn.
  rewrite H.
  destruct (decide (owner = me)); [contradiction|].
  destruct (decide (t = FOREVER)); [contradiction|]. reflexivity.
Qed.

Lemma Lock_held_forever b me h p owner :
  objs p !! h = Some (Held owner) -> owner <> me ->
  Lock b me h FOREVER p = (Blocked, p).
Proof.
  intros H Hne. unfold Lock, WaitForSingleObject, bind, get. cbn.
  rewrite H.
  destruct (decide (owner = me)); [contradiction|]. reflexivity.
Qed.

Lemma Unlock_locked me h p :
  objs p !! h = Some Free ->
  Unlock me h (lock_pool me h p) = (Val true, p).
Proof.
  intros H. unfold Unlock, lock_pool, bind, get, put, modify. cbn.
  rewrite list_lookup_insert_eq by (eapply lookup_lt_Some; eauto).
  destruct (decide (me = me)); [|contradiction]. cbn.
  rewrite list_insert_insert_eq, list_insert_id by done.
  destruct p; reflexivity.
Qed.

End MutexFacts.

(** ** The producer's write *)

Ltac open_proc s :=
  destruct s as [[?os [?ofs ?buf ?th ?bm ?cont ?started] ?lk] [?objs ?mq]
                 ?fs ?tq ?bg ?ob ?td ?hist ?flt]; cbn in *.

Ltac mstep :=
  unfold bind, ret, get, gets, modify, throw, crash, block, zoom, assert_,
    deref, try_catch in *; cbn in *.

Section Producer.
Import Logger.

Lemma Write_free b me os s h :
  m_BuffMutex (impl s) = Some h ->
  Mutex.objs (mutexes s) !! h = Some Mutex.Free ->
  exists s', Write b me os s = (Val true, s') /\
    m_Buffer (impl s') = m_Buffer (impl s) +:+ os /\
    mutexes s' = mutexes s /\
    m_Os (this s') = m_Os (this s) /\
    fs s' = fs s /\
    history s' = history s ++ [E_lock me; E_unlock me].
Proof.
  open_proc s. intros -> Hf.
  unfold Write, mx, Mutex.Lock, Mutex.Unlock, Mutex.WaitForSingleObject,
    Mutex.put, record, set_m_Buffer. mstep.
  rewrite Hf. cbn.
  rewrite list_lookup_insert_eq by (eapply lookup_lt_Some; eauto). cbn.
  destruct (decide (me = me)); [|contradiction]. cbn.
  rewrite list_insert_insert_eq, list_insert_id by done.
  eexists; split; [reflexivity|]. cbn. rewrite <- app_assoc. auto 10.
Qed.

Lemma Write_held b me os s h owner :
  m_BuffMutex (impl s) = Some h ->
  Mutex.objs (mutexes s) !! h = Some (Mutex.Held owner) ->
  owner <> me ->
  Write b me os s = (Val false, s).
Proof.
  open_proc s. intros -> Hf Hne.
  unfold Write, mx, Mutex.Lock, Mutex.Unlock, Mutex.WaitForSingleObject,
    Mutex.put, record, set_m_Buffer. mstep.
  rewrite Hf. cbn.
  destruct (decide (owner = me)); [contradiction|]. reflexivity.
Qed.

(** A [Flush] whose [Write] times out changes nothing: the text stays in
    [m_Os]. *)
Lemma Flush_held b me s h l owner :
  m_BuffMutex (impl s) = Some h ->
  m_Lock (this s) = Some l ->
  l <> h ->
  Mutex.objs (mutexes s) !! l = Some Mutex.Free ->
  Mutex.objs (mutexes s) !! h = Some (Mutex.Held owner) ->
  owner <> me ->
  Flush b me s = (Val tt, s).
Proof.
  open_proc s. intros -> -> Hne Hl Hh Ho.
  unfold Flush, scoped, Write, mx, ScopeLock.ctor, ScopeLock.dtor, Mutex.Lock,
    Mutex.Unlock, Mutex.WaitForSingleObject, Mutex.put, record, set_m_Buffer,
    set_m_Os.
  mstep. destruct (nik_debug b); cbn; rewrite Hl; cbn;
    rewrite list_lookup_insert_ne by done; rewrite Hh; cbn;
    (destruct (decide (owner = me)); [contradiction|]); cbn;
    (destruct (decide (Wait_Time_glob = Mutex.FOREVER)) as [E|_];
       [discriminate E|]); cbn;
    rewrite list_lookup_insert_eq by (eapply lookup_lt_Some; eauto); cbn;
    (destruct (decide (me = me)); [|contradiction]); cbn;
    rewrite list_insert_insert_eq, list_insert_id by done; reflexivity.
Qed.

Lemma Flush_free b me s h l :
  m_BuffMutex (impl s) = Some h ->
  m_Lock (this s) = Some l ->
  l <> h ->
  Mutex.objs (mutexes s) !! l = Some Mutex.Free ->
  Mutex.objs (mutexes s) !! h = Some Mutex.Free ->
  exists s', Flush b me s = (Val tt, s') /\
    m_Os (this s') = EmptyString /\
    m_Buffer (impl s') = m_Buffer (impl s) +:+ m_Os (this s) /\
    mutexes s' = mutexes s.
Proof.
  open_proc s. intros -> -> Hne Hl Hh.
  assert (Hll : l < length objs) by (eapply lookup_lt_Some; eauto).
  assert (Hhl : h < length objs) by (eapply lookup_lt_Some; eauto).
  unfold Flush, scoped, Write, mx, ScopeLock.ctor, ScopeLock.dtor, Mutex.Lock,
    Mutex.Unlock, Mutex.WaitForSingleObject, Mutex.put, record, set_m_Buffer,
    set_m_Os.
  mstep. destruct (nik_debug b); cbn; rewrite Hl; cbn;
    rewrite list_lookup_insert_ne by done; rewrite Hh; cbn;
    rewrite list_lookup_insert_eq by (rewrite length_insert; done); cbn;
    (destruct (decide (me = me)); [|contradiction]); cbn;
    rewrite list_insert_insert_eq; cbn;
    rewrite list_lookup_insert_ne by done;
    rewrite list_lookup_insert_eq by done; cbn;
    (destruct (decide (me = me)); [|contradiction]); cbn;
    (eexists; split; [reflexivity|]); cbn;
    (split; [reflexivity|]); (split; [reflexivity|]);
    f_equal;
    rewrite (list_insert_insert_ne _ h l) by done;
    rewrite list_insert_insert_eq;
    rewrite (list_insert_id _ h) by done;
    rewrite list_insert_id by done; reflexivity.
Qed.

End Producer.

(** C2 (as amended): [LogImpl::Write] tries the buffer's mutex with a timeout
    of 10 ms.  If it gets the mutex it appends the text to [m_Buffer],
    releases the mutex and returns true.  If the mutex stays with another
    thread it returns false, throws nothing and changes nothing.  The text is
    then not dropped: [Logger::Flush], the caller of [Write], empties the
    logger's stream only after a successful [Write], so after a timeout the
    text is still there for the next [Flush]. *)
Theorem Write_appends_or_times_out :
  forall b me os s h,
    Logger.m_BuffMutex (Logger.impl s) = Some h ->
    Logger.Wait_Time_glob = 10%Z /\
    Logger.Wait_Time_glob <> Mutex.FOREVER /\
    (Mutex.objs (Logger.mutexes s) !! h = Some Mutex.Free ->
     exists s', Logger.Write b me os s = (Val true, s') /\
       Logger.m_Buffer (Logger.impl s') =
         Logger.m_Buffer (Logger.impl s) +:+ os /\
       Logger.mutexes s' = Logger.mutexes s /\
       Logger.m_Os (Logger.this s') = Logger.m_Os (Logger.this s) /\
       Logger.fs s' = Logger.fs s /\
       Logger.history s' =
         Logger.history s ++ [Logger.E_lock me; Logger.E_unlock me]) /\
    (forall owner,
        Mutex.objs (Logger.mutexes s) !! h = Some (Mutex.Held owner) ->
        owner <> me ->
        Logger.Write b me os s = (Val false, s)) /\
    (forall l owner,
        Logger.m_Lock (Logger.this s) = Some l -> l <> h ->
        Mutex.objs (Logger.mutexes s) !! l = Some Mutex.Free ->
        Mutex.objs (Logger.mutexes s) !! h = Some (Mutex.Held owner) ->
        owner <> me ->
        Logger.Flush b me s = (Val tt, s)) /\
    (forall l,
        Logger.m_Lock (Logger.this s) = Some l -> l <> h ->
        Mutex.objs (Logger.mutexes s) !! l = Some Mutex.Free ->
        Mutex.objs (Logger.mutexes s) !! h = Some Mutex.Free ->
        exists s', Logger.Flush b me s = (Val tt, s') /\
          Logger.m_Os (Logger.this s') = EmptyString /\
          Logger.m_Buffer (Logger.impl s') =
            Logger.m_Buffer (Logger.impl s) +:+ Logger.m_Os (Logger.this s) /\
          Logger.mutexes s' = Logger.mutexes s).
Proof.
  intros b me os s h Hm.
  split; [reflexivity|]. split; [discriminate|].
  split; [intros; eapply Write_free; eauto|].
  split; [intros; eapply Write_held; eauto|].
  split; [intros; eapply Flush_held; eauto|].
  intros; eapply Flush_free; eauto.
Qed.

Lemma Write_appends_or_times_out_witness :
  Logger.m_BuffMutex (Logger.impl draining_logger) = Some 1 /\
  Logger.Write release 7 "a" draining_logger = (Val false, draining_logger).
Proof.
  assert (H : Logger.m_BuffMutex (Logger.impl draining_logger) = Some 1)
    by reflexivity.
  split; [exact H|].
  apply (proj1 (proj2 (proj2 (proj2
           (Write_appends_or_times_out release 7 "a" draining_logger 1 H)))))
    with (owner := Logger.bg_tid).
  - reflexivity.
  - discriminate.
Defined.

(** C2 (as stated) fails in its last part: a text whose [Write] timed out is
    not dropped.  Thread 7 streams "a" and flushes while the background
    thread holds the mutex: [Write] returns false and "a" stays in [m_Os].
    Once the mutex is free, the next [Flush] of thread 7, with nothing new
    streamed, puts "a" into [m_Buffer], and the next drain writes it to the
    sink. *)
Lemma timed_out_text_is_written_later :
  let s1 := Logger.exec release [Logger.Call_stream 7 "a"] draining_logger in
  let s2 := Logger.exec release [Logger.Call_Flush 7] s1 in
  let s3 := Logger.exec release
              [Logger.Step_bg; Logger.Step_bg; Logger.Step_bg; Logger.Call_Flush 7]
              s2 in
  let s4 := Logger.exec release (repeat Logger.Step_bg 10) s3 in
  fst (Logger.Write release 7 (Logger.m_Os (Logger.this s1)) s1) = Val false /\
  Logger.m_Os (Logger.this s2) = "a" /\
  Logger.m_Buffer (Logger.impl s2) = EmptyString /\
  Logger.m_Buffer (Logger.impl s3) = "a" /\
  Logger.destination s4 "log.txt" = "a".
Proof. vm_compute. repeat split; reflexivity. Qed.

(** ** Teardown of the log writer *)

Section Teardown.
Import Logger.
Local Arguments dtor_steps : simpl never.
Local Arguments lock_buffer : simpl never.
Local Arguments unlock_buffer : simpl never.
Local Arguments CloseFile : simpl never.
Local Arguments of_ : simpl never.
Local Arguments mx : simpl never.









End Teardown.



(** ** Activation of the log writer *)

Section Activation.
Import Logger.

Ltac open_all s :=
  destruct s as [[os [[file failed] buf th bm cont started] lk] [objs mq]
                 [files denied] tq bg0 ob td0 hist flt].

Ltac setfile_unfold :=
  unfold SetFile, OpenFile, CloseFile, StartThread, Thread_StartThread, of_, mx,
    record, OFStream.open, OFStream.close, OFStream.is_open, Mutex.Create,
    Mutex.ctor, set_m_ThreadStarted, set_m_BuffMutex, set_m_Continue,
    set_m_ThreadHandle, record.

Lemma SetFile_started b fileName s :
  fileName ∉ OFStream.denied (fs s) ->
  m_ThreadStarted (impl s) = true ->
  exists s',
    SetFile b fileName s = (Val true, s') /\
    m_Of (impl s') = OFStream.mkOfstream (Some fileName) false /\
    destination s' fileName = EmptyString /\
    m_ThreadStarted (impl s') = true /\
    m_BuffMutex (impl s') = m_BuffMutex (impl s) /\
    m_ThreadHandle (impl s') = m_ThreadHandle (impl s) /\
    mutexes s' = mutexes s /\ bg s' = bg s /\ thread_quota s' = thread_quota s /\
    history s' = history s ++
      (if OFStream.is_open (m_Of (impl s)) then [E_close] else []) ++ [E_open fileName].
Proof.
  intros Hd Hs. open_all s. cbn in Hd, Hs. subst.
  setfile_unfold. mstep.
  destruct file as [f|]; cbn; rewrite bool_decide_eq_false_2 by done; cbn;
    eexists; (split; [reflexivity|]); cbn;
    unfold destination, OFStream.content; cbn; rewrite lookup_insert_eq;
    rewrite <- ?app_assoc; auto 12.
Qed.

Lemma SetFile_first b fileName s q :
  fileName ∉ OFStream.denied (fs s) ->
  m_ThreadStarted (impl s) = false ->
  Mutex.quota (mutexes s) = S q ->
  exists s',
    SetFile b fileName s =
      (match thread_quota s with
       | O => if asserts b then Crashed AssertionFailed else Val true
       | S _ => Val true
       end, s') /\
    m_Of (impl s') = OFStream.mkOfstream (Some fileName) false /\
    destination s' fileName = EmptyString /\
    m_ThreadStarted (impl s') = true /\
    m_BuffMutex (impl s') = Some (length (Mutex.objs (mutexes s))) /\
    Mutex.objs (mutexes s') = Mutex.objs (mutexes s) ++ [Mutex.Free] /\
    m_Continue (impl s') = true /\
    bg s' = match thread_quota s with O => bg s | S _ => L_test end /\
    history s' = history s ++
      (if OFStream.is_open (m_Of (impl s)) then [E_close] else []) ++
      [E_open fileName; E_mutex; E_continue true] ++
      match thread_quota s with O => [] | S _ => [E_thread] end.
Proof.
  intros Hd Hs Hq. open_all s. cbn in Hd, Hs, Hq. subst.
  setfile_unfold. mstep.
  destruct file as [f|]; cbn; rewrite bool_decide_eq_false_2 by done; cbn;
    destruct (asserts b); cbn; destruct tq; cbn;
    eexists; (split; [reflexivity|]); cbn;
    unfold destination, OFStream.content; cbn; rewrite lookup_insert_eq;
    rewrite <- ?app_assoc; auto 12.
Qed.

Lemma SetFile_no_mutex b fileName s :
  fileName ∉ OFStream.denied (fs s) ->
  m_ThreadStarted (impl s) = false ->
  Mutex.quota (mutexes s) = 0 ->
  exists s',
    SetFile b fileName s =
      (if asserts b then Crashed AssertionFailed
       else Raised "Mutex::Mutex - Create mutex failed with code: ", s') /\
    m_BuffMutex (impl s') = m_BuffMutex (impl s) /\
    m_ThreadHandle (impl s') = m_ThreadHandle (impl s) /\
    mutexes s' = mutexes s /\ bg s' = bg s.
Proof.
  intros Hd Hs Hq. open_all s. cbn in Hd, Hs, Hq. subst.
  setfile_unfold. mstep.
  destruct file as [f|]; cbn; rewrite bool_decide_eq_false_2 by done; cbn;
    destruct (asserts b); cbn;
    eexists; (split; [reflexivity|]); cbn; auto 12.
Qed.

Lemma SetFile_denied b fileName s :
  fileName ∈ OFStream.denied (fs s) ->
  exists s',
    SetFile b fileName s =
      (if asserts b then Crashed AssertionFailed else Val false, s') /\
    m_ThreadStarted (impl s') = m_ThreadStarted (impl s) /\
    m_BuffMutex (impl s') = m_BuffMutex (impl s) /\
    m_ThreadHandle (impl s') = m_ThreadHandle (impl s) /\
    mutexes s' = mutexes s /\ bg s' = bg s /\
    thread_quota s' = thread_quota s /\
    fs s' = fs s /\
    history s' = history s ++
      (if OFStream.is_open (m_Of (impl s)) then [E_close] else []) ++
      [E_open fileName].
Proof.
  intros Hd. open_all s. cbn in Hd.
  setfile_unfold. mstep.
  destruct file as [f|]; cbn; rewrite bool_decide_eq_true_2 by done; cbn;
    destruct (asserts b); cbn; eexists; (split; [reflexivity|]); cbn;
    rewrite <- ?app_assoc; auto 10.
Qed.

End Activation.

(** C9 (as amended): [Logger::SetFile] closes a sink that is open before it
    opens the given one, and opens it in the stream's default mode, which
    empties the sink: it does not append to what the sink held.  When the
    sink cannot be opened, the call returns false (with assertions compiled
    out) and creates neither thread nor mutex.  When it can, the call that
    finds [m_ThreadStarted] clear creates the buffer's mutex and the
    background thread (a thread that cannot be created is an assertion
    failure, or goes unnoticed with assertions compiled out), a later call
    creates nothing, and a mutex that cannot be created is raised as
    [nik::Error]. *)
Theorem SetFile_reopens_and_starts_once :
  forall b fileName s,
    (fileName ∈ OFStream.denied (Logger.fs s) ->
     exists s',
       Logger.SetFile b fileName s =
         (if asserts b then Crashed AssertionFailed else Val false, s') /\
       Logger.m_ThreadStarted (Logger.impl s') =
         Logger.m_ThreadStarted (Logger.impl s) /\
       Logger.m_BuffMutex (Logger.impl s') = Logger.m_BuffMutex (Logger.impl s) /\
       Logger.m_ThreadHandle (Logger.impl s') =
         Logger.m_ThreadHandle (Logger.impl s) /\
       Logger.mutexes s' = Logger.mutexes s /\
       Logger.bg s' = Logger.bg s /\
       Logger.thread_quota s' = Logger.thread_quota s /\
       Logger.fs s' = Logger.fs s /\
       Logger.history s' = Logger.history s ++
         (if OFStream.is_open (Logger.m_Of (Logger.impl s))
          then [Logger.E_close] else []) ++ [Logger.E_open fileName]) /\
    (fileName ∉ OFStream.denied (Logger.fs s) ->
     Logger.m_ThreadStarted (Logger.impl s) = true ->
     exists s',
       Logger.SetFile b fileName s = (Val true, s') /\
       Logger.m_Of (Logger.impl s') = OFStream.mkOfstream (Some fileName) false /\
       Logger.destination s' fileName = EmptyString /\
       Logger.m_ThreadStarted (Logger.impl s') = true /\
       Logger.m_BuffMutex (Logger.impl s') = Logger.m_BuffMutex (Logger.impl s) /\
       Logger.m_ThreadHandle (Logger.impl s') =
         Logger.m_ThreadHandle (Logger.impl s) /\
       Logger.mutexes s' = Logger.mutexes s /\
       Logger.bg s' = Logger.bg s /\
       Logger.thread_quota s' = Logger.thread_quota s /\
       Logger.history s' = Logger.history s ++
         (if OFStream.is_open (Logger.m_Of (Logger.impl s))
          then [Logger.E_close] else []) ++ [Logger.E_open fileName]) /\
    (forall q,
        fileName ∉ OFStream.denied (Logger.fs s) ->
        Logger.m_ThreadStarted (Logger.impl s) = false ->
        Mutex.quota (Logger.mutexes s) = S q ->
        exists s',
          Logger.SetFile b fileName s =
            (match Logger.thread_quota s with
             | O => if asserts b then Crashed AssertionFailed else Val true
             | S _ => Val true
             end, s') /\
          Logger.m_Of (Logger.impl s') =
            OFStream.mkOfstream (Some fileName) false /\
          Logger.destination s' fileName = EmptyString /\
          Logger.m_ThreadStarted (Logger.impl s') = true /\
          Logger.m_BuffMutex (Logger.impl s') =
            Some (length (Mutex.objs (Logger.mutexes s))) /\
          Mutex.objs (Logger.mutexes s') =
            Mutex.objs (Logger.mutexes s) ++ [Mutex.Free] /\
          Logger.m_Continue (Logger.impl s') = true /\
          Logger.bg s' =
            match Logger.thread_quota s with
            | O => Logger.bg s
            | S _ => Logger.L_test
            end /\
          Logger.history s' = Logger.history s ++
            (if OFStream.is_open (Logger.m_Of (Logger.impl s))
             then [Logger.E_close] else []) ++
            [Logger.E_open fileName; Logger.E_mutex; Logger.E_continue true] ++
            match Logger.thread_quota s with
            | O => []
            | S _ => [Logger.E_thread]
            end) /\
    (fileName ∉ OFStream.denied (Logger.fs s) ->
     Logger.m_ThreadStarted (Logger.impl s) = false ->
     Mutex.quota (Logger.mutexes s) = 0 ->
     exists s',
       Logger.SetFile b fileName s =
         (if asserts b then Crashed AssertionFailed
          else Raised "Mutex::Mutex - Create mutex failed with code: ", s') /\
       Logger.m_BuffMutex (Logger.impl s') = Logger.m_BuffMutex (Logger.impl s) /\
       Logger.m_ThreadHandle (Logger.impl s') =
         Logger.m_ThreadHandle (Logger.impl s) /\
       Logger.mutexes s' = Logger.mutexes s /\
       Logger.bg s' = Logger.bg s).
Proof.
  intros b fileName s.
  split; [apply SetFile_denied|].
  split; [apply SetFile_started|].
  split; [intros q; apply SetFile_first|].
  apply SetFile_no_mutex.
Qed.

Lemma SetFile_reopens_and_starts_once_witness :
  exists s',
    Logger.SetFile release "/locked" active_logger = (Val false, s') /\
    Logger.bg s' = Logger.bg active_logger /\
    Logger.history s' = Logger.history active_logger ++
      [Logger.E_close; Logger.E_open "/locked"].
Proof.
  destruct (proj1 (SetFile_reopens_and_starts_once release "/locked"
                     active_logger))
    as (s' & E & _ & _ & _ & _ & Hbg & _ & _ & Hh).
  - vm_compute. reflexivity.
  - exists s'. split; [exact E|]. split; [exact Hbg|]. exact Hh.
Defined.

(** C9 (as stated) fails in "for append": the sink "log.txt" holds "old";
    [SetFile] succeeds on it and leaves it empty, and after one line is
    written and the writer torn down it holds that line only. *)
Lemma SetFile_empties_the_sink :
  let r := Logger.SetFile release "log.txt" fresh_logger in
  let s := Logger.exec release
             [Logger.Call_stream 7 "a"; Logger.Call_Flush 7] (snd r) in
  Logger.destination fresh_logger "log.txt" = "old" /\
  fst r = Val true /\
  Logger.destination (snd r) "log.txt" = EmptyString /\
  Logger.destination (Logger.dtor release 7 s) "log.txt" = "a".
Proof. vm_compute. repeat split; reflexivity. Qed.

(** ** Teardown racing with a drain *)

(** C1 (the code at the failing input): a teardown that overtakes a drain
    between its unlock and its write completes with the appended text in
    neither the buffer nor the sink; the text is in the background thread's
    local stream, and its later write meets a closed sink. *)
Theorem teardown_overtaking_a_drain_loses_text :
  forall b,
    let s := Logger.exec b racing_schedule active_logger in
    let s' := Logger.exec b (repeat Logger.Step_bg 20) s in
    fst (Logger.Write b 7 "a" active_logger) = Val true /\
    Logger.td s = Logger.D_returned /\
    Logger.fault s = None /\
    Logger.m_Buffer (Logger.impl s) = EmptyString /\
    Logger.destination s "log.txt" = EmptyString /\
    Logger.outBuffer s = "a" /\
    Logger.bg s = Logger.L_write /\
    Logger.destination s' "log.txt" = EmptyString /\
    Logger.bg s' = Logger.L_returned.
Proof.
  intros [[] []]; vm_compute; repeat split; reflexivity.
Qed.

(** ** The running flag and the stopped signal *)

Section EventFacts.
Import Event.

Lemma SetEvent_spec h p :
  SetEvent h p =
    (Val (bool_decide (h < length (signaled p))),
     mkPool (<[h := true]> (signaled p)) (quota p)).
Proof.
  destruct p as [l q]. unfold SetEvent, bind, get, modify, ret. cbn.
  destruct (decide (h < length l)).
  - rewrite bool_decide_eq_true_2 by done. reflexivity.
  - rewrite bool_decide_eq_false_2 by done.
    rewrite list_insert_ge by lia. reflexivity.
Qed.

Lemma ClearEvent_spec h p :
  ClearEvent h p =
    (Val (bool_decide (h < length (signaled p))),
     mkPool (<[h := false]> (signaled p)) (quota p)).
Proof.
  destruct p as [l q]. unfold ClearEvent, bind, get, modify, ret. cbn.
  destruct (decide (h < length l)).
  - rewrite bool_decide_eq_true_2 by done. reflexivity.
  - rewrite bool_decide_eq_false_2 by done.
    rewrite list_insert_ge by lia. reflexivity.
Qed.

Lemma Create_spec b p :
  Create b p =
    match quota p with
    | O => (if asserts b then Crashed AssertionFailed else Val None, p)
    | S q => (Val (Some (length (signaled p))), mkPool (signaled p ++ [false]) q)
    end.
Proof.
  destruct p as [l [|q]]; cbn; [|reflexivity].
  unfold Create, ctor, Init, try_catch, bind, get, assert_. cbn.
  destruct (asserts b); reflexivity.
Qed.

Lemma Poll_spec h p :
  Poll h p =
    (Val match signaled p !! h with
         | Some true => WAIT_SIGNALED
         | Some false => WAIT_TIMEDOUT
         | None => WAIT_OTHER
         end, p).
Proof.
  unfold Poll, bind, get. cbn. destruct (signaled p !! h) as [[]|]; reflexivity.
Qed.

Lemma is_signaled_insert l q h v h' :
  is_signaled (mkPool (<[h := v]> l) q) h' =
    if decide (h = h') then (if decide (h < length l) then v else false)
    else is_signaled (mkPool l q) h'.
Proof.
  unfold is_signaled. cbn. destruct (decide (h = h')) as [->|].
  - destruct (decide (h' < length l)).
    + rewrite list_lookup_insert_eq by done. reflexivity.
    + rewrite list_insert_ge by lia. rewrite lookup_ge_None_2 by lia. reflexivity.
  - rewrite list_lookup_insert_ne by done. reflexivity.
Qed.

Lemma is_signaled_app l q h :
  is_signaled (mkPool (l ++ [false]) q) h = is_signaled (mkPool l q) h.
Proof.
  unfold is_signaled. cbn. destruct (decide (h < length l)).
  - rewrite lookup_app_l by done. reflexivity.
  - destruct (decide (h = length l)) as [->|].
    + rewrite list_lookup_middle by done. rewrite lookup_ge_None_2 by lia. reflexivity.
    + rewrite !lookup_ge_None_2; [reflexivity|lia|rewrite length_app; cbn; lia].
Qed.

Lemma is_signaled_ge l q h :
  length l <= h -> is_signaled (mkPool l q) h = false.
Proof.
  intros H. unfold is_signaled. cbn.
  rewrite lookup_ge_None_2 by lia. reflexivity.
Qed.

End EventFacts.

(** Proof steps for the coordinator machine. *)

Ltac open_sys s :=
  destruct s as [[stop stopped uf running] [sig quota] lg c ct w n x flt].

Ltac run_eval :=
  unfold Coord.run_step; cbn [Coord.fault Coord.pc]; unfold Coord.Run_at, Coord.os, Coord.log_, Coord.add_log,
    Coord.set_m_IsRunning, Coord.set_m_StopEvent, Coord.set_m_ThreadStoppedEvent, Coord.IsRunning,
    Coord.set_self, Coord.set_pool, Coord.count_call, Coord.count_exit, Coord.set_continueThread;
  mstep;
  rewrite ?SetEvent_spec, ?ClearEvent_spec, ?Create_spec,
    ?Poll_spec; cbn.

Ltac use_inv :=
  repeat match goal with
    | H : forall h, Some ?x = Some h -> _ |- _ => specialize (H _ eq_refl)
    | H : forall h1 h2, Some ?x = Some h1 -> Some ?y = Some h2 -> _ |- _ =>
        specialize (H _ _ eq_refl eq_refl)
    end.

Ltac inv_field :=
  cbn -[Event.is_signaled];
  try reflexivity;
  try (intros; discriminate);
  try (eexists; reflexivity);
  try (intros ? [= <-]; rewrite ?length_app, ?length_insert; cbn; lia);
  try (intros ? ? [= <-] [= <-]; lia);
  try (unfold Coord.stopped_signaled; cbn -[Event.is_signaled];
       rewrite ?is_signaled_insert, ?is_signaled_app;
       repeat match goal with
         | |- context [decide ?P] => destruct (decide P)
         end;
       try (rewrite is_signaled_ge by lia);
       first [assumption | intros; discriminate | intros; congruence | intros; lia]).

Ltac inv_solve := use_inv; split; inv_field.

Ltac env_eval :=
  unfold Sched.act, Sched.settle, Coord.enter_Run, Coord.SignalStop, Coord.WaitForStop_enter,
    Coord.WaitForStop_wait, Coord.stopped_signaled, Coord.os, Coord.log_, Coord.add_log, Coord.IsRunning,
    Coord.set_waiter, Coord.set_fault, Coord.set_pc, Coord.set_pool;
  mstep;
  rewrite ?SetEvent_spec, ?ClearEvent_spec, ?Create_spec, ?Poll_spec;
  cbn -[Event.is_signaled].

Section Invariant.
Import Coord.

Local Arguments Event.SetEvent : simpl never.
Local Arguments Event.ClearEvent : simpl never.
Local Arguments Event.Create : simpl never.
Local Arguments Event.Poll : simpl never.
Local Arguments Event.is_signaled : simpl never.

Lemma Inv_run_step b s : Inv s -> Inv (run_step b s).
Proof.
  intros [Hflag Hstop Hstopped Hdist Hquiet Hms Hmd Hnt].
  open_sys s. unfold stopped_signaled in *. cbn in *.
  destruct flt as [f|]; [unfold run_step; cbn; split; cbn; auto|].
  destruct b as [a d].
  destruct c; subst running.
  all: destruct a, stop as [h1|], stopped as [h2|], quota as [|q].
  all: run_eval.
  all: try (inv_solve; fail).
  all: try (destruct (uf n ct) as [[] []]; cbn; inv_solve; fail).
  all: try (destruct (sig !! h1) as [[]|]; cbn; inv_solve; fail).
Qed.

Lemma Inv_enter_Run s : Inv s -> Inv (enter_Run s).
Proof.
  intros [Hflag Hstop Hstopped Hdist Hquiet Hms Hmd Hnt].
  unfold enter_Run. destruct (idle (pc s)) eqn:Hi; [|split; assumption].
  split; cbn; auto; try discriminate.
  rewrite Hflag. destruct (pc s); try discriminate; reflexivity.
Qed.

Lemma Inv_act b a s : Inv s -> Inv (Sched.act b a s).
Proof.
  destruct a.
  - unfold Sched.act. destruct (fault s); [auto | apply Inv_enter_Run].
  - unfold Sched.act. destruct (fault s); [auto | apply Inv_run_step].
  - intros [Hflag Hstop Hstopped Hdist Hquiet Hms Hmd Hnt].
    open_sys s; unfold stopped_signaled in *; cbn in *.
    destruct flt as [f|]; [unfold Sched.act; cbn; split; cbn; auto|].
    destruct b as [a d].
    destruct a, stop as [h1|], stopped as [h2|], running; env_eval; inv_solve.
  - intros [Hflag Hstop Hstopped Hdist Hquiet Hms Hmd Hnt].
    open_sys s; unfold stopped_signaled in *; cbn in *.
    destruct flt as [f|]; [unfold Sched.act; cbn; split; cbn; auto|].
    destruct b as [a d].
    destruct a, stop as [h1|], stopped as [h2|], running, w; use_inv;
      env_eval; rewrite ?bool_decide_eq_true_2 by assumption;
      cbn -[Event.is_signaled]; inv_solve.
  - intros [Hflag Hstop Hstopped Hdist Hquiet Hms Hmd Hnt].
    open_sys s; unfold stopped_signaled in *; cbn in *.
    destruct flt as [f|]; [unfold Sched.act; cbn; split; cbn; auto|].
    destruct stopped as [h2|], w; env_eval;
      try destruct (Event.is_signaled _ _) eqn:Hsig;
      cbn -[Event.is_signaled]; inv_solve; auto; congruence.
Qed.

Lemma Inv_init userFunc quota : Inv (Sched.init userFunc quota).
Proof. split; cbn; intros; try done. Qed.

Lemma Inv_exec b sch : forall s, Inv s -> Inv (Sched.exec b sch s).
Proof.
  induction sch as [|a sch IH]; intros s H; [exact H|].
  cbn. apply IH. apply Inv_act. exact H.
Qed.
End Invariant.

(** C4 (as amended): the running flag is false before the first [Run]; in
    every state the threads of a process can reach, it is true exactly from
    [Run]'s store at entry (made before the signals are created or cleared)
    to the store at the work loop's exit; that store precedes the setting of
    the stopped signal, so when [Run] is about to set the signal the flag is
    already false; and wherever the stopped signal is set and [Run] is not
    between its entry store and the end of its [Reset], [IsRunning()] is
    false. *)
Theorem running_flag_is_cleared_before_stopped_is_set :
  forall b userFunc quota sch,
    let s := Sched.exec b sch (Sched.init userFunc quota) in
    Coord.IsRunning (Sched.init userFunc quota) = false /\
    Coord.IsRunning s = flag_set_pc (Coord.pc s) /\
    (Coord.pc s = Coord.R_set_stopped ->
     Coord.IsRunning s = false /\ Coord.stopped_signaled s = false) /\
    (Coord.stopped_signaled s = true ->
     resetting_pc (Coord.pc s) = false ->
     Coord.IsRunning s = false).
Proof.
  intros b userFunc quota sch s.
  assert (H : Inv s) by (apply Inv_exec, Inv_init).
  destruct H as [Hflag _ _ _ Hquiet _ _ _].
  split; [reflexivity|]. split; [exact Hflag|]. split.
  - intros Hpc. unfold Coord.IsRunning. rewrite Hflag, Hpc.
    split; [reflexivity|].
    destruct (Coord.stopped_signaled s); [|reflexivity].
    specialize (Hquiet eq_refl). rewrite Hpc in Hquiet. discriminate.
  - intros Hs Hr. specialize (Hquiet Hs).
    unfold Coord.IsRunning. rewrite Hflag.
    destruct (Coord.pc s); try reflexivity; discriminate.
Qed.

Lemma running_flag_is_cleared_before_stopped_is_set_witness :
  let s := Sched.exec debug one_cycle (Sched.init stop_at_once 2) in
  Coord.stopped_signaled s = true /\
  resetting_pc (Coord.pc s) = false /\
  Coord.IsRunning s = false.
Proof.
  intros s. split; [reflexivity|]. split; [reflexivity|].
  apply (proj2 (proj2 (proj2
           (running_flag_is_cleared_before_stopped_is_set
              debug stop_at_once 2 one_cycle)))); reflexivity.
Defined.

(** C4 (as stated) fails: after one cycle the stopped signal stays set; a
    thread enters [Run] again and sets the flag; before that [Run] reaches
    [Reset], another thread calls [WaitForStop], passes its guard, finds the
    stopped signal of the first cycle and returns: it has observed the
    stopped signal, and [IsRunning()] is true. *)
Lemma waiter_returns_while_running :
  let s := Sched.exec debug
             (one_cycle ++
              [Sched.Call_Run; Sched.Step_Run; Sched.Step_Run;
               Sched.Call_WaitForStop; Sched.Wake_WaitForStop])
             (Sched.init stop_at_once 2) in
  Coord.waiter s = Coord.W_returned /\
  Coord.stopped_signaled s = true /\
  Coord.IsRunning s = true /\
  Coord.fault s = None.
Proof. vm_compute. repeat split; reflexivity. Qed.

(** ** Running a coordinator again *)

Section Rerun.
Import Coord.
Local Arguments Event.SetEvent : simpl never.
Local Arguments Event.ClearEvent : simpl never.
Local Arguments Event.Create : simpl never.
Local Arguments Event.Poll : simpl never.
Local Arguments Event.is_signaled : simpl never.
Local Arguments run_steps : simpl never.






End Rerun.



(** ** Stopping a coordinator *)

Section Stopping.
Import Coord Sched.
Local Arguments Event.SetEvent : simpl never.
Local Arguments Event.ClearEvent : simpl never.
Local Arguments Event.Create : simpl never.
Local Arguments Event.Poll : simpl never.
Local Arguments Event.is_signaled : simpl never.

















End Stopping.




(** ** Utility.h: the ordering of the keys *)

Section UtilityFacts.
Import Utility.

Lemma string_app_assoc (s1 s2 s3 : string) :
  (s1 +:+ s2) +:+ s3 = s1 +:+ (s2 +:+ s3).
Proof.
  induction s1 as [|c s1 IH]; [done|].
  change (String c ((s1 +:+ s2) +:+ s3) = String c (s1 +:+ (s2 +:+ s3))).
  by f_equal.
Qed.

Lemma string_app_nil_r (s : string) : s +:+ EmptyString = s.
Proof.
  induction s as [|c s IH]; [done|].
  change (String c (s +:+ EmptyString) = String c s). by f_equal.
Qed.

Lemma string_app_nonempty (s1 s2 : string) :
  s1 <> EmptyString -> s1 +:+ s2 <> EmptyString.
Proof.
  destruct s1 as [|c s1]; [done|]. intros _.
  change (String c (s1 +:+ s2) <> EmptyString). done.
Qed.

Lemma string_compare_refl (s : string) : String.compare s s = Eq.
Proof.
  induction s as [|c s IH]; [done|]. cbn.
  unfold Ascii.compare. by rewrite N.compare_refl.
Qed.

Lemma string_lt_trans (s1 s2 s3 : string) :
  String.compare s1 s2 = Lt -> String.compare s2 s3 = Lt ->
  String.compare s1 s3 = Lt.
Proof.
  revert s2 s3. induction s1 as [|c1 s1 IH]; intros [|c2 s2] [|c3 s3]; cbn;
    try done.
  destruct (Ascii.compare c1 c2) eqn:E12; [|intros _|done].
  - apply Ascii.compare_eq_iff in E12 as ->.
    destruct (Ascii.compare c2 c3); [apply IH|done|done].
  - destruct (Ascii.compare c2 c3) eqn:E23; [|intros _|done].
    + apply Ascii.compare_eq_iff in E23 as <-. by rewrite E12.
    + unfold Ascii.compare in *.
      apply N.compare_lt_iff in E12. apply N.compare_lt_iff in E23.
      pose proof (N.lt_trans _ _ _ E12 E23) as H.
      apply N.compare_lt_iff in H. by rewrite H.
Qed.

(** X1: [LessThanStr] is a strict ordering of the C strings: no string is
    less than itself, the relation is transitive, and two strings are
    unordered exactly when they are equal up to their first NUL.  These are
    the keys [std::map<std::string, std::string, LessThanStr>] tells apart. *)
Theorem LessThanStr_orders_the_C_strings :
  (forall s, LessThanStr s s = false) /\
  (forall s1 s2 s3,
      LessThanStr s1 s2 = true -> LessThanStr s2 s3 = true ->
      LessThanStr s1 s3 = true) /\
  (forall s1 s2,
      LessThanStr s1 s2 = false /\ LessThanStr s2 s1 = false <->
      c_str s1 = c_str s2).
Proof.
  unfold LessThanStr, strcmp_lt, String.ltb. split; [|split].
  - intros s. by rewrite string_compare_refl.
  - intros s1 s2 s3 H12 H23.
    destruct (String.compare (c_str s1) (c_str s2)) eqn:E12; try done.
    destruct (String.compare (c_str s2) (c_str s3)) eqn:E23; try done.
    by rewrite (string_lt_trans _ _ _ E12 E23).
  - intros s1 s2. split.
    + intros [H12 H21]. apply String.compare_eq_iff.
      rewrite String.compare_antisym in H21.
      by destruct (String.compare (c_str s1) (c_str s2)).
    + intros ->. by rewrite string_compare_refl.
Qed.

End UtilityFacts.

(** ** CmdLine.cpp: what [ParseCmdArg] stores *)

Section CmdLineFacts.
Import CmdLine.

Lemma parse_from_fold argv n i st :
  i + n <= length argv ->
  parse_from argv n i st =
    Some (fold_left parse_arg (take n (drop i argv)) st).
Proof.
  revert i st. induction n as [|n IH]; intros i st Hl; cbn.
  - by rewrite take_0.
  - destruct (argv !! i) as [arg|] eqn:E.
    + rewrite IH by lia.
      rewrite (drop_S _ _ _ E). reflexivity.
    + apply lookup_ge_None_1 in E. lia.
Qed.

Lemma parse_from_None argv n i st :
  i <= length argv -> length argv < i + n -> parse_from argv n i st = None.
Proof.
  revert i st. induction n as [|n IH]; intros i st Hi Hl; cbn.
  - lia.
  - destruct (argv !! i) as [arg|] eqn:E.
    + apply lookup_lt_Some in E. apply IH; lia.
    + reflexivity.
Qed.

Lemma ParseCmdArg_Some argc argv this c :
  ParseCmdArg argc argv this = Some c ->
  c = mkCmdLine (save_last (fold_left parse_arg (read_args argc argv) parse_start)).
Proof.
  unfold ParseCmdArg, read_args. intros H.
  destruct (decide (1 + Z.to_nat (argc - 1) <= length argv)) as [Hl|Hl].
  - rewrite parse_from_fold in H by exact Hl. by injection H as <-.
  - destruct (Z.to_nat (argc - 1)) as [|n] eqn:En.
    + cbn in H. rewrite take_0. by injection H as <-.
    + destruct (decide (1 <= length argv)).
      * rewrite parse_from_None in H by lia. discriminate.
      * cbn in H. destruct argv as [|a0 [|a1 argv]]; cbn in *; try discriminate; lia.
Qed.

Lemma find_insert k k' d m :
  find k (insert k' d m) =
    match find k m with
    | Some x => Some x
    | None => if decide (Utility.c_str k = Utility.c_str k') then Some d else None
    end.
Proof.
  unfold insert, find.
  destruct (m !! Utility.c_str k') as [x'|] eqn:E'.
  - destruct (m !! Utility.c_str k) eqn:E; [done|].
    destruct (decide _) as [e|]; [|done]. rewrite e in E. congruence.
  - destruct (decide (Utility.c_str k = Utility.c_str k')) as [e|n].
    + rewrite e. rewrite lookup_insert_eq, E'. done.
    + rewrite lookup_insert_ne by done. by destruct (m !! Utility.c_str k).
Qed.

Lemma IsFlag_skip1 a : IsFlag a = true -> empty (skip1 a) = false.
Proof.
  destruct a as [|c [|c' a]]; cbn; done.
Qed.

(** The keys after an argument: those before it, and the flag it names. *)
Lemma parse_arg_keys st a f :
  is_Some (find f (save_last (parse_arg st a))) <->
  is_Some (find f (save_last st)) \/ names_flag a f.
Proof.
  unfold parse_arg, names_flag.
  destruct (IsFlag a) eqn:Ea.
  - pose proof (IsFlag_skip1 _ Ea) as Hs.
    unfold save_last at 1. cbn [flag data args]. rewrite Hs. cbn [negb].
    rewrite find_insert.
    assert (args (if negb (empty (flag st))
                  then mkParse (insert (flag st) (data st) (args st)) "" ""
                  else st) = save_last st) as ->.
    { unfold save_last. by destruct (negb (empty (flag st))). }
    destruct (find f (save_last st)) eqn:E.
    + split; [intros _; left; eauto | eauto].
    + destruct (decide _) as [e|n].
      * split; [intros _; right; split; congruence | eauto].
      * split; [intros [? [=]] | intros [[? [=]]|[_ ?]]; congruence].
  - unfold save_last. cbn [flag data args].
    destruct (negb (empty (flag st))).
    + rewrite !find_insert. destruct (find f (args st)); [|destruct (decide _)].
      all: split; [intros ?; left; eauto| intros [?|[[=] _]]; eauto].
    + split; [intros ?; left; eauto| intros [?|[[=] _]]; eauto].
Qed.

Lemma parse_args_keys l st f :
  is_Some (find f (save_last (fold_left parse_arg l st))) <->
  is_Some (find f (save_last st)) \/ exists a, a ∈ l /\ names_flag a f.
Proof.
  revert st. induction l as [|a l IH]; intros st; cbn.
  - split; [eauto|]. intros [?|(a & Ha & _)]; [done|]. by apply elem_of_nil in Ha.
  - rewrite IH, parse_arg_keys. split.
    + intros [[?|?]|(b & Hb & ?)]; eauto.
      * right. exists a. split; [left|done].
      * right. exists b. split; [by right|done].
    + intros [?|(b & Hb & ?)]; eauto.
      apply elem_of_cons in Hb as [->|Hb]; eauto.
Qed.


Lemma find_args_save_last st f :
  find f (save_last st) = None ->
  find f (args st) = None /\
  (empty (flag st) = true \/ Utility.c_str f <> Utility.c_str (flag st)).
Proof.
  unfold save_last. destruct (empty (flag st)); cbn [negb]; [auto|].
  rewrite find_insert. destruct (find f (args st)); [done|].
  destruct (decide _); [done|auto].
Qed.

(** An entry of the map stays as it is. *)
Lemma parse_arg_keeps st a f d :
  find f (args st) = Some d -> find f (args (parse_arg st a)) = Some d.
Proof.
  intros H. unfold parse_arg.
  destruct (IsFlag a); [|done].
  destruct (negb (empty (flag st))); cbn [args]; [|done].
  by rewrite find_insert, H.
Qed.

Lemma parse_args_keep l st f d :
  find f (args st) = Some d ->
  find f (save_last (fold_left parse_arg l st)) = Some d.
Proof.
  revert st. induction l as [|a l IH]; intros st H; cbn.
  - unfold save_last. destruct (negb (empty (flag st))); [|done].
    by rewrite find_insert, H.
  - apply IH, parse_arg_keeps, H.
Qed.

(** Arguments that are no flags extend the data. *)
Lemma parse_words ws st :
  Forall (fun w => IsFlag w = false) ws ->
  fold_left parse_arg ws st =
    mkParse (args st) (flag st) (fold_left append_word ws (data st)).
Proof.
  revert st. induction ws as [|w ws IH]; intros st Hw; cbn.
  - by destruct st.
  - apply Forall_cons in Hw as [Hw Hws].
    rewrite IH by done. unfold parse_arg at 1 2 3. rewrite Hw. done.
Qed.

Lemma parse_arg_flag_stays st a :
  empty (flag st) = false -> empty (flag (parse_arg st a)) = false.
Proof.
  intros H. unfold parse_arg. destruct (IsFlag a) eqn:E; cbn [flag]; [|done].
  by apply IsFlag_skip1.
Qed.

Lemma parse_args_flag_stays l st :
  empty (flag st) = false -> empty (flag (fold_left parse_arg l st)) = false.
Proof.
  revert st. induction l as [|a l IH]; intros st H; cbn; [done|].
  by apply IH, parse_arg_flag_stays.
Qed.

Lemma parse_args_flag_seen l st :
  Exists (fun a => IsFlag a = true) l ->
  empty (flag (fold_left parse_arg l st)) = false.
Proof.
  revert st. induction l as [|a l IH]; intros st H; cbn.
  - by apply Exists_nil in H.
  - apply Exists_cons in H as [H|H]; [|by apply IH].
    apply parse_args_flag_stays. unfold parse_arg. rewrite H. cbn [flag].
    by apply IsFlag_skip1.
Qed.

Lemma append_words_nonempty ws d :
  Forall (fun w => w <> EmptyString) ws -> d <> EmptyString ->
  fold_left append_word ws d =
    match ws with
    | [] => d
    | _ => d +:+ " " +:+ String.concat " " ws
    end.
Proof.
  revert d. induction ws as [|w ws IH]; intros d Hw Hd; [done|].
  apply Forall_cons in Hw as [Hw Hws]. cbn [fold_left].
  assert (append_word d w = d +:+ " " +:+ w) as ->.
  { unfold append_word. destruct d; [done|]. cbn [empty negb].
    by rewrite string_app_assoc. }
  rewrite IH; [|done|].
  - destruct ws as [|w' ws]; [done|].
    cbn [String.concat]. by rewrite !string_app_assoc.
  - by apply string_app_nonempty.
Qed.

Lemma append_words_concat ws :
  Forall (fun w => w <> EmptyString) ws ->
  fold_left append_word ws EmptyString = String.concat " " ws.
Proof.
  destruct ws as [|w ws]; [done|]. intros Hw.
  apply Forall_cons in Hw as [Hw Hws]. cbn [fold_left].
  assert (append_word "" w = w) as -> by done.
  rewrite append_words_nonempty by done.
  destruct ws; done.
Qed.

(** The data of the flag named by [a], in a line [pre ++ a :: ws ++ rest]
    read from the state [st]. *)
Lemma parse_flag_data pre a ws rest st f :
  find f (save_last (fold_left parse_arg pre st)) = None ->
  names_flag a f ->
  Forall (fun w => IsFlag w = false) ws ->
  match rest with [] => True | b :: _ => IsFlag b = true end ->
  let st1 := fold_left parse_arg pre st in
  find f (save_last (fold_left parse_arg (pre ++ a :: ws ++ rest) st)) =
    Some (fold_left append_word ws
            (if empty (flag st1) then data st1 else EmptyString)).
Proof.
  intros Hnone [Ha Hk] Hws Hrest st1. subst st1.
  rewrite fold_left_app. cbn [fold_left].
  set (st1 := fold_left parse_arg pre st) in *.
  apply find_args_save_last in Hnone as [Hargs Hflag].
  pose proof (IsFlag_skip1 _ Ha) as Hs.
  set (st2 := parse_arg st1 a).
  assert (find f (args st2) = None /\ flag st2 = skip1 a /\
          data st2 = if empty (flag st1) then data st1 else EmptyString)
    as (H2a & H2f & H2d).
  { subst st2. unfold parse_arg. rewrite Ha.
    destruct (empty (flag st1)) eqn:E; cbn [negb args flag data]; [done|].
    rewrite find_insert, Hargs.
    destruct Hflag as [?|?]; [done|]. destruct (decide _); done. }
  rewrite fold_left_app, (parse_words ws) by done.
  rewrite H2f, H2d.
  set (d := fold_left append_word ws _).
  destruct rest as [|b rest].
  - cbn [fold_left]. unfold save_last. cbn [flag data args]. rewrite Hs.
    cbn [negb]. rewrite find_insert, H2a.
    destruct (decide _) as [|n]; [done|]. by destruct n.
  - cbn [fold_left]. apply parse_args_keep.
    unfold parse_arg. rewrite Hrest. cbn [flag data args]. rewrite Hs.
    cbn [negb args]. rewrite find_insert, H2a.
    destruct (decide _) as [|n]; [done|]. by destruct n.
Qed.


(** X2: after [ParseCmdArg], a flag is set exactly when one of the arguments
    [argv[1]] to [argv[argc - 1]] names it: an argument of more than one
    character that begins with a dash, the rest of which is the flag. *)
Theorem flag_is_set_iff_an_argument_names_it argc argv this c f :
  ParseCmdArg argc argv this = Some c ->
  IsFlagSet f c = true <->
  exists a, a ∈ read_args argc argv /\ names_flag a f.
Proof.
  intros H. apply ParseCmdArg_Some in H as ->.
  unfold IsFlagSet, GetArg. cbn [m_Args].
  rewrite bool_decide_eq_true, parse_args_keys.
  split; [|auto]. intros [[x Hx]|?]; [|done].
  unfold save_last, parse_start, find in Hx. cbn in Hx.
  by rewrite lookup_empty in Hx.
Qed.

Lemma flag_is_set_iff_an_argument_names_it_witness :
  IsFlagSet "o" (mkCmdLine (<["o" := ""]> (<["v" := "x"]> ∅))) = true <->
  exists a, a ∈ read_args 4 ["prog"; "-v"; "x"; "-o"] /\ names_flag a "o".
Proof.
  apply (flag_is_set_iff_an_argument_names_it 4 ["prog"; "-v"; "x"; "-o"] ctor).
  vm_compute. reflexivity.
Defined.

(** X3: the data of a flag that follows another flag are the words between
    its first occurrence and the next flag, joined by single spaces (the
    empty string when there are none); later occurrences of the flag change
    nothing. *)
Theorem flag_data_are_the_words_after_its_first_occurrence
        argc argv this c pre a ws rest f :
  ParseCmdArg argc argv this = Some c ->
  read_args argc argv = pre ++ a :: ws ++ rest ->
  names_flag a f ->
  (forall b, b ∈ pre -> ~ names_flag b f) ->
  Exists (fun b => IsFlag b = true) pre ->
  Forall (fun w => IsFlag w = false) ws ->
  Forall (fun w => w <> EmptyString) ws ->
  match rest with [] => True | b :: _ => IsFlag b = true end ->
  GetArg f c = Some (String.concat " " ws).
Proof.
  intros H Hargs Ha Hpre Hflag Hws Hne Hrest.
  apply ParseCmdArg_Some in H as ->. unfold GetArg. cbn [m_Args].
  rewrite Hargs, parse_flag_data; try done.
  - rewrite parse_args_flag_seen by done. by rewrite append_words_concat.
  - apply eq_None_not_Some. rewrite parse_args_keys.
    intros [[x Hx]|(b & Hb & Hn)]; [|by eapply Hpre].
    unfold save_last, parse_start, find in Hx. cbn in Hx.
    by rewrite lookup_empty in Hx.
Qed.

Lemma flag_data_are_the_words_after_its_first_occurrence_witness :
  GetArg "o" (mkCmdLine (<["o" := "a b"]> (<["v" := ""]> ∅))) = Some "a b".
Proof.
  apply (flag_data_are_the_words_after_its_first_occurrence
           6 ["prog"; "-v"; "-o"; "a"; "b"; "-o"; "c"] ctor _
           ["-v"] "-o" ["a"; "b"] ["-o"] "o").
  - vm_compute. reflexivity.
  - reflexivity.
  - split; reflexivity.
  - intros b Hb [_ Hk]. apply list_elem_of_singleton in Hb as ->. discriminate Hk.
  - apply Exists_cons_hd. reflexivity.
  - repeat constructor.
  - repeat constructor; discriminate.
  - reflexivity.
Defined.

(** X4: words that come before the first flag are not dropped: they are
    given to the first flag, ahead of its own words. *)
Theorem words_before_the_first_flag_go_to_it
        argc argv this c pre a ws rest f :
  ParseCmdArg argc argv this = Some c ->
  read_args argc argv = pre ++ a :: ws ++ rest ->
  names_flag a f ->
  Forall (fun w => IsFlag w = false) (pre ++ ws) ->
  Forall (fun w => w <> EmptyString) (pre ++ ws) ->
  match rest with [] => True | b :: _ => IsFlag b = true end ->
  GetArg f c = Some (String.concat " " (pre ++ ws)).
Proof.
  intros H Hargs Ha Hws Hne Hrest.
  apply ParseCmdArg_Some in H as ->. unfold GetArg. cbn [m_Args].
  apply Forall_app in Hws as [Hpre Hws].
  assert (fold_left parse_arg pre parse_start =
          mkParse ∅ EmptyString (fold_left append_word pre EmptyString)) as E
    by (by rewrite parse_words).
  rewrite Hargs, parse_flag_data; try done.
  - rewrite E. cbn [flag data empty].
    by rewrite <- fold_left_app, append_words_concat.
  - rewrite E. unfold save_last, find. cbn. apply lookup_empty.
Qed.

Lemma words_before_the_first_flag_go_to_it_witness :
  GetArg "o" (mkCmdLine (<["o" := "in a"]> ∅)) = Some "in a".
Proof.
  apply (words_before_the_first_flag_go_to_it
           4 ["prog"; "in"; "-o"; "a"] ctor _ ["in"] "-o" ["a"] [] "o").
  - vm_compute. reflexivity.
  - reflexivity.
  - split; reflexivity.
  - repeat constructor.
  - repeat constructor; discriminate.
  - exact I.
Defined.

(** X5: [ParseCmdArg] reads [argv[1]] to [argv[argc - 1]] and nothing else:
    it is defined exactly when [argv] has these entries, its result depends
    neither on [argv[0]] nor on what the object held before, and with
    [argc <= 1] it leaves the object empty. *)
Theorem ParseCmdArg_reads_argv_from_1_below_argc argc argv this :
  (is_Some (ParseCmdArg argc argv this) <->
   (argc <= 1)%Z \/ (argc <= Z.of_nat (length argv))%Z) /\
  (forall argv' this',
      (argc <= Z.of_nat (length argv))%Z -> (argc <= Z.of_nat (length argv'))%Z ->
      read_args argc argv' = read_args argc argv ->
      ParseCmdArg argc argv' this' = ParseCmdArg argc argv this) /\
  ((argc <= 1)%Z -> ParseCmdArg argc argv this = Some ctor).
Proof.
  assert (Hdef : forall argv0 this0,
             (argc <= 1)%Z \/ (argc <= Z.of_nat (length argv0))%Z ->
             ParseCmdArg argc argv0 this0 =
               Some (mkCmdLine (save_last
                 (fold_left parse_arg (read_args argc argv0) parse_start)))).
  { intros argv0 this0 Hc. unfold ParseCmdArg, read_args.
    destruct (Z.to_nat (argc - 1)) as [|n] eqn:En.
    - cbn. by rewrite take_0.
    - rewrite parse_from_fold by lia. done. }
  split; [|split].
  - split; [|intros Hc; rewrite Hdef by done; eauto].
    intros [c Hc]. unfold ParseCmdArg in Hc.
    destruct (decide (argc <= 1)%Z); [auto|right].
    destruct (decide (argc <= Z.of_nat (length argv))%Z); [done|].
    destruct (Z.to_nat (argc - 1)) as [|k] eqn:En; [lia|].
    destruct argv as [|a0 argv]; [done|].
    rewrite parse_from_None in Hc; [done| |]; cbn [length] in *; lia.
  - intros argv' this' H1 H2 E. rewrite !Hdef by auto. by rewrite E.
  - intros Hc. rewrite Hdef by auto. unfold read_args.
    replace (Z.to_nat (argc - 1)) with 0 by lia. by rewrite take_0.
Qed.

End CmdLineFacts.

(** ** MultiArray.h: sizes and elements *)

Section MultiArrayFacts.
Import MultiArray.
Context {TYPE : Type}.
Implicit Types a : MultiArray TYPE.

Lemma at_replicate nx ny (v : TYPE) x y :
  at_ (mkMultiArray (replicate nx (replicate ny v))) x y =
    if decide (in_array nx ny x y) then Some v else None.
Proof.
  unfold at_, size_of_int, in_array. cbn [m_Array].
  destruct (decide (0 <= x)%Z), (decide (0 <= y)%Z);
    try (rewrite decide_False by lia; done).
  destruct (decide (Z.to_nat x < nx)) as [Hx|Hx].
  - rewrite lookup_replicate_2 by done.
    destruct (decide (Z.to_nat y < ny)) as [Hy|Hy].
    + rewrite lookup_replicate_2 by done. rewrite decide_True by lia. done.
    + rewrite decide_False by lia. apply lookup_replicate_None. lia.
  - rewrite decide_False by lia.
    rewrite (proj1 (lookup_replicate_None nx _ (Z.to_nat x))) by lia. done.
Qed.

(** X6: an array constructed with sizes [x] and [y] and a value has [x]
    columns, [y] rows unless it has no column (then it reports no row,
    whatever [y] was), and holds the value at every index inside it and
    nothing outside; a size below zero makes the constructor throw. *)
Theorem constructed_array_has_its_sizes_and_value x y (val : TYPE) :
  match ctor_val x y val with
  | None => (x < 0)%Z \/ (y < 0)%Z
  | Some a =>
      (0 <= x)%Z /\ (0 <= y)%Z /\
      Z.of_nat (SizeCol a) = x /\
      Z.of_nat (SizeRow a) = (if decide (x = 0) then 0 else y)%Z /\
      rectangular a /\
      forall i j,
        at_ a i j =
          if decide (in_array (Z.to_nat x) (Z.to_nat y) i j) then Some val
          else None
  end.
Proof.
  unfold ctor_val, size_of_int.
  destruct (decide (0 <= y)%Z); [|lia].
  destruct (decide (0 <= x)%Z); [|lia].
  split; [done|]. split; [done|].
  unfold SizeCol, SizeRow, rectangular. cbn [m_Array].
  rewrite length_replicate. split; [lia|]. split; [|split].
  - destruct (decide (x = 0%Z)) as [->|]; [done|].
    destruct (Z.to_nat x) eqn:E; [lia|]. cbn. rewrite length_replicate. lia.
  - destruct (Z.to_nat x) as [|nx]; [by constructor|].
    apply Forall_replicate. done.
  - intros i j. apply at_replicate.
Qed.


(** X7: an assignment through [operator()] is defined exactly where the
    element exists; it changes that element and no other, and neither size
    of the array. *)
Theorem assignment_changes_one_element a x y (val : TYPE) :
  match assign a x y val with
  | None => at_ a x y = None
  | Some a' =>
      is_Some (at_ a x y) /\
      at_ a' x y = Some val /\
      (forall i j, (i, j) <> (x, y) -> at_ a' i j = at_ a i j) /\
      SizeCol a' = SizeCol a /\
      SizeRow a' = SizeRow a /\
      (rectangular a -> rectangular a')
  end.
Proof.
  destruct a as [l]. unfold assign, at_, size_of_int. cbn [m_Array].
  destruct (decide (0 <= x)%Z) as [Hx|]; [|done].
  destruct (decide (0 <= y)%Z) as [Hy|]; [|done].
  destruct (l !! Z.to_nat x) as [inner|] eqn:El; [|done].
  destruct (inner !! Z.to_nat y) as [old|] eqn:Ei; [|done].
  pose proof (lookup_lt_Some _ _ _ El) as Hlx.
  pose proof (lookup_lt_Some _ _ _ Ei) as Hly.
  cbn [m_Array].
  split; [eauto|]. split; [|split; [|split; [|split]]].
  - rewrite list_lookup_insert_eq by done.
    by rewrite list_lookup_insert_eq.
  - intros i j Hij.
    destruct (decide (0 <= i)%Z) as [Hi|]; [|done].
    destruct (decide (0 <= j)%Z) as [Hj|]; [|done].
    destruct (decide (Z.to_nat i = Z.to_nat x)) as [e|n].
    + rewrite e, list_lookup_insert_eq, El by done.
      rewrite list_lookup_insert_ne; [done|].
      intros e'. apply Hij. f_equal; lia.
    + by rewrite list_lookup_insert_ne.
  - unfold SizeCol. cbn [m_Array]. by rewrite length_insert.
  - unfold SizeRow. cbn [m_Array].
    destruct l as [|inner0 l]; [done|].
    destruct (Z.to_nat x) as [|k]; cbn; [|done].
    injection El as ->. by rewrite length_insert.
  - unfold rectangular, SizeRow. cbn [m_Array]. intros Hr.
    assert (length (<[Z.to_nat y := val]> inner) =
            match l with [] => 0 | inner0 :: _ => length inner0 end) as Hin.
    { rewrite length_insert.
      by apply (proj1 (Forall_lookup _ _) Hr (Z.to_nat x)). }
    assert (match <[Z.to_nat x := <[Z.to_nat y := val]> inner]> l with
            | [] => 0 | inner0 :: _ => length inner0 end =
            match l with [] => 0 | inner0 :: _ => length inner0 end) as ->.
    { destruct l as [|inner0 l]; [done|].
      destruct (Z.to_nat x) as [|k]; cbn; [|done].
      injection El as ->. by rewrite length_insert. }
    apply Forall_insert; done.
Qed.

Lemma SetAll_inner_lookup (value : TYPE) inner j :
  SetAll_inner value inner !! j = (fun _ => value) <$> inner !! j.
Proof.
  revert j. induction inner as [|e inner IH]; intros [|j]; cbn; auto.
Qed.

Lemma SetAll_inner_length (value : TYPE) inner :
  length (SetAll_inner value inner) = length inner.
Proof. induction inner as [|e inner IH]; cbn; auto. Qed.

Lemma SetAll_outer_lookup (value : TYPE) outer i :
  SetAll_outer value outer !! i = SetAll_inner value <$> outer !! i.
Proof.
  revert i. induction outer as [|e outer IH]; intros [|i]; cbn; auto.
Qed.

(** X8: [SetAll] gives the value to every element there is, makes none and
    drops none: both sizes stay, and an index that was undefined stays
    undefined. *)
Theorem SetAll_sets_every_element_and_keeps_the_sizes (value : TYPE) a :
  SizeCol (SetAll value a) = SizeCol a /\
  SizeRow (SetAll value a) = SizeRow a /\
  (forall i j, at_ (SetAll value a) i j = (fun _ => value) <$> at_ a i j) /\
  (rectangular a -> rectangular (SetAll value a)).
Proof.
  destruct a as [l]. unfold SetAll, rectangular, SizeCol, SizeRow, at_.
  cbn [m_Array]. split; [|split; [|split]].
  - induction l as [|e l IH]; cbn; auto.
  - destruct l; cbn; [done|apply SetAll_inner_length].
  - intros i j. destruct (size_of_int i), (size_of_int j); try done.
    rewrite SetAll_outer_lookup.
    destruct (l !! n); cbn; [apply SetAll_inner_lookup|done].
  - intros Hr.
    assert (match SetAll_outer value l with
            | [] => 0 | inner :: _ => length inner end =
            match l with [] => 0 | inner :: _ => length inner end) as ->.
    { destruct l; cbn; [done|apply SetAll_inner_length]. }
    revert Hr. generalize (match l with [] => 0 | inner :: _ => length inner end).
    intros n Hr.
    induction Hr as [|e l' He Hr IH]; cbn; constructor; [|done].
    by rewrite SetAll_inner_length.
Qed.

End MultiArrayFacts.

(** ** Timer.cpp: what the stopwatch shows *)

Section TimerFacts.
Import Timer.

(** X9: the laws of the stopwatch.  A [Start] and the [Stop] after it add
    the ticks between them to what the timer shows, in whatever state it
    was; a [Start] while running and a [Stop] while stopped change nothing;
    a stopped timer shows the same at every reading of the clock; a [Reset]
    stops the timer and makes it show zero. *)
Theorem stopwatch_laws (this : Timer) (t0 t1 t now : Z) :
  runningTicks now (Stop t1 (Start t0 this)) =
    (runningTicks t0 this + (t1 - t0))%Z /\
  Start t (Start t0 this) = Start t0 this /\
  Stop t (Stop t1 this) = Stop t1 this /\
  runningTicks now (Stop t1 this) = runningTicks t1 this /\
  (forall cps, GetTimeMs cps now (Reset this) = 0%Z) /\
  Start t (Reset this) = mkTimer true t 0.
Proof.
  destruct this as [[] s st];
    unfold Start, Stop, Reset, GetTimeMs, runningTicks; cbn;
    repeat split; try lia; try done.
  all: intros cps; reflexivity.
Qed.




End TimerFacts.

(** ** GenericFactory.h: registration *)

Section FactoryFacts.
Import GenericFactory.
Context {IDType : Type} `{Countable IDType} {ProductCreator Product : Type}.
Variable call : ProductCreator -> option Product.

Lemma register_all_lookup (regs : list (IDType * ProductCreator)) f id :
  m_Creator (register_all regs f).2 !! id =
    match m_Creator f !! id with
    | Some creator => Some creator
    | None => first_creator id regs
    end.
Proof.
  revert f. induction regs as [|[id' c] regs IH]; intros f; cbn.
  - by destruct (m_Creator f !! id).
  - unfold Register.
    destruct (m_Creator f !! id') as [c'|] eqn:E'.
    + specialize (IH f). destruct (register_all regs f) as [oks f''].
      cbn in *. rewrite IH.
      destruct (decide (id' = id)) as [->|]; [by rewrite E'|done].
    + specialize (IH (mkGenericFactory (<[id' := c]> (m_Creator f)))).
      destruct (register_all regs _) as [oks f'']. cbn in *. rewrite IH.
      destruct (decide (id' = id)) as [->|n].
      * by rewrite lookup_insert_eq, E'.
      * by rewrite lookup_insert_ne.
Qed.

Lemma register_all_results (regs : list (IDType * ProductCreator)) f i id c :
  regs !! i = Some (id, c) ->
  (register_all regs f).1 !! i =
    Some (bool_decide (m_Creator f !! id = None /\
                       first_creator id (take i regs) = None)).
Proof.
  revert f i. induction regs as [|[id' c'] regs IH]; intros f i Hi; [done|].
  cbn [register_all]. unfold Register.
  destruct i as [|i].
  - injection Hi as -> ->. cbn.
    destruct (m_Creator f !! id) eqn:E;
      destruct (register_all regs _); cbn; f_equal.
  - cbn in Hi. cbn [take first_creator].
    destruct (m_Creator f !! id') as [c0|] eqn:E'.
    + specialize (IH f i Hi). destruct (register_all regs f). cbn in *.
      etrans; [exact IH|]. f_equal. apply bool_decide_ext.
      destruct (decide (id' = id)) as [->|]; [|done].
      rewrite E'. split; intros [[=] _].
    + specialize (IH (mkGenericFactory (<[id' := c']> (m_Creator f))) i Hi).
      destruct (register_all regs _). cbn in *.
      etrans; [exact IH|]. f_equal. apply bool_decide_ext.
      destruct (decide (id' = id)) as [->|n].
      * rewrite lookup_insert_eq. split; [intros [[=] _]|intros [_ [=]]].
      * by rewrite lookup_insert_ne.
Qed.

(** X11: the first registration of an ID wins.  After any registrations
    made on a new factory, [Create] calls the creator of the first one made
    under the ID and returns null when there was none; each [Register]
    returned true exactly when no earlier one had the same ID. *)
Theorem first_registration_wins (regs : list (IDType * ProductCreator)) :
  let '(oks, f) := register_all regs ctor in
  (forall id,
      Create call id f =
        match first_creator id regs with
        | Some creator => call creator
        | None => None
        end) /\
  (forall i id c,
      regs !! i = Some (id, c) ->
      oks !! i = Some (bool_decide (first_creator id (take i regs) = None))).
Proof.
  pose proof (register_all_lookup regs ctor) as Hl.
  pose proof (register_all_results regs ctor) as Hr.
  destruct (register_all regs ctor) as [oks f]. cbn in *. split.
  - intros id. unfold Create. rewrite Hl, lookup_empty. done.
  - intros i id c Hi. rewrite (Hr _ _ _ Hi). f_equal. apply bool_decide_ext.
    rewrite lookup_empty. tauto.
Qed.

End FactoryFacts.

(** ** observer.h: registration and notification *)

Section ObserverFacts.
Import Observer.
Context {T : Type}.
Implicit Types w : World T.

Lemma find_if_found h t l i k :
  find_if h t l i = Some (Some k) ->
  exists j p o,
    k = i + j /\ l !! j = Some p /\ h !! p = Some o /\ m_ID o = t /\
    forall j' p', j' < j -> l !! j' = Some p' -> m_ID <$> h !! p' <> Some t.
Proof.
  revert i. induction l as [|q l IH]; intros i H; cbn in H; [done|].
  destruct (h !! q) as [o|] eqn:E; [|done].
  destruct (decide (t = m_ID o)) as [->|n].
  - injection H as <-. exists 0, q, o.
    split; [lia|]. do 3 (split; [done|]). intros j' p' Hj. lia.
  - apply IH in H as (j & p & o' & -> & Hl & Hp & Ht & Hfirst).
    exists (S j), p, o'.
    split; [lia|]. do 3 (split; [done|]).
    intros [|j'] p' Hj Hl'; cbn in Hl'.
    + injection Hl' as <-. rewrite E. cbn. congruence.
    + apply (Hfirst j'); [lia|done].
Qed.

Lemma find_if_end h t l i :
  Forall (fun p => is_Some (h !! p)) l ->
  find_if h t l i = Some None <->
  Forall (fun p => m_ID <$> h !! p <> Some t) l.
Proof.
  revert i. induction l as [|q l IH]; intros i Hl; cbn.
  - split; [constructor|done].
  - apply Forall_cons in Hl as [[o Ho] Hl]. rewrite Ho.
    destruct (decide (t = m_ID o)) as [->|n].
    + split; [done|]. intros H. apply Forall_cons in H as [H _].
      rewrite Ho in H. by destruct H.
    + rewrite IH by done. split.
      * intros H. constructor; [|done]. rewrite Ho. cbn. congruence.
      * intros H. by apply Forall_cons in H as [_ H].
Qed.

Lemma find_if_defined h t l i :
  Forall (fun p => is_Some (h !! p)) l -> is_Some (find_if h t l i).
Proof.
  revert i. induction l as [|q l IH]; intros i Hl; cbn; [eauto|].
  apply Forall_cons in Hl as [[o Ho] Hl]. rewrite Ho.
  destruct (decide _); eauto.
Qed.


Lemma generateID_returns b w id :
  last (m_FreeIDs w) = Some id ->
  exists free,
    generateID b w =
      (Returns id, mkWorld (observers w) free (m_ObserverList w) (calls w)) /\
    free <> [] /\
    (m_FreeIDs w = [id] -> free = [((id + 1) mod 2 ^ 32)%Z]).
Proof.
  intros Hl. unfold generateID. rewrite Hl.
  apply last_Some in Hl as [l' Hl]. rewrite Hl, removelast_last.
  destruct l' as [|x l']; eexists; (split; [reflexivity|]); split; try done.
  intros E. destruct l'; discriminate E.
Qed.

(** What [registerObs] does once it has passed its check. *)
Lemma register_step b w obs o id :
  observers w !! obs = Some o -> last (m_FreeIDs w) = Some id ->
  exists free,
    match generateID b w with
    | (Returns id, w) =>
        let w := set_m_ID obs id w in
        (Returns tt,
         mkWorld (observers w) (m_FreeIDs w) (m_ObserverList w ++ [obs])
                 (calls w))
    | (Throws e, w) => (Throws e, w)
    | (Aborts, w) => (Aborts, w)
    | (Undefined, w) => (Undefined, w)
    end =
    (Returns tt,
     mkWorld (<[obs := mkObserver id (m_Observable o)]> (observers w)) free
             (m_ObserverList w ++ [obs]) (calls w)) /\
    free <> [] /\
    (m_FreeIDs w = [id] -> free = [((id + 1) mod 2 ^ 32)%Z]).
Proof.
  intros Ho Hl. destruct (generateID_returns b w id Hl) as (free & -> & Hf).
  exists free. split; [|done]. unfold set_m_ID. cbn. f_equal. f_equal.
  apply map_eq. intros p. destruct (decide (p = obs)) as [->|n].
  - by rewrite lookup_alter_eq, lookup_insert_eq, Ho.
  - by rewrite lookup_alter_ne, lookup_insert_ne.
Qed.

(** X12: [registerObs] enters an observer in the list, under the ID at the
    back of the free IDs, when the observer carries no ID or when some
    observer in the list carries the same ID: an observer that is in the
    list already is entered a second time.  An observer that carries an ID
    no observer in the list has is left out, and nothing changes. *)
Theorem registerObs_enters_again_and_leaves_out_unknown_IDs b w obs o id :
  listed_alive w ->
  observers w !! obs = Some o ->
  last (m_FreeIDs w) = Some id ->
  exists w',
    registerObs b obs w = (Returns tt, w') /\
    (m_ID o = InvalidID \/
     Exists (fun p => ID_of w p = Some (m_ID o)) (m_ObserverList w) ->
     m_ObserverList w' = m_ObserverList w ++ [obs] /\
     ID_of w' obs = Some id /\
     forall p, p <> obs -> observers w' !! p = observers w !! p) /\
    (obs ∈ m_ObserverList w ->
     m_ObserverList w' = m_ObserverList w ++ [obs]) /\
    (m_ID o <> InvalidID ->
     Forall (fun p => ID_of w p <> Some (m_ID o)) (m_ObserverList w) ->
     w' = w).
Proof.
  intros Hal Ho Hl.
  destruct (register_step b w obs o id Ho Hl) as (free & Hreg & _).
  assert (Hin : obs ∈ m_ObserverList w ->
                Exists (fun p => ID_of w p = Some (m_ID o)) (m_ObserverList w)).
  { intros Hin. apply Exists_exists. exists obs. split; [done|].
    unfold ID_of. by rewrite Ho. }
  unfold registerObs. rewrite Ho. cbv beta zeta in Hreg |- *.
  destruct (decide (m_ID o <> InvalidID)) as [Hid|Hid].
  - destruct (find_if_defined (observers w) (m_ID o) (m_ObserverList w) 0 Hal)
      as [[k|] Hf]; rewrite Hf.
    + rewrite Hreg. eexists. split; [reflexivity|]. cbn.
      assert (Hreg' : m_ObserverList w ++ [obs] = m_ObserverList w ++ [obs] /\
                ID_of (mkWorld (<[obs:=mkObserver id (m_Observable o)]> (observers w))
                         free (m_ObserverList w ++ [obs]) (calls w)) obs = Some id /\
                forall p, p <> obs ->
                  <[obs:=mkObserver id (m_Observable o)]> (observers w) !! p =
                  observers w !! p).
      { split; [done|]. split.
        - unfold ID_of. cbn. by rewrite lookup_insert_eq.
        - intros p Hp. by rewrite lookup_insert_ne. }
      split; [done|]. split; [done|].
      intros _ Hall. apply find_if_found in Hf
        as (j & p & o' & _ & Hj & Hp & Ht & _).
      exfalso. eapply (proj1 (Forall_lookup _ _) Hall); [exact Hj|].
      unfold ID_of. rewrite Hp. cbn. by rewrite Ht.
    + apply find_if_end in Hf; [|done].
      exists w. split; [done|]. split; [|split; [|done]].
      * intros [?|Hex]; [done|]. exfalso.
        apply Exists_exists in Hex as (p & Hp & Hid').
        by apply (proj1 (Forall_forall _ _) Hf p Hp).
      * intros Hobs. exfalso. apply Hin in Hobs.
        apply Exists_exists in Hobs as (p & Hp & Hid').
        by apply (proj1 (Forall_forall _ _) Hf p Hp).
  - rewrite Hreg. eexists. split; [reflexivity|]. cbn.
    split; [|split; [done|]].
    + intros _. split; [done|]. split.
      * unfold ID_of. cbn. by rewrite lookup_insert_eq.
      * intros p Hp. by rewrite lookup_insert_ne.
    + intros Hid'. by destruct Hid.
Qed.


Lemma find_if_first h t l k i p :
  l !! i = Some p ->
  m_ID <$> h !! p = Some t ->
  (forall j q, j < i -> l !! j = Some q ->
               is_Some (h !! q) /\ m_ID <$> h !! q <> Some t) ->
  find_if h t l k = Some (Some (k + i)).
Proof.
  revert k i. induction l as [|q l IH]; intros k i Hi Hp Hbefore; [done|].
  cbn. destruct i as [|i].
  - injection Hi as ->. destruct (h !! p) as [o|]; [|done].
    injection Hp as <-. rewrite decide_True by done. do 2 f_equal. lia.
  - destruct (Hbefore 0 q) as [[o Ho] Hne]; [lia|done|].
    rewrite Ho in Hne |- *. cbn in Hne.
    rewrite decide_False by congruence.
    rewrite (IH (S k) i); [do 2 f_equal; lia|done|done|].
    intros j q' Hj Hq'. apply (Hbefore (S j)); [lia|done].
Qed.

Lemma unregisterObs_unknown w obs o :
  listed_alive w ->
  observers w !! obs = Some o ->
  Forall (fun p => ID_of w p <> Some (m_ID o)) (m_ObserverList w) ->
  unregisterObs obs w =
    (Throws "Observer has not been registered with this Observable.", w).
Proof.
  intros Hal Ho Hall. unfold unregisterObs. rewrite Ho.
  by rewrite (proj2 (find_if_end _ _ _ 0 Hal) Hall).
Qed.

Lemma unregisterObs_first w obs o i p :
  listed_alive w ->
  observers w !! obs = Some o ->
  m_ObserverList w !! i = Some p ->
  ID_of w p = Some (m_ID o) ->
  (forall j q, j < i -> m_ObserverList w !! j = Some q ->
               ID_of w q <> Some (m_ID o)) ->
  exists w',
    unregisterObs obs w = (Returns tt, w') /\
    m_ObserverList w' = delete i (m_ObserverList w) /\
    ID_of w' p = Some InvalidID /\
    (forall q, q <> p -> observers w' !! q = observers w !! q) /\
    m_FreeIDs w' = m_FreeIDs w.
Proof.
  intros Hal Ho Hi Hp Hbefore. unfold unregisterObs. rewrite Ho.
  rewrite (find_if_first _ _ _ 0 i p Hi Hp).
  - cbn [Nat.add]. rewrite Hi. eexists. split; [reflexivity|].
    unfold set_m_ID, ID_of in *. cbn.
    destruct (observers w !! p) as [o'|] eqn:Ep; [|done].
    split; [done|]. split; [|split; [|done]].
    + by rewrite lookup_alter_eq, Ep.
    + intros q Hq. by rewrite lookup_alter_ne.
  - intros j q Hj Hq. split; [|by eapply Hbefore].
    by apply (proj1 (Forall_lookup _ _) Hal j).
Qed.

(** X13: [unregisterObs] goes by the ID, not by the address.  When no
    observer in the list carries the ID of the one given, it throws and
    changes nothing.  Otherwise it takes the first observer with that ID
    out of the list and gives it the invalid ID; the ID is not put back
    among the free ones. *)
Theorem unregisterObs_removes_the_first_observer_with_the_ID w obs o :
  listed_alive w ->
  observers w !! obs = Some o ->
  (Forall (fun p => ID_of w p <> Some (m_ID o)) (m_ObserverList w) ->
   unregisterObs obs w =
     (Throws "Observer has not been registered with this Observable.", w)) /\
  (forall i p,
      m_ObserverList w !! i = Some p ->
      ID_of w p = Some (m_ID o) ->
      (forall j q, j < i -> m_ObserverList w !! j = Some q ->
                   ID_of w q <> Some (m_ID o)) ->
      exists w',
        unregisterObs obs w = (Returns tt, w') /\
        m_ObserverList w' = delete i (m_ObserverList w) /\
        ID_of w' p = Some InvalidID /\
        (forall q, q <> p -> observers w' !! q = observers w !! q) /\
        m_FreeIDs w' = m_FreeIDs w).
Proof.
  intros Hal Ho. split.
  - intros Hall. by apply (unregisterObs_unknown w obs o).
  - intros i p Hi Hp Hbefore.
    by apply (unregisterObs_first w obs o i p).
Qed.

Lemma for_each_dead (c : Call T) l w p :
  p ∈ l -> observers w !! p = None -> (for_each c l w).1 = Undefined.
Proof.
  revert w. induction l as [|q l IH]; intros w Hp Hd.
  - by apply elem_of_nil in Hp.
  - cbn. destruct (observers w !! q) eqn:E; [|done].
    apply IH; [|done].
    apply elem_of_cons in Hp as [->|Hp]; [congruence|done].
Qed.

(** X14: no one sets [m_Observable], so [~Observer] never unregisters.  An
    observer that is constructed, registered and then destroyed is still in
    the list afterwards, and the next notification uses it. *)
Theorem destroyed_observer_stays_in_the_list b w obs id (data : T) :
  observers w !! obs = None ->
  last (m_FreeIDs w) = Some id ->
  exists w2 w3,
    registerObs b obs (Observer_ctor obs w) = (Returns tt, w2) /\
    m_ObserverList w2 = m_ObserverList w ++ [obs] /\
    (m_Observable <$> observers w2 !! obs) = Some false /\
    Observer_dtor obs w2 = (Returns tt, w3) /\
    m_ObserverList w3 = m_ObserverList w ++ [obs] /\
    observers w3 !! obs = None /\
    (notifyAll data w3).1 = Undefined.
Proof.
  intros Hfresh Hl.
  set (w1 := Observer_ctor obs w).
  assert (Ho : observers w1 !! obs = Some (mkObserver InvalidID false))
    by apply lookup_insert_eq.
  destruct (register_step b w1 obs _ id Ho Hl) as (free & Hreg & _).
  cbv beta zeta in Hreg.
  unfold registerObs. rewrite Ho. cbv beta zeta. cbn [m_ID].
  rewrite decide_False by (intros H; by apply H).
  rewrite Hreg. do 2 eexists. split; [reflexivity|]. cbn.
  split; [done|]. split; [by rewrite lookup_insert_eq|].
  unfold Observer_dtor. cbn. rewrite lookup_insert_eq. cbn.
  split; [reflexivity|]. cbn. split; [done|].
  split; [apply lookup_delete_eq|].
  unfold notifyAll. cbn. apply (for_each_dead _ _ _ obs).
  - apply elem_of_app. right. apply list_elem_of_singleton. done.
  - cbn. apply lookup_delete_eq.
Qed.


Lemma for_each_alive (c : Call T) l w :
  Forall (fun p => is_Some (observers w !! p)) l ->
  for_each c l w =
    (Returns tt,
     mkWorld (observers w) (m_FreeIDs w) (m_ObserverList w)
             (calls w ++ ((fun p => (p, c)) <$> l))).
Proof.
  revert w. induction l as [|p l IH]; intros w Hal; cbn.
  - rewrite app_nil_r. by destruct w.
  - apply Forall_cons in Hal as [[o Ho] Hal]. rewrite Ho.
    rewrite IH by done. cbn. by rewrite <- app_assoc.
Qed.

Lemma register_each_fresh b ps w n :
  m_FreeIDs w = [n] ->
  (0 <= n)%Z -> (n + Z.of_nat (length ps) < 2 ^ 32)%Z ->
  NoDup ps ->
  Forall (fun p => ID_of w p = Some InvalidID) ps ->
  exists w',
    register_each b ps w = (Returns tt, w') /\
    m_ObserverList w' = m_ObserverList w ++ ps /\
    m_FreeIDs w' = [(n + Z.of_nat (length ps))%Z] /\
    calls w' = calls w /\
    (forall i p, ps !! i = Some p -> ID_of w' p = Some (n + Z.of_nat i)%Z) /\
    (forall q, q ∉ ps -> observers w' !! q = observers w !! q).
Proof.
  revert w n. induction ps as [|p ps IH]; intros w n Hfree Hn Hmax Hnd Hfresh.
  - exists w. cbn. rewrite app_nil_r, Z.add_0_r. by repeat split.
  - apply NoDup_cons in Hnd as [Hp Hnd].
    apply Forall_cons in Hfresh as [Hfp Hfresh].
    unfold ID_of in Hfp. destruct (observers w !! p) as [o|] eqn:Ho; [|done].
    injection Hfp as Hid.
    assert (Hl : last (m_FreeIDs w) = Some n) by by rewrite Hfree.
    destruct (register_step b w p o n Ho Hl) as (free & Hreg & _ & Hf).
    specialize (Hf Hfree). subst free. cbv beta zeta in Hreg.
    cbn [register_each length]. unfold registerObs. rewrite Ho. cbv beta zeta.
    rewrite decide_False by (rewrite Hid; intros H; by apply H).
    rewrite Hreg. clear Hreg. cbn [length] in Hmax.
    rewrite (Z.mod_small (n + 1)) by lia.
    set (w1 := mkWorld _ _ _ _).
    destruct (IH w1 (n + 1)%Z) as (w' & Hr & Hlist & Hfree' & Hcalls & Hids & Hothers);
      try done; try (cbn [length] in Hmax; lia).
    { apply Forall_forall. intros q Hq. unfold ID_of. cbn.
      rewrite lookup_insert_ne by (intros ->; done).
      exact (proj1 (Forall_forall _ _) Hfresh q Hq). }
    exists w'. split; [done|]. split; [|split; [|split; [done|split]]].
    + rewrite Hlist. cbn. by rewrite <- app_assoc.
    + rewrite Hfree'. f_equal. cbn [length]. lia.
    + intros [|i] q Hq; cbn in Hq.
      * injection Hq as <-. unfold ID_of. rewrite (Hothers p Hp). cbn.
        rewrite lookup_insert_eq. cbn. f_equal. lia.
      * rewrite (Hids i q Hq). f_equal. lia.
    + intros q Hq. apply not_elem_of_cons in Hq as [Hqp Hq].
      rewrite (Hothers q Hq). cbn. by rewrite lookup_insert_ne.
Qed.

(** X15: observers that carry no ID, registered one after the other with a
    new Observable, get the IDs 1, 2, 3, ... in that order, and each
    notification reaches every one of them once, in the order of their
    registration. *)
Theorem observers_are_notified_in_the_order_registered
        b (heap : gmap nat Observer) ps (data : T) :
  NoDup ps ->
  Forall (fun p => m_ID <$> heap !! p = Some InvalidID) ps ->
  (Z.of_nat (length ps) < 2 ^ 32 - 1)%Z ->
  exists w,
    register_each b ps (ctor heap) = (Returns tt, w) /\
    m_ObserverList w = ps /\
    (forall i p, ps !! i = Some p -> ID_of w p = Some (Z.of_nat i + 1)%Z) /\
    notifyAll data w =
      (Returns tt,
       mkWorld (observers w) (m_FreeIDs w) ps
               ((fun p => (p, Notify data)) <$> ps)).
Proof.
  intros Hnd Hfresh Hlen.
  destruct (register_each_fresh b ps (ctor heap) 1%Z)
    as (w & Hr & Hlist & Hfree & Hcalls & Hids & Hothers); try done; try lia.
  exists w. cbn in Hlist, Hcalls. split; [done|]. split; [done|]. split.
  - intros i p Hi. rewrite (Hids i p Hi). f_equal. lia.
  - unfold notifyAll. rewrite for_each_alive.
    + by rewrite Hlist, Hcalls.
    + rewrite Hlist. apply Forall_lookup. intros i p Hi.
      specialize (Hids i p Hi). unfold ID_of in Hids.
      by destruct (observers w !! p).
Qed.


Lemma Kept_alive n w : Kept n w -> listed_alive w.
Proof.
  intros HP. apply Forall_forall. intros p Hp.
  destruct (kept_listed _ _ HP p Hp) as (id & Hid & _).
  unfold ID_of in Hid. by destruct (observers w !! p).
Qed.

Lemma filter_keeps_all (P : nat -> Prop) `{forall x, Decision (P x)} l :
  Forall P l -> filter P l = l.
Proof.
  induction 1 as [|x l Hx Hl IH]; [done|].
  by rewrite filter_cons_True, IH.
Qed.

Lemma delete_NoDup_filter (l : list nat) k p :
  NoDup l -> l !! k = Some p -> delete k l = filter (fun q => q <> p) l.
Proof.
  revert k. induction l as [|x l IH]; intros k Hnd Hk; [done|].
  apply NoDup_cons in Hnd as [Hx Hnd].
  destruct k as [|k]; cbn in Hk.
  - injection Hk as ->. change (delete 0 (p :: l)) with l.
    rewrite filter_cons_False by (intros H; by apply H).
    symmetry. apply filter_keeps_all. apply Forall_forall.
    intros q Hq ->. done.
  - change (delete (S k) (x :: l)) with (x :: delete k l).
    rewrite filter_cons_True.
    + f_equal. by apply IH.
    + intros ->. apply Hx. by eapply list_elem_of_lookup_2.
Qed.

Lemma Kept_unregister n w p o :
  Kept n w -> observers w !! p = Some o ->
  exists r w',
    unregisterObs p w = (r, w') /\
    (r = Returns tt \/ exists e, r = Throws e) /\
    Kept n w' /\
    m_ObserverList w' = filter (fun q => q <> p) (m_ObserverList w) /\
    dom (observers w') = dom (observers w).
Proof.
  intros HP Ho.
  pose proof (Kept_alive _ _ HP) as Hal.
  pose proof (unregisterObs_unknown w p o Hal Ho) as Hthrow.
  pose proof (fun i q => unregisterObs_first w p o i q Hal Ho) as Hfound.
  destruct (decide (p ∈ m_ObserverList w)) as [Hin|Hout].
  - apply list_elem_of_lookup_1 in Hin as Hi. destruct Hi as [i Hi].
    destruct (Hfound i p Hi) as (w' & Hr & Hl & Hid & Hothers & Hfree).
    + unfold ID_of. by rewrite Ho.
    + intros j q Hj Hq Hid.
      assert (q = p) as ->.
      { apply (kept_apart _ _ HP); [by eapply list_elem_of_lookup_2|done|].
        rewrite Hid. unfold ID_of. by rewrite Ho. }
      pose proof (kept_nodup _ _ HP) as Hnd.
      pose proof (NoDup_lookup _ _ _ _ Hnd Hq Hi). lia.
    + exists (Returns tt), w'. split; [done|]. split; [by left|].
      rewrite Hl, (delete_NoDup_filter _ _ _ (kept_nodup _ _ HP) Hi).
      split; [|split; [done|]].
      * constructor.
        -- by rewrite Hfree, (kept_free _ _ HP).
        -- apply (kept_next _ _ HP).
        -- rewrite Hl, (delete_NoDup_filter _ _ _ (kept_nodup _ _ HP) Hi).
           apply NoDup_filter, (kept_nodup _ _ HP).
        -- rewrite Hl, (delete_NoDup_filter _ _ _ (kept_nodup _ _ HP) Hi).
           intros q Hq. apply list_elem_of_filter in Hq as [Hqp Hq].
           unfold ID_of. rewrite (Hothers q Hqp).
           apply (kept_listed _ _ HP q Hq).
        -- rewrite Hl, (delete_NoDup_filter _ _ _ (kept_nodup _ _ HP) Hi).
           intros q oq Hoq Hq. destruct (decide (q = p)) as [->|Hqp].
           ++ unfold ID_of in Hid. rewrite Hoq in Hid. by injection Hid.
           ++ rewrite (Hothers q Hqp) in Hoq.
              apply (kept_unlisted _ _ HP q oq Hoq).
              intros Hq'. apply Hq. apply list_elem_of_filter. done.
        -- rewrite Hl, (delete_NoDup_filter _ _ _ (kept_nodup _ _ HP) Hi).
           intros q1 q2 Hq1 Hq2.
           apply list_elem_of_filter in Hq1 as [Hq1p Hq1].
           apply list_elem_of_filter in Hq2 as [Hq2p Hq2].
           unfold ID_of. rewrite (Hothers q1 Hq1p), (Hothers q2 Hq2p).
           by apply (kept_apart _ _ HP).
      * apply set_eq. intros q. rewrite !elem_of_dom.
        destruct (decide (q = p)) as [->|Hqp]; [|by rewrite (Hothers q Hqp)].
        unfold ID_of in Hid. rewrite Ho.
        destruct (observers w' !! p); [|done]. split; eauto.
  - eexists _, w. split; [|split; [right; eauto|]].
    + apply Hthrow. apply Forall_forall. intros q Hq Hid.
      destruct (kept_listed _ _ HP q Hq) as (id & Hid' & Hpos).
      rewrite (kept_unlisted _ _ HP p o Ho Hout) in Hid.
      rewrite Hid in Hid'. injection Hid' as <-. unfold InvalidID in Hpos. lia.
    + split; [done|]. split; [|done].
      symmetry. apply filter_keeps_all. apply Forall_forall.
      intros q Hq ->. done.
Qed.

Lemma Kept_register b n w p o :
  Kept n w -> observers w !! p = Some o -> p ∉ m_ObserverList w ->
  (n + 1 < 2 ^ 32)%Z ->
  exists w',
    registerObs b p w = (Returns tt, w') /\
    Kept (n + 1) w' /\
    m_ObserverList w' = m_ObserverList w ++ [p] /\
    dom (observers w') = dom (observers w).
Proof.
  intros HP Ho Hout Hmax.
  pose proof (kept_unlisted _ _ HP p o Ho Hout) as Hid.
  assert (Hl : last (m_FreeIDs w) = Some n) by by rewrite (kept_free _ _ HP).
  destruct (register_step b w p o n Ho Hl) as (free & Hreg & _ & Hf).
  specialize (Hf (kept_free _ _ HP)). subst free. cbv beta zeta in Hreg.
  unfold registerObs. rewrite Ho. cbv beta zeta.
  rewrite decide_False by (rewrite Hid; intros H; by apply H).
  rewrite Hreg. eexists. split; [reflexivity|]. cbn.
  pose proof (kept_next _ _ HP) as Hn.
  rewrite Z.mod_small by lia.
  split; [|split; [done|]].
  - constructor; cbn.
    + done.
    + lia.
    + apply NoDup_app. split; [apply (kept_nodup _ _ HP)|].
      split; [|apply NoDup_singleton].
      intros q Hq Hq'. apply list_elem_of_singleton in Hq' as ->. done.
    + intros q Hq. unfold ID_of. cbn.
      apply elem_of_app in Hq as [Hq|Hq].
      * rewrite lookup_insert_ne by (intros ->; done).
        destruct (kept_listed _ _ HP q Hq) as (id & Hid' & Hpos).
        exists id. split; [done|lia].
      * apply list_elem_of_singleton in Hq as ->.
        rewrite lookup_insert_eq. cbn. exists n. split; [done|lia].
    + intros q oq Hoq Hq.
      rewrite not_elem_of_app in Hq. destruct Hq as [Hq Hqp].
      rewrite list_elem_of_singleton in Hqp.
      rewrite lookup_insert_ne in Hoq by done.
      by apply (kept_unlisted _ _ HP q oq).
    + intros q1 q2 Hq1 Hq2. unfold ID_of. cbn.
      apply elem_of_app in Hq1 as [Hq1|Hq1];
        apply elem_of_app in Hq2 as [Hq2|Hq2].
      * rewrite !lookup_insert_ne by (intros ->; done).
        by apply (kept_apart _ _ HP).
      * apply list_elem_of_singleton in Hq2 as ->.
        rewrite lookup_insert_eq, lookup_insert_ne by (intros ->; done).
        destruct (kept_listed _ _ HP q1 Hq1) as (id & Hid' & Hpos).
        unfold ID_of in Hid'. rewrite Hid'. cbn. intros [= ->]. lia.
      * apply list_elem_of_singleton in Hq1 as ->.
        rewrite lookup_insert_eq, lookup_insert_ne by (intros ->; done).
        destruct (kept_listed _ _ HP q2 Hq2) as (id & Hid' & Hpos).
        unfold ID_of in Hid'. rewrite Hid'. cbn. intros [= <-]. lia.
      * apply list_elem_of_singleton in Hq1 as ->.
        by apply list_elem_of_singleton in Hq2 as ->.
  - apply set_eq. intros q. rewrite !elem_of_dom.
    destruct (decide (q = p)) as [->|Hqp].
    + rewrite lookup_insert_eq, Ho. split; eauto.
    + by rewrite lookup_insert_ne.
Qed.

(** X16: an Observable that is never asked to register an observer
    already in its list behaves as a list without repetition.  Starting new,
    with observers that carry no ID, fewer than 2^32 - 2 calls of
    [registerObs] and [unregisterObs] on observers that are alive all return
    or throw, and leave in the list the registered observers in the order of
    their registration: each [unregisterObs] has removed the observer it was
    given and no other, or thrown and removed none.  The observers in the
    list are those that carry an ID. *)
Theorem properly_used_Observable_keeps_a_list_without_repetition
        b (heap : gmap nat Observer) (ops : list ObsOp) :
  (forall p o, heap !! p = Some o -> m_ID o = InvalidID) ->
  Forall (fun op => is_Some (heap !! obs_target op)) ops ->
  registers_anew ops [] ->
  (Z.of_nat (length ops) < 2 ^ 32 - 2)%Z ->
  exists w : World T,
    obs_run b ops (ctor heap) = (Returns tt, w) /\
    m_ObserverList w = fold_left list_op ops [] /\
    NoDup (m_ObserverList w) /\
    (forall p, p ∈ m_ObserverList w <->
               exists id, ID_of w p = Some id /\ id <> InvalidID).
Proof.
  intros Hfresh Halive Hproper Hlen.
  assert (Hgen : forall ops n w,
    Kept n w ->
    Forall (fun op => obs_target op ∈ dom (observers w)) ops ->
    registers_anew ops (m_ObserverList w) ->
    (n + Z.of_nat (length ops) < 2 ^ 32)%Z ->
    exists n' w', obs_run b ops w = (Returns tt, w') /\ Kept n' w' /\
      m_ObserverList w' = fold_left list_op ops (m_ObserverList w)).
  { clear. induction ops as [|op ops IH]; intros n w HP Hal Hpr Hmax.
    - exists n, w. done.
    - apply Forall_cons in Hal as [Hop Hal]. destruct Hpr as [Hop' Hpr].
      apply elem_of_dom in Hop as [o Ho]. cbn [fold_left length obs_run] in *.
      destruct op as [p|p]; cbn in Ho, Hop'; cbn [obs_call].
      + destruct (Kept_register b n w p o HP Ho Hop')
          as (w1 & -> & HP' & Hl & Hd); [lia|].
        destruct (IH (n + 1)%Z w1) as (n' & w' & Hr & HP'' & Hl'').
        * done.
        * by rewrite Hd.
        * by rewrite Hl.
        * lia.
        * exists n', w'. split; [done|]. split; [done|].
          rewrite Hl''. cbn. by rewrite Hl.
      + destruct (Kept_unregister n w p o HP Ho)
          as (r & w1 & -> & Hr1 & HP' & Hl & Hd).
        destruct (IH n w1) as (n' & w' & Hr & HP'' & Hl'').
        * done.
        * by rewrite Hd.
        * by rewrite Hl.
        * lia.
        * exists n', w'. split; [by destruct Hr1 as [->|[e ->]]|].
          split; [done|]. rewrite Hl''. cbn. by rewrite Hl. }
  destruct (Hgen ops 1%Z (ctor heap)) as (n' & w & Hr & HP & Hl).
  - constructor; cbn; try done.
    + apply NoDup_nil_2.
    + intros p Hp. by apply elem_of_nil in Hp.
    + intros p o Ho _. by eapply Hfresh.
    + intros p q Hp. by apply elem_of_nil in Hp.
  - cbn. eapply Forall_impl; [exact Halive|]. intros op Hop.
    by apply elem_of_dom.
  - done.
  - lia.
  - exists w. split; [done|].
    split; [done|]. split; [apply (kept_nodup _ _ HP)|].
    intros p. split.
    + intros Hp. destruct (kept_listed _ _ HP p Hp) as (id & Hid & Hpos).
      exists id. split; [done|]. unfold InvalidID. lia.
    + intros (id & Hid & Hne).
      destruct (decide (p ∈ m_ObserverList w)) as [|Hout]; [done|].
      unfold ID_of in Hid.
      destruct (observers w !! p) as [o|] eqn:Ho; [|done].
      injection Hid as <-.
      by destruct (Hne (kept_unlisted _ _ HP p o Ho Hout)).
Qed.

End ObserverFacts.

Section ObserverExamples.
Import Observer.

Lemma observers_are_notified_in_the_order_registered_witness :
  exists w : World nat,
    register_each release [7; 3]
      (ctor (<[3 := mkObserver 0%Z false]> (<[7 := mkObserver 0%Z false]> ∅)))
      = (Returns tt, w) /\
    m_ObserverList w = [7; 3] /\
    (forall i p, [7; 3] !! i = Some p -> ID_of w p = Some (Z.of_nat i + 1)%Z) /\
    notifyAll 42 w =
      (Returns tt,
       mkWorld (observers w) (m_FreeIDs w) [7; 3]
               ((fun p => (p, Notify 42)) <$> [7; 3])).
Proof.
  apply observers_are_notified_in_the_order_registered.
  - apply NoDup_cons. split; [|apply NoDup_singleton].
    intros H. apply list_elem_of_singleton in H. discriminate H.
  - repeat constructor.
  - cbn. lia.
Defined.


Lemma registerObs_enters_again_and_leaves_out_unknown_IDs_witness :
  exists w' : World nat,
    registerObs release 7 one_observer = (Returns tt, w') /\
    m_ObserverList w' = [7; 7].
Proof.
  destruct (registerObs_enters_again_and_leaves_out_unknown_IDs
              release one_observer 7 (mkObserver 1%Z false) 2%Z)
    as (w' & Hr & _ & Hin & _).
  - repeat constructor. vm_compute. eauto.
  - reflexivity.
  - reflexivity.
  - exists w'. split; [exact Hr|]. apply Hin. apply list_elem_of_here.
Defined.

Lemma unregisterObs_removes_the_first_observer_with_the_ID_witness :
  exists w' : World nat,
    unregisterObs 7 one_observer = (Returns tt, w') /\
    m_ObserverList w' = [] /\
    ID_of w' 7 = Some InvalidID /\
    m_FreeIDs w' = [2%Z].
Proof.
  destruct (unregisterObs_removes_the_first_observer_with_the_ID
              one_observer 7 (mkObserver 1%Z false)) as [_ H].
  - repeat constructor. vm_compute. eauto.
  - reflexivity.
  - destruct (H 0 7) as (w' & Hr & Hl & Hid & _ & Hf).
    + reflexivity.
    + reflexivity.
    + intros j q Hj. lia.
    + exists w'. split; [exact Hr|]. split; [exact Hl|]. split; [exact Hid|].
      exact Hf.
Defined.

Lemma destroyed_observer_stays_in_the_list_witness :
  exists w2 w3 : World nat,
    registerObs release 7 (Observer_ctor 7 (ctor ∅)) = (Returns tt, w2) /\
    m_ObserverList w2 = [7] /\
    (m_Observable <$> observers w2 !! 7) = Some false /\
    Observer_dtor 7 w2 = (Returns tt, w3) /\
    m_ObserverList w3 = [7] /\
    observers w3 !! 7 = None /\
    (notifyAll 42 w3).1 = Undefined.
Proof.
  apply (destroyed_observer_stays_in_the_list release (ctor ∅) 7 1%Z 42);
    reflexivity.
Defined.


Lemma properly_used_Observable_keeps_a_list_without_repetition_witness :
  let heap : gmap nat Observer :=
    <[3 := mkObserver 0%Z false]> (<[7 := mkObserver 0%Z false]> ∅) in
  let ops := [Reg 7; Reg 3; Unreg 7; Unreg 7; Reg 7] in
  exists w : World nat,
    obs_run release ops (ctor heap) = (Returns tt, w) /\
    m_ObserverList w = fold_left list_op ops [] /\
    NoDup (m_ObserverList w) /\
    (forall p, p ∈ m_ObserverList w <->
               exists id, ID_of w p = Some id /\ id <> InvalidID).
Proof.
  apply properly_used_Observable_keeps_a_list_without_repetition.
  - intros p o Ho.
    destruct (decide (p = 3)) as [->|]; [by injection Ho as <-|].
    rewrite lookup_insert_ne in Ho by done.
    destruct (decide (p = 7)) as [->|]; [by injection Ho as <-|].
    by rewrite lookup_insert_ne in Ho.
  - repeat constructor; vm_compute; eauto.
  - cbn. repeat split; try done.
    + intros H. by apply elem_of_nil in H.
    + intros H. apply list_elem_of_singleton in H. discriminate H.
    + vm_compute. intros H. apply list_elem_of_singleton in H. discriminate H.
  - cbn. lia.
Defined.

End ObserverExamples.

(** ** The active logger: nothing lost, nothing reordered *)

Section Conservation.
Import Logger.

Lemma stream_steady b me val s f hl hb :
  Steady f hl hb s -> me <> bg_tid ->
  exists s',
    stream b me val s = (Val tt, s') /\
    Steady f hl hb s' /\
    accounted f s' = accounted f s +:+ val.
Proof.
  intros [Hf Htd Hof Hl Hb Hne Hlf Hm Ho] Hme.
  open_proc s. subst.
  assert (Hll : hl < length objs) by (eapply lookup_lt_Some; eauto).
  unfold stream, scoped, mx, ScopeLock.ctor, ScopeLock.dtor, Mutex.Lock,
    Mutex.Unlock, Mutex.WaitForSingleObject, Mutex.put, set_m_Os.
  mstep.
  destruct (nik_debug b); cbn; rewrite Hlf; cbn;
    rewrite list_lookup_insert_eq by done; cbn;
    (destruct (decide (me = me)); [|contradiction]); cbn;
    rewrite list_insert_insert_eq, list_insert_id by done;
    (eexists; split; [reflexivity|]);
    (split; [by constructor|]);
    unfold accounted, in_flight, destination; cbn;
    by rewrite !string_app_assoc.
Qed.


Lemma Flush_steady b me s f hl hb :
  Steady f hl hb s -> me <> bg_tid ->
  exists s',
    Flush b me s = (Val tt, s') /\
    Steady f hl hb s' /\
    accounted f s' = accounted f s.
Proof.
  intros HS Hme.
  destruct (holds_buffer_pc (bg s)) eqn:Hpc.
  - exists s. split; [|done].
    destruct HS as [Hf Htd Hof Hl Hb Hne Hlf Hm Ho].
    rewrite Hpc in Hm.
    eapply Flush_held; eauto.
  - destruct HS as [Hf Htd Hof Hl Hb Hne Hlf Hm Ho].
    rewrite Hpc in Hm.
    open_proc s. subst.
    assert (Hll : hl < length objs) by (eapply lookup_lt_Some; eauto).
    assert (Hhl : hb < length objs) by (eapply lookup_lt_Some; eauto).
    unfold Flush, scoped, Write, mx, ScopeLock.ctor, ScopeLock.dtor,
      Mutex.Lock, Mutex.Unlock, Mutex.WaitForSingleObject, Mutex.put, record,
      set_m_Buffer, set_m_Os.
    mstep. destruct (nik_debug b); cbn; rewrite Hlf; cbn;
      rewrite list_lookup_insert_ne by done; rewrite Hm; cbn;
      rewrite list_lookup_insert_eq by (rewrite length_insert; done); cbn;
      (destruct (decide (me = me)); [|contradiction]); cbn;
      rewrite list_insert_insert_eq; cbn;
      rewrite list_lookup_insert_ne by done;
      rewrite list_lookup_insert_eq by done; cbn;
      (destruct (decide (me = me)); [|contradiction]); cbn;
      rewrite (list_insert_insert_ne _ hb hl) by done;
      rewrite list_insert_insert_eq;
      rewrite (list_insert_id _ hb) by done;
      rewrite list_insert_id by done;
      (eexists; split; [reflexivity|]);
      (split; [constructor; cbn; try done; by destruct bg0|]);
      unfold accounted, in_flight, destination; cbn;
      by rewrite ?string_app_assoc, ?string_app_nil_r.
Qed.


Lemma bg_step_steady b s f hl hb :
  Steady f hl hb s ->
  Steady f hl hb (bg_step b s) /\
  accounted f (bg_step b s) = accounted f s.
Proof.
  intros [Hf Htd Hof Hl Hb Hne Hlf Hm Ho].
  open_proc s. subst.
  assert (Hll : hl < length objs) by (eapply lookup_lt_Some; eauto).
  assert (Hhl : hb < length objs) by (eapply lookup_lt_Some; eauto).
  unfold bg_step, accounted, in_flight, destination. cbn.
  destruct bg0; cbn in Hm, Ho; try done; subst;
    unfold LogThreadFunc_at, lock_buffer, unlock_buffer, mx, of_,
      ScopeLock.ctor, ScopeLock.dtor, Mutex.Lock, Mutex.Unlock,
      Mutex.WaitForSingleObject, Mutex.put, Mutex.owner, record,
      set_m_Buffer, Sleep, OFStream.write, OFStream.flush, OFStream.content;
    mstep;
    try (destruct cont; cbn);
    try (destruct (nik_debug b); cbn);
    rewrite ?Hm; cbn;
    try (destruct (decide (bg_tid = bg_tid)); [|done]; cbn);
    rewrite ?list_lookup_insert_eq by done; cbn;
    rewrite ?bool_decide_eq_true_2 by done; cbn;
    (split;
     [constructor; cbn; try done;
      by rewrite ?list_lookup_insert_eq, ?list_lookup_insert_ne by done
     |cbn; rewrite ?lookup_insert_eq; cbn;
      by rewrite ?string_app_assoc, ?string_app_nil_r]).
Qed.


(** X17: while the logger is active, nothing it is given is lost, doubled or
    reordered.  Through every interleaving of the statements of the
    background thread with [operator<<] and [Flush] calls of other threads,
    the sink followed by the text in flight, the buffer and the logger's
    stream is what it was before, followed by the texts streamed, in the
    order they were streamed. *)
Theorem active_logger_keeps_every_text_in_order b sch s f hl hb :
  Steady f hl hb s ->
  forallb producing sch = true ->
  Steady f hl hb (exec b sch s) /\
  accounted f (exec b sch s) = accounted f s +:+ streamed sch.
Proof.
  revert s. induction sch as [|a sch IH]; intros s HS Hsch.
  - cbn. by rewrite string_app_nil_r.
  - cbn in Hsch. apply andb_true_iff in Hsch as [Ha Hsch].
    unfold exec. cbn [fold_left]. fold (exec b sch (act b a s)).
    assert (Hstep : Steady f hl hb (act b a s) /\
                    accounted f (act b a s) =
                      accounted f s +:+ streamed [a]).
    { unfold act. rewrite (steady_fault _ _ _ _ HS).
      destruct a as [| |me|fileName|me val|me|me os]; try discriminate Ha.
      - cbn. rewrite string_app_nil_r. by apply bg_step_steady.
      - cbn in Ha. apply negb_true_iff, Nat.eqb_neq in Ha.
        destruct (stream_steady b me val s f hl hb HS Ha) as (s' & -> & HS' & E).
        cbn. by rewrite string_app_nil_r.
      - cbn in Ha. apply negb_true_iff, Nat.eqb_neq in Ha.
        destruct (Flush_steady b me s f hl hb HS Ha) as (s' & -> & HS' & E).
        cbn. by rewrite string_app_nil_r. }
    destruct Hstep as [HS' E].
    destruct (IH _ HS' Hsch) as [HS'' E'].
    split; [done|]. rewrite E', E. rewrite string_app_assoc. f_equal.
    destruct a; cbn; try done. by rewrite string_app_nil_r.
Qed.


End Conservation.

Section ConservationExamples.
Import Logger.

Lemma active_logger_keeps_every_text_in_order_witness :
  let sch := [Call_stream 7 "a"; Step_bg; Step_bg; Call_Flush 7; Step_bg;
              Call_stream 8 "b"; Step_bg; Call_Flush 8] in
  Steady "log.txt" 0 1 (exec release sch active_logger) /\
  accounted "log.txt" (exec release sch active_logger) =
    accounted "log.txt" active_logger +:+ streamed sch.
Proof.
  apply active_logger_keeps_every_text_in_order.
  - constructor; try (vm_compute; reflexivity). discriminate.
  - reflexivity.
Defined.

End ConservationExamples.

Section Drain.
Import Logger.

Ltac bg_next :=
  match goal with
  | |- context [act ?b Step_bg (mkProc ?t ?m ?f ?q ?c ?o ?d ?h ?fl)] =>
      let E := fresh "E" in
      eassert (E : act b Step_bg (mkProc t m f q c o d h fl) = _);
      [ unfold act, bg_step, LogThreadFunc_at, lock_buffer, unlock_buffer, mx,
          of_, ScopeLock.ctor, ScopeLock.dtor, Mutex.Lock, Mutex.Unlock,
          Mutex.WaitForSingleObject, Mutex.put, Mutex.owner, record,
          set_m_Buffer, Sleep, OFStream.write, OFStream.flush,
          OFStream.content;
        mstep;
        try (destruct (nik_debug b); cbn);
        repeat (progress
          (rewrite ?list_insert_insert_eq;
           rewrite ?list_lookup_insert_eq by (rewrite ?length_insert; done);
           repeat match goal with
                  | H : _ !! _ = Some _ |- _ => rewrite H
                  end;
           try match goal with
               | |- context [decide (bg_tid = bg_tid)] =>
                   destruct (decide (bg_tid = bg_tid)); [|exfalso; done]
               end;
           rewrite ?bool_decide_eq_true_2 by done;
           cbn));
        rewrite ?list_insert_insert_eq;
        unfold set_bg, set_fault, set_outBuffer, set_mutexes, set_impl,
          set_this; cbn;
        reflexivity
      | rewrite E; clear E ]
  end.

(** X18: whatever the background thread is doing, at most eleven of its
    statements, made while no other thread moves, take to the sink all the
    text it has in flight and all the text in the buffer, in that order; the
    buffer is empty then, and the logger's own stream is as it was. *)
Theorem buffered_text_reaches_the_sink_within_eleven_statements
        b s f hl hb :
  Steady f hl hb s ->
  m_Continue (impl s) = true ->
  bg s <> L_none ->
  bg s <> L_returned ->
  exists n,
    n <= 11 /\
    let s' := exec b (repeat Step_bg n) s in
    destination s' f =
      destination s f +:+ in_flight s +:+ m_Buffer (impl s) /\
    m_Buffer (impl s') = EmptyString /\
    in_flight s' = EmptyString /\
    m_Os (this s') = m_Os (this s) /\
    Steady f hl hb s'.
Proof.
  intros [Hf Htd Hof Hl Hb Hne Hlf Hm Ho] Hc Hn Hr.
  open_proc s. subst.
  assert (Hll : hl < length objs) by (eapply lookup_lt_Some; eauto).
  assert (Hhl : hb < length objs) by (eapply lookup_lt_Some; eauto).
  destruct bg0; try done; cbn in Hm, Ho; subst;
    [exists 6|exists 5|exists 4|exists 3|exists 11|exists 10|exists 9
    |exists 8|exists 7];
    (split; [lia|]);
    unfold exec; cbn [repeat fold_left]; cbv zeta;
    repeat bg_next;
    unfold destination, in_flight, OFStream.content; cbn;
    rewrite ?lookup_insert_eq; cbn;
    rewrite ?insert_insert_eq, ?lookup_insert_eq; cbn;
    rewrite ?list_insert_id by done;
    rewrite ?string_app_assoc, ?string_app_nil_r;
    (split; [done|]); (split; [done|]); (split; [done|]); (split; [done|]);
    constructor; cbn; try done;
    rewrite ?list_lookup_insert_eq, ?list_lookup_insert_ne by done; done.
Qed.

Lemma buffered_text_reaches_the_sink_within_eleven_statements_witness :
  let s := buffered_logger in
  exists n,
    n <= 11 /\
    let s' := exec release (repeat Step_bg n) s in
    destination s' "log.txt" =
      destination s "log.txt" +:+ in_flight s +:+ m_Buffer (impl s) /\
    m_Buffer (impl s') = EmptyString /\
    in_flight s' = EmptyString /\
    m_Os (this s') = m_Os (this s) /\
    Steady "log.txt" 0 1 s'.
Proof.
  apply buffered_text_reaches_the_sink_within_eleven_statements.
  - constructor; try (vm_compute; reflexivity). discriminate.
  - reflexivity.
  - discriminate.
  - discriminate.
Defined.

End Drain.

(** ** The logger at its edges *)

Section LoggerEdges.
Import Logger.

Ltac open_logger s :=
  destruct s as [[os [[file failed] buf th bm cont started] lk] [objs mq]
                 [files denied] tq bg0 ob td0 hist flt].

(** X19: [SetFile] on an active logger does not flush.  The old
    sink keeps what it holds; the text in flight, in the buffer and in the
    logger's stream stays where it is, and will be written to the new sink,
    which starts empty. *)
Theorem SetFile_leaves_pending_text_for_the_new_sink b s f f2 hl hb :
  Steady f hl hb s ->
  m_ThreadStarted (impl s) = true ->
  f2 ∉ OFStream.denied (fs s) ->
  f2 <> f ->
  exists s',
    SetFile b f2 s = (Val true, s') /\
    Steady f2 hl hb s' /\
    destination s' f = destination s f /\
    accounted f2 s' =
      in_flight s +:+ m_Buffer (impl s) +:+ m_Os (this s).
Proof.
  intros [Hf Htd Hof Hl Hb Hne Hlf Hm Ho] Hs Hd Hff.
  open_logger s. cbn in *. subst. injection Hof as -> ->.
  unfold SetFile, OpenFile, CloseFile, StartThread, Thread_StartThread, of_,
    mx, record, OFStream.open, OFStream.close, OFStream.is_open.
  mstep. rewrite bool_decide_eq_false_2 by done. cbn.
  eexists. split; [reflexivity|]. split; [by constructor|].
  unfold accounted, in_flight, destination, OFStream.content. cbn.
  rewrite lookup_insert_eq, lookup_insert_ne by done. cbn.
  split; [done|]. by destruct bg0.
Qed.

Lemma SetFile_leaves_pending_text_for_the_new_sink_witness :
  exists s',
    SetFile release "new.txt" buffered_logger = (Val true, s') /\
    Steady "new.txt" 0 1 s' /\
    destination s' "log.txt" = destination buffered_logger "log.txt" /\
    accounted "new.txt" s' =
      in_flight buffered_logger +:+ m_Buffer (impl buffered_logger) +:+
      m_Os (this buffered_logger).
Proof.
  apply (SetFile_leaves_pending_text_for_the_new_sink release buffered_logger
           "log.txt" "new.txt" 0 1).
  - constructor; try (vm_compute; reflexivity). discriminate.
  - reflexivity.
  - vm_compute. intros H. discriminate H.
  - discriminate.
Defined.

(** X20: a logger whose [SetFile] has not succeeded yet has no
    buffer mutex.  [operator<<] only gathers text in the logger's stream,
    but [Flush], and with it [nik::endl], calls [Lock] through the null
    pointer. *)
Theorem Flush_before_SetFile_calls_through_a_null_mutex b me val s hl :
  m_BuffMutex (impl s) = None ->
  m_Lock (this s) = Some hl ->
  Mutex.objs (mutexes s) !! hl = Some Mutex.Free ->
  (Flush b me s).1 = Crashed NullPointer /\
  (endl b me s).1 = Crashed NullPointer /\
  exists s',
    stream b me val s = (Val tt, s') /\
    m_Os (this s') = m_Os (this s) +:+ val /\
    mutexes s' = mutexes s.
Proof.
  intros Hb Hl Hlf. open_logger s. cbn in *. subst.
  assert (Hll : hl < length objs) by (eapply lookup_lt_Some; eauto).
  unfold endl, Flush, stream, scoped, Write, mx, ScopeLock.ctor,
    ScopeLock.dtor, Mutex.Lock, Mutex.Unlock, Mutex.WaitForSingleObject,
    Mutex.put, set_m_Os.
  mstep.
  destruct (nik_debug b); cbn; rewrite Hlf; cbn;
    rewrite ?list_lookup_insert_eq by done; cbn;
    (destruct (decide (me = me)); [|contradiction]); cbn;
    rewrite ?list_insert_insert_eq, ?list_insert_id by done; cbn;
    rewrite Hlf; cbn;
    (split; [done|]); (split; [done|]);
    (eexists; split; [reflexivity|]); done.
Qed.

Lemma Flush_before_SetFile_calls_through_a_null_mutex_witness :
  (Flush release 7 fresh_logger).1 = Crashed NullPointer /\
  (endl release 7 fresh_logger).1 = Crashed NullPointer /\
  exists s',
    stream release 7 "a" fresh_logger = (Val tt, s') /\
    m_Os (this s') = m_Os (this fresh_logger) +:+ "a" /\
    mutexes s' = mutexes fresh_logger.
Proof.
  apply (Flush_before_SetFile_calls_through_a_null_mutex release 7 "a"
           fresh_logger 0); reflexivity.
Defined.

(** X21: [CloseFile] returns [!m_Of] after closing: true exactly
    when it has closed a stream that had failed.  Closing a healthy sink
    returns false, as does a call with no sink open. *)
Theorem CloseFile_returns_whether_the_stream_has_failed s :
  (CloseFile s).1 =
    Val (OFStream.is_open (m_Of (impl s)) && OFStream.failed (m_Of (impl s))) /\
  OFStream.is_open (m_Of (impl (CloseFile s).2)) = false /\
  fs (CloseFile s).2 = fs s.
Proof.
  open_logger s.
  unfold CloseFile, of_, record, OFStream.close, OFStream.is_open.
  mstep. destruct file as [name|]; cbn; [|done].
  by destruct failed.
Qed.

End LoggerEdges.

(** ** Locks, events and threads at their edges *)

Section ScopeLockFacts.
Import Mutex.

(** X22: a [ScopeLock] on a mutex another thread holds.  Without
    NIK_DEBUG its constructor waits; with NIK_DEBUG and assertions it stops
    the process after 500 ms; with NIK_DEBUG and assertions compiled out it
    returns without the mutex, so that the scope runs unprotected, and the
    destructor's [Unlock] fails and leaves the mutex with its owner. *)
Theorem ScopeLock_on_a_mutex_held_elsewhere b me h p owner :
  objs p !! h = Some (Held owner) ->
  owner <> me ->
  ScopeLock.ctor b me (Some h) p =
    (if nik_debug b
     then (if asserts b then Crashed AssertionFailed else Val tt)
     else Blocked, p) /\
  ScopeLock.dtor me (Some h) p = (Val tt, p).
Proof.
  intros Hh Hne. split.
  - unfold ScopeLock.ctor, bind, deref, ret. cbn.
    destruct (nik_debug b).
    + rewrite (Lock_held b me h 500 p owner) by done. cbn.
      unfold assert_. by destruct (asserts b).
    + by rewrite (Lock_held_forever b me h p owner).
  - unfold ScopeLock.dtor, Unlock, bind, get, ret, deref. cbn. rewrite Hh.
    by destruct (decide (owner = me)).
Qed.

Lemma ScopeLock_on_a_mutex_held_elsewhere_witness :
  let p := mkPool [Held 1] 0 in
  ScopeLock.ctor (mkBuild false true) 2 (Some 0) p = (Val tt, p) /\
  ScopeLock.dtor 2 (Some 0) p = (Val tt, p).
Proof.
  apply (ScopeLock_on_a_mutex_held_elsewhere (mkBuild false true) 2 0
           (mkPool [Held 1] 0) 1).
  - reflexivity.
  - discriminate.
Defined.

(** X23: a [ScopeLock] on a mutex whose owner ended without
    releasing it.  The wait gives the mutex to the caller and reports it as
    abandoned; [Lock] takes that for a failure, so the constructor throws
    (or stops at [assert(false)]) while the thread owns the mutex, and no
    destructor will release it. *)
Theorem ScopeLock_on_an_abandoned_mutex_throws_and_keeps_it b me h p :
  objs p !! h = Some Abandoned ->
  ScopeLock.ctor b me (Some h) p =
    (if asserts b then Crashed AssertionFailed
     else Raised "Mutex::Lock - Wait failed with code: ",
     lock_pool me h p) /\
  owner (lock_pool me h p) h = Some me.
Proof.
  intros Hh.
  assert (Hl : h < length (objs p)) by (eapply lookup_lt_Some; eauto).
  split.
  - unfold ScopeLock.ctor, Lock, WaitForSingleObject, put, lock_pool,
      bind, get, ret, deref, assert_, modify, throw, crash.
    destruct (nik_debug b), (asserts b); cbn; rewrite Hh; cbn; done.
  - unfold owner, lock_pool. cbn. by rewrite list_lookup_insert_eq.
Qed.

Lemma ScopeLock_on_an_abandoned_mutex_throws_and_keeps_it_witness :
  ScopeLock.ctor release 2 (Some 0) (mkPool [Abandoned] 0) =
    (Raised "Mutex::Lock - Wait failed with code: ", mkPool [Held 2] 0) /\
  owner (mkPool [Held 2] 0) 0 = Some 2.
Proof.
  apply (ScopeLock_on_an_abandoned_mutex_throws_and_keeps_it release 2 0
           (mkPool [Abandoned] 0)).
  reflexivity.
Defined.

End ScopeLockFacts.

Section EventLife.
Import Event.

(** X24: the events are manual-reset and start not signaled.  A new
    event is not signaled and leaves the others as they are; once set, an
    event stays signaled through any number of polls and further sets,
    until [ClearEvent]; setting or clearing one event changes no other. *)
Theorem events_are_manual_reset b p h :
  h < length (signaled p) ->
  let set := (SetEvent h p).2 in
  let cleared := (ClearEvent h set).2 in
  Poll h set = (Val WAIT_SIGNALED, set) /\
  SetEvent h set = (Val true, set) /\
  Poll h cleared = (Val WAIT_TIMEDOUT, cleared) /\
  (forall h', h' <> h ->
      is_signaled set h' = is_signaled p h' /\
      is_signaled cleared h' = is_signaled p h') /\
  (forall q, quota p = S q ->
      exists p',
        Create b p = (Val (Some (length (signaled p))), p') /\
        is_signaled p' (length (signaled p)) = false /\
        forall h', h' <> length (signaled p) ->
                   is_signaled p' h' = is_signaled p h').
Proof.
  intros Hh. destruct p as [l q0]. cbn in Hh. cbv zeta.
  rewrite !SetEvent_spec. cbn [snd signaled quota].
  rewrite !ClearEvent_spec. cbn [snd signaled quota].
  rewrite !Poll_spec, ?SetEvent_spec. cbn [snd signaled quota].
  rewrite list_insert_insert_eq.
  rewrite !list_lookup_insert_eq by (rewrite ?length_insert; done).
  rewrite length_insert. rewrite bool_decide_eq_true_2 by done.
  rewrite list_insert_insert_eq.
  split; [done|]. split; [done|]. split; [done|]. split.
  - intros h' Hne. unfold is_signaled. cbn.
    by rewrite !list_lookup_insert_ne.
  - intros q ->. rewrite Create_spec. cbn. eexists. split; [reflexivity|].
    split.
    + unfold is_signaled. cbn. by rewrite list_lookup_middle.
    + intros h' Hne. unfold is_signaled. cbn. destruct (decide (h' < length l)).
      * by rewrite lookup_app_l.
      * rewrite !lookup_ge_None_2; [done|lia|rewrite length_app; cbn; lia].
Qed.

Lemma events_are_manual_reset_witness :
  let p := mkPool [false; false] 0 in
  let set := (SetEvent 1 p).2 in
  Poll 1 set = (Val WAIT_SIGNALED, set) /\
  SetEvent 1 set = (Val true, set).
Proof.
  destruct (events_are_manual_reset release (mkPool [false; false] 0) 1)
    as (H1 & H2 & _).
  - cbn. lia.
  - split; [exact H1|exact H2].
Defined.

End EventLife.

Section SimpleFacts.
Import Simple.



Lemma loop_never_raises fuel ct s :
  self (loop fuel ct s).2 = self s /\
  forall e, (loop fuel ct s).1 <> Raised e.
Proof.
  revert ct s. induction fuel as [|fuel IH]; intros ct s; [done|].
  destruct s as [[stop stopped f] p l c]. cbn.
  unfold bind, get, deref, ret, count_call, modify, os, zoom, log_,
    Event.Poll, crash. cbn.
  destruct f as [uf|]; cbn; [|done].
  destruct (uf c ct && ct); cbn; [|done].
  destruct stop as [h|]; cbn; [|done].
  destruct (Event.signaled p !! h) as [[]|]; cbn; apply IH.
Qed.

Lemma loop_without_stop fuel ct s :
  m_StopEvent (self s) = None -> 0 < fuel ->
  (loop fuel ct s).1 = Val tt \/ (loop fuel ct s).1 = Crashed NullPointer.
Proof.
  destruct s as [[stop stopped f] p l c]. cbn. intros -> Hfuel.
  destruct fuel as [|fuel]; [lia|]. cbn.
  unfold bind, get, deref, ret, count_call, modify, os, zoom, log_,
    Event.Poll, crash. cbn.
  destruct f as [uf|]; cbn; [|auto].
  destruct (uf c ct && ct); cbn; auto.
Qed.

(** X26: when the kernel cannot create both signals,
    [SimpleThreadCoord::Run] neither returns nor throws: [Event::Create]
    gives a null handle, [Run] only asserts on it, and goes on to call
    through it. *)
Theorem Simple_Run_without_its_signals_never_returns b fuel s :
  m_StopEvent (self s) = None ->
  m_ThreadStoppedEvent (self s) = None ->
  Event.quota (pool s) <= 1 ->
  (forall v, (Run b fuel s).1 <> Val v) /\
  (forall e, (Run b fuel s).1 <> Raised e) /\
  (asserts b = true -> (Run b fuel s).1 = Crashed AssertionFailed) /\
  (asserts b = false -> Event.quota (pool s) = 0 -> 0 < fuel ->
   (Run b fuel s).1 = Crashed NullPointer).
Proof.
  destruct s as [[stop stopped f] [sig q] l c], b as [a d]. cbn.
  intros -> -> Hq.
  unfold Run, bind, get, assert_, os, zoom, set_m_StopEvent,
    set_m_ThreadStoppedEvent, log_, modify, ret, deref, crash,
    Event.Create, Event.ctor, Event.Init, Event.SetEvent, try_catch, throw.
  destruct q as [|[|q]]; [| |lia]; destruct a; cbn; try done.
  - set (s1 := mkState _ _ _ _).
    pose proof (loop_never_raises fuel true s1) as [_ Hr].
    pose proof (loop_without_stop fuel true s1 eq_refl) as Hv.
    destruct (loop fuel true s1) as [[v|e|flt|] s2]; cbn in *.
    + repeat split; done.
    + by destruct (Hr e).
    + repeat split; try done. intros _ _ Hfuel.
      destruct (Hv Hfuel) as [?|?]; congruence.
    + repeat split; try done. intros _ _ Hfuel.
      destruct (Hv Hfuel) as [?|?]; congruence.
  - set (s1 := mkState _ _ _ _).
    pose proof (loop_never_raises fuel true s1) as [_ Hr].
    destruct (loop fuel true s1) as [[v|e|flt|] s2]; cbn in *.
    + repeat split; done.
    + by destruct (Hr e).
    + repeat split; done.
    + repeat split; done.
Qed.

Lemma Simple_Run_without_its_signals_never_returns_witness :
  (Run release 5
       (mkState (ctor (Some (fun _ _ => false))) (Event.mkPool [] 0) [] 0)).1
    = Crashed NullPointer.
Proof.
  destruct (Simple_Run_without_its_signals_never_returns release 5
              (mkState (ctor (Some (fun _ _ => false))) (Event.mkPool [] 0)
                       [] 0)) as (_ & _ & _ & H).
  - reflexivity.
  - reflexivity.
  - cbn. lia.
  - apply H; [reflexivity|reflexivity|lia].
Defined.

End SimpleFacts.

Section ThreadObjFacts.
Import ThreadObj.

(** X27: when the kernel cannot create the thread,
    [ThreadObj::Run] stops at an assertion, or with assertions compiled out
    returns false.  Its coordinator has the new work function but never
    enters [Run], and [m_Thread] keeps pointing to the [Thread] object made
    for the attempt. *)
Theorem ThreadObj_Run_when_no_thread_can_be_created b arg o :
  m_Thread o = None ->
  thread_quota o = 0 ->
  exists o',
    Run b arg o = (if asserts b then Crashed AssertionFailed else Val false, o') /\
    m_Thread o' = Some false /\
    IsRunning o' = IsRunning o /\
    Coord.pc (m_ThreadCoord o') = Coord.pc (m_ThreadCoord o) /\
    Coord.calls (m_ThreadCoord o') = Coord.calls (m_ThreadCoord o) /\
    Coord.m_UserFunc (Coord.self (m_ThreadCoord o')) = Coord.m_UserFunc arg.
Proof.
  destruct o as [c t q], b as [a d]. cbn. intros -> ->.
  unfold Run, StartThread, coord_, set_m_Thread, bind, gets, get, modify,
    zoom, assert_, ret, crash, IsRunning.
  cbn. destruct a; cbn; eexists; (split; [reflexivity|]); cbn; auto 10.
Qed.

Lemma ThreadObj_Run_when_no_thread_can_be_created_witness :
  exists o',
    Run release (Coord.ctor keep_going) (ctor stop_at_once 2 0) =
      (Val false, o') /\
    m_Thread o' = Some false /\
    IsRunning o' = false.
Proof.
  destruct (ThreadObj_Run_when_no_thread_can_be_created release
              (Coord.ctor keep_going) (ctor stop_at_once 2 0))
    as (o' & Hr & Ht & Hi & _); [reflexivity|reflexivity|].
  exists o'. split; [exact Hr|]. split; [exact Ht|]. exact Hi.
Defined.

End ThreadObjFacts.
